(** * QwtPlot printing (qwt_plot_print.cpp): a shallow embedding

    The file follows src/qwt/src/qwt_plot_print.cpp.  The plot widget is a
    record holding what the printing code reads and writes; a call of one of
    the print methods is a state transformer on that record which also yields
    the list of calls it made to its collaborators (painter, layout engine,
    print filter, scale widgets, legend).  Dereferencing a null pointer has
    no result.

    Numbers.  [int] is [Z]; signed overflow is undefined in C++ and the
    quantities here are pixel distances, so no wrap-around is written.
    The [double] coordinates of the layout (QRectF, QTransform, QwtScaleMap)
    are exact rationals [Q]: rounding is left out there.  The one place where
    the result of a conversion [int(double)] depends on rounding, the device
    rectangle of [print(QPaintDevice &, ...)], is computed in IEEE 754
    binary64 (module [Double], on the Standard Library's [SpecFloat]). *)

From stdpp Require Import base option list gmap.
From Stdlib Require Import ZArith QArith Qround Lia Lqa.
From Stdlib Require Import Floats.SpecFloat.

Local Open Scope Z_scope.

(** ** IEEE 754 binary64, as the C++ [double] *)

Module Double.

Definition prec : Z := 53.
Definition emax : Z := 1024.

Definition double : Type := spec_float.

(** [double(int)]: every 32-bit integer is a binary64 number. *)
Definition of_int (z : Z) : double := binary_normalize prec emax z 0 false.

Definition div (x y : double) : double := SFdiv prec emax x y.
Definition mul (x y : double) : double := SFmul prec emax x y.
Definition ltb (x y : double) : bool := SFltb x y.

Definition one : double := of_int 1.

(** [int(double)]: truncation toward zero.  The conversion of a NaN, an
    infinity or a value out of range is undefined in C++; the model gives 0
    for the first two and the mathematical value for the last. *)
Definition to_int (x : double) : Z :=
  match x with
  | S754_finite s m e =>
      let a := match e with
               | Zneg k => Z.shiftr (Zpos m) (Zpos k)
               | _ => Z.shiftl (Zpos m) e
               end in
      if s then - a else a
  | _ => 0
  end.

End Double.

(** ** Qt value classes *)

(** [double] to [int]: truncation toward zero.  Outside the range of [int]
    the conversion is undefined in C++ and the model gives the mathematical
    value; a property that states a converted number takes the range as a
    hypothesis ([isInt], [isSmall]). *)
Definition d2i (q : Q) : Z := Z.quot (Qnum q) (Zpos (Qden q)).

(** [qRound]. *)
Definition qRound (q : Q) : Z := Qfloor (q + (1 # 2))%Q.

Definition Qltb (a b : Q) : bool := negb (Qle_bool b a).

Record QPointF := { px : Q; py : Q }.

Record QSize := { sz_width : Z; sz_height : Z }.

(** [QSize::isNull]: both the width and the height are 0. *)
Definition QSize_isNull (s : QSize) : bool :=
  (sz_width s =? 0) && (sz_height s =? 0).

(** [QRect]: integer rectangle, given by its corner and its extent. *)
Record QRect := { ix : Z; iy : Z; iwidth : Z; iheight : Z }.

Definition QRect_right (r : QRect) : Z := ix r + iwidth r - 1.

Definition QRect_setHeight (r : QRect) (h : Z) : QRect :=
  {| ix := ix r; iy := iy r; iwidth := iwidth r; iheight := h |}.

Record QRectF := { rx : Q; ry : Q; rwidth : Q; rheight : Q }.

Definition left (r : QRectF) : Q := rx r.
Definition top (r : QRectF) : Q := ry r.
Definition right (r : QRectF) : Q := (rx r + rwidth r)%Q.
Definition bottom (r : QRectF) : Q := (ry r + rheight r)%Q.

(** [QRectF::isValid]: [w > 0 && h > 0]. *)
Definition isValid (r : QRectF) : bool :=
  Qltb 0 (rwidth r) && Qltb 0 (rheight r).

Definition setWidth (r : QRectF) (w : Q) : QRectF :=
  {| rx := rx r; ry := ry r; rwidth := w; rheight := rheight r |}.

Definition setHeight (r : QRectF) (h : Q) : QRectF :=
  {| rx := rx r; ry := ry r; rwidth := rwidth r; rheight := h |}.

(** [QRectF::setX] moves the left edge and keeps the right one. *)
Definition setX (r : QRectF) (x : Q) : QRectF :=
  let diff := (x - rx r)%Q in
  {| rx := (rx r + diff)%Q; ry := ry r;
     rwidth := (rwidth r - diff)%Q; rheight := rheight r |}.

Definition toRect (r : QRectF) : QRect :=
  {| ix := qRound (rx r); iy := qRound (ry r);
     iwidth := qRound (rwidth r); iheight := qRound (rheight r) |}.

(** The conversion [QRect] to [QRectF]. *)
Definition toRectF (r : QRect) : QRectF :=
  {| rx := inject_Z (ix r); ry := inject_Z (iy r);
     rwidth := inject_Z (iwidth r); rheight := inject_Z (iheight r) |}.

(** [QTransform], restricted to what [print] builds: the identity scaled by
    two factors. *)
Record QTransform := { m11 : Q; m22 : Q }.

Definition QTransform_identity : QTransform := {| m11 := 1; m22 := 1 |}.

(** [QTransform::scale]: nothing happens for the factors (1, 1). *)
Definition scale (t : QTransform) (sx sy : Q) : QTransform :=
  if Qeq_bool sx 1 && Qeq_bool sy 1 then t
  else {| m11 := (m11 t * sx)%Q; m22 := (m22 t * sy)%Q |}.

Definition isScaling (t : QTransform) : bool :=
  negb (Qeq_bool (m11 t) 1 && Qeq_bool (m22 t) 1).

(** [QTransform::inverted]: the identity when the matrix is singular. *)
Definition inverted (t : QTransform) : QTransform :=
  if Qeq_bool (m11 t) 0 || Qeq_bool (m22 t) 0 then QTransform_identity
  else {| m11 := (1 / m11 t)%Q; m22 := (1 / m22 t)%Q |}.

(** [QTransform::mapRect]: the rectangle itself for the identity; for a
    scaling a negative extent is flipped.  The products are exact rationals,
    without the rounding of binary64: the properties below use the mapped
    rectangles as they are handed on, not their numbers. *)
Definition mapRect (t : QTransform) (r : QRectF) : QRectF :=
  if negb (isScaling t) then r else
  let x := (m11 t * rx r)%Q in
  let y := (m22 t * ry r)%Q in
  let w := (m11 t * rwidth r)%Q in
  let h := (m22 t * rheight r)%Q in
  let '(x, w) := if Qltb w 0 then ((x - - w)%Q, (- w)%Q) else (x, w) in
  let '(y, h) := if Qltb h 0 then ((y - - h)%Q, (- h)%Q) else (y, h) in
  {| rx := x; ry := y; rwidth := w; rheight := h |}.

(** ** The widgets *)

Inductive Orientation := Horizontal | Vertical.

Inductive Alignment := BottomScale | TopScale | LeftScale | RightScale.

Inductive Transformation := Linear | Log10.

Inductive PaintEngineType := Raster | X11 | OtherEngine.

(** Modelled from the spec: QwtScaleDraw (qwt_scale_draw.cpp is not part of
    the sources at hand), "underlying scale-draw get/set position & length":
    [move] and [setLength] store what they are given. *)
Record QwtScaleDraw := {
  sd_pos : QPointF;
  sd_length : Q;
  sd_orientation : Orientation
}.

Definition move (sd : QwtScaleDraw) (p : QPointF) : QwtScaleDraw :=
  {| sd_pos := p; sd_length := sd_length sd;
     sd_orientation := sd_orientation sd |}.

Definition setLength (sd : QwtScaleDraw) (l : Q) : QwtScaleDraw :=
  {| sd_pos := sd_pos sd; sd_length := l;
     sd_orientation := sd_orientation sd |}.

(** Modelled from the spec: QwtScaleWidget (qwt_scale_widget.cpp is not part
    of the sources at hand), "get/set margin, getBorderDistHint(),
    startBorderDist()/endBorderDist(), drawTitle, color-bar presence/width/
    rect, underlying scale-draw". *)
Record QwtScaleWidget := {
  margin : Z;
  borderDistHint : Z * Z;
  startBorderDist : Z;
  endBorderDist : Z;
  isColorBarEnabled : bool;
  colorBarWidth : Z;
  spacing : Z;
  penWidth : Z;
  scaleDraw : QwtScaleDraw
}.

Definition setMargin (w : QwtScaleWidget) (m : Z) : QwtScaleWidget :=
  {| margin := m; borderDistHint := borderDistHint w;
     startBorderDist := startBorderDist w; endBorderDist := endBorderDist w;
     isColorBarEnabled := isColorBarEnabled w;
     colorBarWidth := colorBarWidth w; spacing := spacing w;
     penWidth := penWidth w; scaleDraw := scaleDraw w |}.

Definition setScaleDraw (w : QwtScaleWidget) (sd : QwtScaleDraw)
  : QwtScaleWidget :=
  {| margin := margin w; borderDistHint := borderDistHint w;
     startBorderDist := startBorderDist w; endBorderDist := endBorderDist w;
     isColorBarEnabled := isColorBarEnabled w;
     colorBarWidth := colorBarWidth w; spacing := spacing w;
     penWidth := penWidth w; scaleDraw := sd |}.

(** A child of the legend's layout: [li_widget] is false for an item without
    a widget, [li_isLegendItem] says whether the widget is a QwtLegendItem,
    [li_hasManager] whether the legend finds a manager for it. *)
Record LegendLayoutItem := {
  li_widget : bool;
  li_isLegendItem : bool;
  li_hasManager : bool;
  li_margin : Z;
  li_identifierWidth : Z;
  li_spacing : Z
}.

(** The layout of the legend's contents widget.  [columnsForWidth] and
    [layoutItems] are QwtDynGridLayout's. *)
Record LegendLayout := {
  isDynGridLayout : bool;
  columnsForWidth : Q -> Z;
  layoutItems : QRect -> Z -> list QRect;
  layoutChildren : list LegendLayoutItem
}.

Record QwtLegend := {
  legendIsEmpty : bool;
  contentsLayout : option LegendLayout
}.

(** The rectangles the layout engine has computed (QwtPlotLayout). *)
Record QwtPlotLayout := {
  titleRect : QRectF;
  legendRect : QRectF;
  scaleRect : Z -> QRectF;
  canvasRect : QRectF;
  canvasMargin : Z -> Z
}.

(** The plot: what the printing code reads of it and writes to it.
    [axisWidget] has no entry where [axisWidget(axisId)] is null. *)
Record QwtPlot := {
  plotSize : QSize;
  logicalDpiX : Z;
  logicalDpiY : Z;
  titleIsEmpty : bool;
  legend : option QwtLegend;
  axisEnabled : Z -> bool;
  axisWidget : gmap Z QwtScaleWidget;
  axisTransformation : Z -> Transformation;
  axisScaleDiv : Z -> Q * Q;
  plotLayout : QwtPlotLayout
}.

Definition withAxisWidget (p : QwtPlot) (ws : gmap Z QwtScaleWidget)
  : QwtPlot :=
  {| plotSize := plotSize p; logicalDpiX := logicalDpiX p;
     logicalDpiY := logicalDpiY p; titleIsEmpty := titleIsEmpty p;
     legend := legend p; axisEnabled := axisEnabled p; axisWidget := ws;
     axisTransformation := axisTransformation p;
     axisScaleDiv := axisScaleDiv p; plotLayout := plotLayout p |}.

Definition withPlotLayout (p : QwtPlot) (l : QwtPlotLayout) : QwtPlot :=
  {| plotSize := plotSize p; logicalDpiX := logicalDpiX p;
     logicalDpiY := logicalDpiY p; titleIsEmpty := titleIsEmpty p;
     legend := legend p; axisEnabled := axisEnabled p;
     axisWidget := axisWidget p;
     axisTransformation := axisTransformation p;
     axisScaleDiv := axisScaleDiv p; plotLayout := l |}.

(** [QwtPlot::Axis]. *)
Definition yLeft : Z := 0.
Definition yRight : Z := 1.
Definition xBottom : Z := 2.
Definition xTop : Z := 3.
Definition axisCnt : Z := 4.

(** The painter handed to [print]. *)
Record QPainter := {
  isActive : bool;
  deviceDpiX : Z;
  deviceDpiY : Z;
  paintEngine : option PaintEngineType
}.

Record QwtScaleMap := {
  transformation : Transformation;
  s1 : Q; s2 : Q;
  p1 : Q; p2 : Q
}.

Definition setPaintInterval (m : QwtScaleMap) (a b : Q) : QwtScaleMap :=
  {| transformation := transformation m; s1 := s1 m; s2 := s2 m;
     p1 := a; p2 := b |}.

(** Modelled from the spec: the option flags of QwtPlotPrintFilter and of
    QwtPlotLayout (qwt_plot_printfilter.h and qwt_plot_layout.h are not part
    of the sources at hand), "bitmask, independently combinable": one bit
    each, numbered in the order of the headers. *)
Definition PrintMargin : Z := 1.
Definition PrintTitle : Z := 2.
Definition PrintLegend : Z := 4.
Definition PrintGrid : Z := 8.
Definition PrintBackground : Z := 16.
Definition PrintFrameWithScales : Z := 32.

Definition AlignScales : Z := 1.
Definition IgnoreScrollbars : Z := 2.
Definition IgnoreFrames : Z := 4.
Definition IgnoreMargin : Z := 8.
Definition IgnoreLegend : Z := 16.

(** [options & flag] as a condition. *)
Definition has (options flag : Z) : bool := negb (Z.land options flag =? 0).

(** The print filter: its options; [apply] and [reset] change colours and
    fonts, which the plot record does not carry, so they show as calls. *)
Record QwtPlotPrintFilter := { options : Z }.

(** ** Calls to the collaborators *)

Inductive Widget := TitleLabel | ScaleOf (axisId : Z) | LegendItemOf (i : nat).

Inductive Event :=
  (* QPainter and QwtPainter *)
  | PainterSave
  | PainterRestore
  | SetTransform (t : QTransform)
  | ResetTransform
  | SetFont (src : Widget)
  | SetPenColor (src : Widget)
  | SetPenWidth (w : Z)
  | SetPenBlack
  | SetNoBrush
  | SetClipping (on : bool)
  | SetClipRect (r : QRect)
  | FillRect (r : QRectF)
  | DrawRect (r : QRectF)
  (* QwtPlotPrintFilter *)
  | FilterApply (scaling : bool)
  | FilterReset
  (* QwtPlotLayout *)
  | LayoutActivate (r : QRectF) (layoutOptions : Z)
  | LayoutInvalidate
  (* the virtual print methods of the plot *)
  | PrintTitle_ (r : QRectF)
  | PrintLegend_ (r : QRectF)
  | PrintScale_ (axisId startDist endDist baseDist : Z) (r : QRectF)
  | PrintCanvas_ (r : QRectF) (map : list QwtScaleMap)
  (* the drawing methods of the widgets *)
  | DrawTitleText (r : QRectF)
  | DrawLegendIdentifier (i : nat) (r : QRect)
  | DrawLegendItemText (i : nat) (r : QRectF)
  | DrawColorBar (axisId : Z) (r : QRectF)
  | DrawScaleTitle (axisId : Z) (align : Alignment) (r : QRectF)
  | DrawScale (axisId : Z) (pos : QPointF) (len : Q)
  | DrawItems (r : QRectF) (map : list QwtScaleMap).

(** ** The monad: plot state, emitted calls, no result on a null pointer *)

Definition M (A : Type) : Type := QwtPlot -> option (A * QwtPlot * list Event).

Definition ret {A} (a : A) : M A := fun p => Some (a, p, []).

Definition bind {A B} (m : M A) (f : A -> M B) : M B :=
  fun p =>
    match m p with
    | None => None
    | Some (a, p1, l1) =>
        match f a p1 with
        | None => None
        | Some (b, p2, l2) => Some (b, p2, l1 ++ l2)
        end
    end.

Notation "'do' x <- m ; k" := (bind m (fun x => k))
  (at level 10, x name, m at level 100, k at level 200,
   format "'[v' 'do'  x  <-  m ; '/' k ']'").
Notation "m ;;; k" := (bind m (fun _ => k))
  (at level 100, k at level 200, right associativity).

Definition emit (e : Event) : M unit := fun p => Some (tt, p, [e]).
Definition get : M QwtPlot := fun p => Some (p, p, []).
Definition put (p : QwtPlot) : M unit := fun _ => Some (tt, p, []).

(** A pointer that is dereferenced. *)
Definition deref {A} (ptr : option A) : M A :=
  match ptr with
  | Some a => ret a
  | None => fun _ => None
  end.

Definition when (b : bool) (m : M unit) : M unit := if b then m else ret tt.

(** [for (axisId = 0; axisId < axisCnt; axisId++)]. *)
Fixpoint for_ (ids : list Z) (body : Z -> M unit) : M unit :=
  match ids with
  | [] => ret tt
  | i :: ids' => body i ;;; for_ ids' body
  end.

Fixpoint mapM {A} (ids : list Z) (body : Z -> M A) : M (list A) :=
  match ids with
  | [] => ret []
  | i :: ids' => do a <- body i; do l <- mapM ids' body; ret (a :: l)
  end.

Definition axisIds : list Z := seqZ 0 axisCnt.

(** A method of the scale widget of an axis that changes the widget. *)
Definition updateWidget (axisId : Z) (f : QwtScaleWidget -> QwtScaleWidget)
  : M unit :=
  do p <- get;
  do w <- deref (axisWidget p !! axisId);
  put (withAxisWidget p (<[axisId := f w]> (axisWidget p))).

Definition updateScaleDraw (axisId : Z) (f : QwtScaleDraw -> QwtScaleDraw)
  : M unit :=
  updateWidget axisId (fun w => setScaleDraw w (f (scaleDraw w))).

Definition getScaleDraw (axisId : Z) : M QwtScaleDraw :=
  do p <- get;
  do w <- deref (axisWidget p !! axisId);
  ret (scaleDraw w).

(** ** qwt_plot_print.cpp *)

(** Lines 41 to 47 of [print(QPaintDevice &, ...)]: the rectangle printed
    into, from the width and the height of the device. *)
Definition paintDeviceRect (w h : Z) : QRect :=
  let rect := {| ix := 0; iy := 0; iwidth := w; iheight := h |} in
  let aspect :=
    Double.div (Double.of_int (iwidth rect)) (Double.of_int (iheight rect)) in
  if Double.ltb aspect Double.one then
    QRect_setHeight rect
      (Double.to_int (Double.mul aspect (Double.of_int (iwidth rect))))
  else rect.

(** [QwtPlot::printTitle]. *)
Definition printTitle (rect : QRectF) : M unit :=
  emit (PrintTitle_ rect) ;;;
  emit (SetFont TitleLabel) ;;;
  emit (SetPenColor TitleLabel) ;;;
  emit (DrawTitleText rect).

(** [QwtPlot::printLegendItem]; [i] identifies the widget [w]. *)
Definition printLegendItem (i : nat) (w : LegendLayoutItem) (rect : QRectF)
  : M unit :=
  if li_isLegendItem w then
    let identifierRect :=
      {| ix := d2i (rx rect + inject_Z (li_margin w))%Q;
         iy := d2i (ry rect);
         iwidth := li_identifierWidth w;
         iheight := d2i (rheight rect) |} in
    do p <- get;
    do lg <- deref (legend p);
    when (li_hasManager w)
      (emit PainterSave ;;;
       emit (DrawLegendIdentifier i identifierRect) ;;;
       emit PainterRestore) ;;;
    let titleRect :=
      setX rect (inject_Z (QRect_right identifierRect + 2 * li_spacing w)) in
    emit (SetFont (LegendItemOf i)) ;;;
    emit (DrawLegendItemText i titleRect)
  else ret tt.

(** The loop of [printLegend] over the children [i, i+1, ...] of the layout;
    [index] counts the children that have a widget. *)
Fixpoint printLegendItems (items : list LegendLayoutItem) (i index : nat)
    (itemRects : list QRect) : M unit :=
  match items with
  | [] => ret tt
  | item :: items' =>
      if li_widget item then
        emit PainterSave ;;;
        emit (SetClipping true) ;;;
        do r <- deref (itemRects !! index);
        emit (SetClipRect r) ;;;
        printLegendItem i item (toRectF r) ;;;
        emit PainterRestore ;;;
        printLegendItems items' (S i) (S index) itemRects
      else printLegendItems items' (S i) index itemRects
  end.

(** [QwtPlot::printLegend]. *)
Definition printLegend (rect : QRectF) : M unit :=
  emit (PrintLegend_ rect) ;;;
  do p <- get;
  match legend p with
  | None => ret tt
  | Some lg =>
      if legendIsEmpty lg then ret tt else
      match contentsLayout lg with
      | None => ret tt
      | Some l =>
          if negb (isDynGridLayout l) then ret tt else
          let numCols := columnsForWidth l (rwidth rect) in
          let itemRects := layoutItems l (toRect rect) numCols in
          printLegendItems (layoutChildren l) 0 0 itemRects
      end
  end.

(** The [switch] of [printScale]: position, length and alignment of the
    scale, [None] in the default case. *)
Definition scaleGeometry (axisId startDist endDist baseDist : Z)
    (rect : QRectF) : option (Z * Z * Z * Alignment) :=
  if axisId =? yLeft then
    Some (d2i (right rect - 1 - inject_Z baseDist)%Q,
          d2i (ry rect + inject_Z startDist)%Q,
          d2i (rheight rect - inject_Z startDist - inject_Z endDist)%Q,
          LeftScale)
  else if axisId =? yRight then
    Some (d2i (left rect + inject_Z baseDist)%Q,
          d2i (ry rect + inject_Z startDist)%Q,
          d2i (rheight rect - inject_Z startDist - inject_Z endDist)%Q,
          RightScale)
  else if axisId =? xTop then
    Some (d2i (left rect + inject_Z startDist)%Q,
          d2i (bottom rect - inject_Z baseDist)%Q,
          d2i (rwidth rect - inject_Z startDist - inject_Z endDist)%Q,
          TopScale)
  else if axisId =? xBottom then
    Some (d2i (left rect + inject_Z startDist)%Q,
          d2i (top rect + inject_Z baseDist)%Q,
          d2i (rwidth rect - inject_Z startDist - inject_Z endDist)%Q,
          BottomScale)
  else None.

Definition Orientation_eqb (a b : Orientation) : bool :=
  match a, b with
  | Horizontal, Horizontal | Vertical, Vertical => true
  | _, _ => false
  end.

(** [QwtPlot::printScale]. *)
Definition printScale (axisId startDist endDist baseDist : Z) (rect : QRectF)
  : M unit :=
  emit (PrintScale_ axisId startDist endDist baseDist rect) ;;;
  do p <- get;
  if negb (axisEnabled p axisId) then ret tt else
  do scaleWidget <- deref (axisWidget p !! axisId);
  do baseDist <-
    (if isColorBarEnabled scaleWidget && (0 <? colorBarWidth scaleWidget)
     then
       let r := rect in
       let r := setWidth r (rwidth r - 1)%Q in
       let r := setHeight r (rheight r - 1)%Q in
       emit (DrawColorBar axisId r) ;;;
       let off := colorBarWidth scaleWidget + spacing scaleWidget in
       if Orientation_eqb (sd_orientation (scaleDraw scaleWidget)) Horizontal
       then ret (baseDist + off)
       else ret (baseDist + off)
     else ret baseDist);
  match scaleGeometry axisId startDist endDist baseDist rect with
  | None => ret tt
  | Some (x, y, w, align) =>
      emit (DrawScaleTitle axisId align rect) ;;;
      emit PainterSave ;;;
      emit (SetFont (ScaleOf axisId)) ;;;
      emit (SetPenWidth (penWidth scaleWidget)) ;;;
      let sd := scaleDraw scaleWidget in
      let sdPos := sd_pos sd in
      let sdLength := sd_length sd in
      updateScaleDraw axisId
        (fun sd => move sd {| px := inject_Z x; py := inject_Z y |}) ;;;
      updateScaleDraw axisId (fun sd => setLength sd (inject_Z w)) ;;;
      do sd' <- getScaleDraw axisId;
      emit (DrawScale axisId (sd_pos sd') (sd_length sd')) ;;;
      updateScaleDraw axisId (fun sd => move sd sdPos) ;;;
      updateScaleDraw axisId (fun sd => setLength sd sdLength) ;;;
      emit PainterRestore
  end.

(** [QwtPlot::printCanvas]. *)
Definition printCanvas (painter : QPainter) (canvasRect : QRectF)
    (map : list QwtScaleMap) (pfilter : QwtPlotPrintFilter) : M unit :=
  emit (PrintCanvas_ canvasRect map) ;;;
  when (has (options pfilter) PrintBackground)
    (let r := canvasRect in
     let r :=
       if negb (has (options pfilter) PrintFrameWithScales) then
         match paintEngine painter with
         | Some Raster | Some X11 => r
         | Some OtherEngine =>
             let r := setWidth r (rwidth r - 1)%Q in
             setHeight r (rheight r - 1)%Q
         | None => r
         end
       else r in
     emit (FillRect r)) ;;;
  when (has (options pfilter) PrintFrameWithScales)
    (emit PainterSave ;;;
     emit SetPenBlack ;;;
     emit SetNoBrush ;;;
     emit (DrawRect canvasRect) ;;;
     emit PainterRestore) ;;;
  emit (SetClipping true) ;;;
  emit (SetClipRect (toRect canvasRect)) ;;;
  emit (DrawItems canvasRect map).

(** The layout engine of the plot (QwtPlotLayout): [activate] computes the
    rectangles from the plot, the rectangle to lay out and the options;
    [invalidate] drops them. *)
Record LayoutEngine := {
  activate : QwtPlot -> QRectF -> Z -> QwtPlotLayout;
  invalidate : QwtPlotLayout -> QwtPlotLayout
}.

(** Lines 89 to 97 of [print]: the margins are kept in [baseLineDists] and
    set to 0. *)
Fixpoint saveMargins (ids : list Z) (baseLineDists : gmap Z Z)
  : M (gmap Z Z) :=
  match ids with
  | [] => ret baseLineDists
  | axisId :: ids' =>
      do p <- get;
      match axisWidget p !! axisId with
      | Some scaleWidget =>
          let baseLineDists := <[axisId := margin scaleWidget]> baseLineDists in
          updateWidget axisId (fun w => setMargin w 0) ;;;
          saveMargins ids' baseLineDists
      | None => saveMargins ids' baseLineDists
      end
  end.

(** Lines 223 to 228 of [print]; an entry of [baseLineDists] that was never
    written has no value. *)
Definition restoreMargin (baseLineDists : gmap Z Z) (axisId : Z) : M unit :=
  do p <- get;
  match axisWidget p !! axisId with
  | Some scaleWidget =>
      do d <- deref (baseLineDists !! axisId);
      updateWidget axisId (fun w => setMargin w d)
  | None => ret tt
  end.

Definition restoreMargins (baseLineDists : gmap Z Z) : M unit :=
  for_ axisIds (restoreMargin baseLineDists).

(** Lines 101 to 106 of [print]. *)
Definition layoutOptionsOf (pfilter : QwtPlotPrintFilter) : Z :=
  let layoutOptions := Z.lor IgnoreScrollbars IgnoreFrames in
  let layoutOptions :=
    if negb (has (options pfilter) PrintMargin)
    then Z.lor layoutOptions IgnoreMargin else layoutOptions in
  let layoutOptions :=
    if negb (has (options pfilter) PrintLegend)
    then Z.lor layoutOptions IgnoreLegend else layoutOptions in
  layoutOptions.

(** Lines 126 to 139 of [print]. *)
Definition printAxisScale (axisId : Z) : M unit :=
  do p <- get;
  match axisWidget p !! axisId with
  | Some scaleWidget =>
      let baseDist := margin scaleWidget in
      let '(startDist, endDist) := borderDistHint scaleWidget in
      printScale axisId startDist endDist baseDist
        (scaleRect (plotLayout p) axisId)
  | None => ret tt
  end.

Definition printScales : M unit := for_ axisIds printAxisScale.

(** Lines 152 to 183 of [print]: the paint interval of an axis. *)
Definition paintInterval (canvasRect : QRectF) (axisId : Z) : M (Q * Q) :=
  do p <- get;
  if axisEnabled p axisId then
    do w <- deref (axisWidget p !! axisId);
    let sDist := startBorderDist w in
    let eDist := endBorderDist w in
    let scaleRect := scaleRect (plotLayout p) axisId in
    if (axisId =? xTop) || (axisId =? xBottom) then
      ret ((left scaleRect + inject_Z sDist)%Q,
           (right scaleRect - inject_Z eDist)%Q)
    else
      ret ((bottom scaleRect - inject_Z eDist)%Q,
           (top scaleRect + inject_Z sDist)%Q)
  else
    let margin := canvasMargin (plotLayout p) axisId in
    if (axisId =? yLeft) || (axisId =? yRight) then
      ret ((bottom canvasRect - 1 - inject_Z margin)%Q,
           (top canvasRect + inject_Z margin)%Q)
    else
      ret ((left canvasRect + inject_Z margin)%Q,
           (right canvasRect - 1 - inject_Z margin)%Q).

(** Lines 143 to 185 of [print]: the map of an axis.  Modelled from the
    spec: QwtScaleMap (qwt_scale_map.cpp is not part of the sources at hand),
    "a pair (data-interval, pixel-interval) plus a transformation kind". *)
Definition buildMap (canvasRect : QRectF) (axisId : Z) : M QwtScaleMap :=
  do p <- get;
  let '(lowerBound, upperBound) := axisScaleDiv p axisId in
  do iv <- paintInterval canvasRect axisId;
  ret {| transformation := axisTransformation p axisId;
         s1 := lowerBound; s2 := upperBound;
         p1 := fst iv; p2 := snd iv |}.

(** Lines 196 to 210 of [print]. *)
Definition rescaleMap (transform : QTransform) (axisId : Z) (m : QwtScaleMap)
  : QwtScaleMap :=
  if (axisId =? xTop) || (axisId =? xBottom) then
    setPaintInterval m (p1 m * m11 transform)%Q (p2 m * m11 transform)%Q
  else
    setPaintInterval m (p1 m * m22 transform)%Q (p2 m * m22 transform)%Q.

Definition rescaleMaps (transform : QTransform) (map : list QwtScaleMap)
  : list QwtScaleMap :=
  zip_with (rescaleMap transform) axisIds map.

(** Lines 77 to 80 of [print]: the ratios of the DPI values of the device
    and of the widget, which are positive numbers. *)
Definition printTransform (painter : QPainter) (p : QwtPlot) : QTransform :=
  scale QTransform_identity
    (inject_Z (deviceDpiX painter) / inject_Z (logicalDpiX p))%Q
    (inject_Z (deviceDpiY painter) / inject_Z (logicalDpiY p))%Q.

(** [QwtPlot::print(QPainter *, const QRectF &, const QwtPlotPrintFilter &)]. *)
Definition print (engine : LayoutEngine) (painter : option QPainter)
    (plotRect : QRectF) (pfilter : QwtPlotPrintFilter) : M unit :=
  do p <- get;
  match painter with
  | None => ret tt
  | Some painter =>
      if negb (isActive painter) || negb (isValid plotRect)
         || QSize_isNull (plotSize p)
      then ret tt else
      let transform := printTransform painter p in
      emit PainterSave ;;;
      emit (FilterApply (isScaling transform)) ;;;
      do baseLineDists <-
        (if has (options pfilter) PrintFrameWithScales
         then saveMargins axisIds ∅ else ret ∅);
      let layoutOptions := layoutOptionsOf pfilter in
      let layoutRect := mapRect (inverted transform) plotRect in
      do p <- get;
      put (withPlotLayout p (activate engine p layoutRect layoutOptions)) ;;;
      emit (LayoutActivate layoutRect layoutOptions) ;;;
      emit (SetTransform transform) ;;;
      do p <- get;
      when (has (options pfilter) PrintTitle && negb (titleIsEmpty p))
        (printTitle (titleRect (plotLayout p))) ;;;
      when (has (options pfilter) PrintLegend
            && match legend p with
               | Some lg => negb (legendIsEmpty lg)
               | None => false
               end)
        (printLegend (legendRect (plotLayout p))) ;;;
      printScales ;;;
      do p <- get;
      let canvasRect := canvasRect (plotLayout p) in
      do map <- mapM axisIds (buildMap canvasRect);
      emit ResetTransform ;;;
      let canvasRect := mapRect transform canvasRect in
      let map := rescaleMaps transform map in
      printCanvas painter canvasRect map pfilter ;;;
      do p <- get;
      put (withPlotLayout p (invalidate engine (plotLayout p))) ;;;
      emit LayoutInvalidate ;;;
      when (has (options pfilter) PrintFrameWithScales)
        (restoreMargins baseLineDists) ;;;
      emit FilterReset ;;;
      emit PainterRestore
  end.

(** The paint device of the first overload: its extent and the painter
    [QPainter p(&paintDev)] opened on it. *)
Record QPaintDevice := {
  dev_width : Z;
  dev_height : Z;
  dev_painter : QPainter
}.

(** [QwtPlot::print(QPaintDevice &, const QwtPlotPrintFilter &)]. *)
Definition printDevice (engine : LayoutEngine) (paintDev : QPaintDevice)
    (pfilter : QwtPlotPrintFilter) : M unit :=
  let w := dev_width paintDev in
  let h := dev_height paintDev in
  let rect := paintDeviceRect w h in
  print engine (Some (dev_painter paintDev)) (toRectF rect) pfilter.

(** The variant of [printScale] in the words of the specification: with a
    colour bar, "its rendered width plus spacing is added to the base offset"
    whatever the orientation of the scale. *)
Definition printScale_unconditional (axisId startDist endDist baseDist : Z)
    (rect : QRectF) : M unit :=
  emit (PrintScale_ axisId startDist endDist baseDist rect) ;;;
  do p <- get;
  if negb (axisEnabled p axisId) then ret tt else
  do scaleWidget <- deref (axisWidget p !! axisId);
  do baseDist <-
    (if isColorBarEnabled scaleWidget && (0 <? colorBarWidth scaleWidget)
     then
       let r := rect in
       let r := setWidth r (rwidth r - 1)%Q in
       let r := setHeight r (rheight r - 1)%Q in
       emit (DrawColorBar axisId r) ;;;
       ret (baseDist + (colorBarWidth scaleWidget + spacing scaleWidget))
     else ret baseDist);
  match scaleGeometry axisId startDist endDist baseDist rect with
  | None => ret tt
  | Some (x, y, w, align) =>
      emit (DrawScaleTitle axisId align rect) ;;;
      emit PainterSave ;;;
      emit (SetFont (ScaleOf axisId)) ;;;
      emit (SetPenWidth (penWidth scaleWidget)) ;;;
      let sd := scaleDraw scaleWidget in
      let sdPos := sd_pos sd in
      let sdLength := sd_length sd in
      updateScaleDraw axisId
        (fun sd => move sd {| px := inject_Z x; py := inject_Z y |}) ;;;
      updateScaleDraw axisId (fun sd => setLength sd (inject_Z w)) ;;;
      do sd' <- getScaleDraw axisId;
      emit (DrawScale axisId (sd_pos sd') (sd_length sd')) ;;;
      updateScaleDraw axisId (fun sd => move sd sdPos) ;;;
      updateScaleDraw axisId (fun sd => setLength sd sdLength) ;;;
      emit PainterRestore
  end.

(** The position and the length of the scale draw of an axis. *)
Definition scaleDrawPos (p : QwtPlot) (axisId : Z) : option QPointF :=
  (fun w => sd_pos (scaleDraw w)) <$> axisWidget p !! axisId.

Definition scaleDrawLength (p : QwtPlot) (axisId : Z) : option Q :=
  (fun w => sd_length (scaleDraw w)) <$> axisWidget p !! axisId.

(** No null pointer is dereferenced for an axis: an enabled axis has its
    scale widget. *)
Definition axisOk (p : QwtPlot) (axisId : Z) : Prop :=
  axisEnabled p axisId = true -> is_Some (axisWidget p !! axisId).

(** ** Definitions used to state the properties *)

(** The calls of [printScale] once the scale is known to be drawn. *)
Definition scaleEvents (axisId x y w : Z) (align : Alignment) (rect : QRectF)
    (scaleWidget : QwtScaleWidget) : list Event :=
  [ DrawScaleTitle axisId align rect; PainterSave; SetFont (ScaleOf axisId);
    SetPenWidth (penWidth scaleWidget);
    DrawScale axisId {| px := inject_Z x; py := inject_Z y |} (inject_Z w);
    PainterRestore ].

(** The calls of [printScale], read off the plot. *)
Definition colorBarShown (w : QwtScaleWidget) : bool :=
  isColorBarEnabled w && (0 <? colorBarWidth w).

Definition printScaleEvents (p : QwtPlot)
    (axisId startDist endDist baseDist : Z) (rect : QRectF) : list Event :=
  PrintScale_ axisId startDist endDist baseDist rect ::
  if negb (axisEnabled p axisId) then [] else
  match axisWidget p !! axisId with
  | None => []
  | Some w =>
      (if colorBarShown w
       then [DrawColorBar axisId
               (setHeight (setWidth rect (rwidth rect - 1)%Q)
                  (rheight rect - 1)%Q)]
       else []) ++
      match scaleGeometry axisId startDist endDist
              (if colorBarShown w
               then baseDist + (colorBarWidth w + spacing w) else baseDist)
              rect with
      | None => []
      | Some (x, y, len, align) => scaleEvents axisId x y len align rect w
      end
  end.

(** The calls and the result of a computation started on a plot. *)
Definition callsOf {A} (m : M A) (p : QwtPlot) : list Event :=
  match m p with
  | Some (_, _, l) => l
  | None => []
  end.

Definition resultOf {A} (m : M A) (p : QwtPlot) : option A :=
  match m p with
  | Some (a, _, _) => Some a
  | None => None
  end.

(** The calls made for one item of the legend, apart from [printLegend]
    itself. *)
Definition isLegendItemCall (e : Event) : bool :=
  match e with
  | PainterSave | PainterRestore | SetClipping _ | SetClipRect _
  | SetFont _ | DrawLegendIdentifier _ _ | DrawLegendItemText _ _ => true
  | _ => false
  end.

Definition widgetCount (items : list LegendLayoutItem) : nat :=
  length (filter (fun item => li_widget item = true) items).

(** No missing item rectangle in [printLegend] for the rectangle [rect]: when
    the loop is reached (a legend that is not empty, with a QwtDynGridLayout,
    lines 263 and 267), the one call of [layoutItems] (lines 272 to 274)
    gives a rectangle for every child that has a widget, so that
    [itemRects[index]] exists. *)
Definition legendOk (rect : QRectF) (p : QwtPlot) : Prop :=
  forall lg l,
    legend p = Some lg -> legendIsEmpty lg = false ->
    contentsLayout lg = Some l -> isDynGridLayout l = true ->
    (widgetCount (layoutChildren l)
     <= length (layoutItems l (toRect rect)
                  (columnsForWidth l (rwidth rect))))%nat.

(** The scale widgets once the margins of the axes [ids] are set to 0. *)
Definition zeroMarginsOn (ids : list Z) (ws : gmap Z QwtScaleWidget)
  : gmap Z QwtScaleWidget :=
  foldr (fun axisId ws => alter (fun w => setMargin w 0) axisId ws) ws ids.

(** The plot as it is laid out and drawn by [print]: with the option
    PrintFrameWithScales the margins of the four axes are 0. *)
Definition plotWhilePrinting (pfilter : QwtPlotPrintFilter) (p : QwtPlot)
  : QwtPlot :=
  if has (options pfilter) PrintFrameWithScales
  then withAxisWidget p (zeroMarginsOn axisIds (axisWidget p))
  else p.

(** A call of [print] that passes the test of lines 68 and 69. *)
Definition validCall (painter : QPainter) (plotRect : QRectF) (p : QwtPlot)
  : bool :=
  isActive painter && isValid plotRect && negb (QSize_isNull (plotSize p)).

(** The rectangle handed to the layout engine, and the plot once the layout
    is activated: the state in which the title, the legend, the scales and
    the canvas are printed. *)
Definition printLayoutRect (painter : QPainter) (plotRect : QRectF)
    (p : QwtPlot) : QRectF :=
  mapRect (inverted (printTransform painter p)) plotRect.

Definition laidOut (engine : LayoutEngine) (painter : QPainter)
    (plotRect : QRectF) (pfilter : QwtPlotPrintFilter) (p : QwtPlot)
  : QwtPlot :=
  let pz := plotWhilePrinting pfilter p in
  withPlotLayout pz
    (activate engine pz (printLayoutRect painter plotRect p)
       (layoutOptionsOf pfilter)).

(** No missing item rectangle in the call of [printLegend] that [print]
    makes on the laid out plot [pl] (lines 120 to 124). *)
Definition legendCallOk (pfilter : QwtPlotPrintFilter) (pl : QwtPlot) : Prop :=
  has (options pfilter) PrintLegend = true ->
  legendOk (legendRect (plotLayout pl)) pl.

(** No null pointer and no missing item rectangle in this call of [print]:
    nothing is asked of a call that returns at line 70; otherwise every
    enabled axis has its scale widget (lines 155 and 156) and, with the
    option PrintLegend, the legend has its item rectangles for the rectangle
    of the layout activated for the call. *)
Definition printable (engine : LayoutEngine) (painter : QPainter)
    (plotRect : QRectF) (pfilter : QwtPlotPrintFilter) (p : QwtPlot) : Prop :=
  validCall painter plotRect p = true ->
  (forall axisId, axisId ∈ axisIds -> axisOk p axisId)
  /\ (has (options pfilter) PrintLegend = true ->
      legendOk
        (legendRect (plotLayout (laidOut engine painter plotRect pfilter p)))
        p).

(** The conditions of lines 114 and 120 of [print]. *)
Definition titlePrinted (pfilter : QwtPlotPrintFilter) (p : QwtPlot) : bool :=
  has (options pfilter) PrintTitle && negb (titleIsEmpty p).

Definition legendPrinted (pfilter : QwtPlotPrintFilter) (p : QwtPlot) : bool :=
  has (options pfilter) PrintLegend
  && match legend p with
     | Some lg => negb (legendIsEmpty lg)
     | None => false
     end.

(** The calls of [printAxisScale]. *)
Definition axisScaleEvents (p : QwtPlot) (axisId : Z) : list Event :=
  match axisWidget p !! axisId with
  | Some w =>
      printScaleEvents p axisId (fst (borderDistHint w))
        (snd (borderDistHint w)) (margin w) (scaleRect (plotLayout p) axisId)
  | None => []
  end.

(** The map of an axis, as [buildMap] computes it without a null pointer. *)
Definition mapOf (canvasRect : QRectF) (p : QwtPlot) (axisId : Z)
  : QwtScaleMap :=
  default {| transformation := Linear; s1 := 0; s2 := 0; p1 := 0; p2 := 0 |}
    (resultOf (buildMap canvasRect axisId) p).

(** The maps of the four axes in layout coordinates (lines 143 to 185),
    computed on the plot [pl]. *)
Definition layoutMaps (pl : QwtPlot) : list QwtScaleMap :=
  map (mapOf (canvasRect (plotLayout pl)) pl) axisIds.

(** The calls of [printCanvas] between its first and its last three: the
    background and the frame. *)
Definition canvasDecoration (painter : QPainter) (canvasRect : QRectF)
    (pfilter : QwtPlotPrintFilter) : list Event :=
  (if has (options pfilter) PrintBackground then
     [ FillRect
         (if negb (has (options pfilter) PrintFrameWithScales) then
            match paintEngine painter with
            | Some OtherEngine =>
                setHeight (setWidth canvasRect (rwidth canvasRect - 1)%Q)
                  (rheight canvasRect - 1)%Q
            | _ => canvasRect
            end
          else canvasRect) ]
   else [])
  ++ (if has (options pfilter) PrintFrameWithScales then
        [ PainterSave; SetPenBlack; SetNoBrush; DrawRect canvasRect;
          PainterRestore ]
      else []).

(** The calls of a valid call of [print], piece by piece. *)
Definition titleCalls (pfilter : QwtPlotPrintFilter) (pl : QwtPlot)
  : list Event :=
  if titlePrinted pfilter pl then
    [ PrintTitle_ (titleRect (plotLayout pl)); SetFont TitleLabel;
      SetPenColor TitleLabel; DrawTitleText (titleRect (plotLayout pl)) ]
  else [].

Definition legendCalls (pfilter : QwtPlotPrintFilter) (pl : QwtPlot)
  : list Event :=
  callsOf (when (legendPrinted pfilter pl)
             (printLegend (legendRect (plotLayout pl)))) pl.

Definition scaleCalls (pl : QwtPlot) : list Event :=
  concat (map (axisScaleEvents pl) axisIds).

Definition canvasCalls (painter : QPainter) (transform : QTransform)
    (pfilter : QwtPlotPrintFilter) (pl : QwtPlot) : list Event :=
  let canvasRect := mapRect transform (canvasRect (plotLayout pl)) in
  let map := rescaleMaps transform (layoutMaps pl) in
  PrintCanvas_ canvasRect map
  :: canvasDecoration painter canvasRect pfilter
  ++ [ SetClipping true; SetClipRect (toRect canvasRect);
       DrawItems canvasRect map ].

Definition printCalls (engine : LayoutEngine) (painter : QPainter)
    (plotRect : QRectF) (pfilter : QwtPlotPrintFilter) (p : QwtPlot)
  : list Event :=
  let transform := printTransform painter p in
  let pl := laidOut engine painter plotRect pfilter p in
  [ PainterSave; FilterApply (isScaling transform);
    LayoutActivate (printLayoutRect painter plotRect p)
      (layoutOptionsOf pfilter);
    SetTransform transform ]
  ++ titleCalls pfilter pl
  ++ legendCalls pfilter pl
  ++ scaleCalls pl
  ++ [ ResetTransform ]
  ++ canvasCalls painter transform pfilter pl
  ++ [ LayoutInvalidate; FilterReset; PainterRestore ].

(** The plot after a valid call of [print]. *)
Definition printedPlot (engine : LayoutEngine) (painter : QPainter)
    (plotRect : QRectF) (pfilter : QwtPlotPrintFilter) (p : QwtPlot)
  : QwtPlot :=
  withPlotLayout p
    (invalidate engine
       (plotLayout (laidOut engine painter plotRect pfilter p))).

(** What the calls of a log say: the layout activations, the canvas prints,
    the base distances handed to [printScale], and the regions drawn.  A
    region counts as drawn when its drawing call is made, not when the
    method that prints it is entered: the text of the title, the label of an
    item of the legend (once for every item), the scale draw of a scale, the
    items of the canvas. *)
Definition layoutActivation (e : Event) : option (QRectF * Z) :=
  match e with
  | LayoutActivate r o => Some (r, o)
  | _ => None
  end.

Definition canvasPrinted (e : Event) : option (QRectF * list QwtScaleMap) :=
  match e with
  | PrintCanvas_ r map => Some (r, map)
  | _ => None
  end.

Definition scaleBaseDist (e : Event) : option (Z * Z) :=
  match e with
  | PrintScale_ axisId _ _ baseDist _ => Some (axisId, baseDist)
  | _ => None
  end.

Inductive Region :=
  | TitleRegion
  | LegendRegion
  | ScaleRegion (axisId : Z)
  | CanvasRegion.

Definition regionOf (e : Event) : option Region :=
  match e with
  | DrawTitleText _ => Some TitleRegion
  | DrawLegendItemText _ _ => Some LegendRegion
  | DrawScale axisId _ _ => Some (ScaleRegion axisId)
  | DrawItems _ _ => Some CanvasRegion
  | _ => None
  end.

(** The items of the legend that [printLegend] draws: the children of the
    QwtDynGridLayout of a legend that is not empty whose widget is a
    QwtLegendItem (lines 263 to 282 and line 307). *)
Definition legendItemCount (items : list LegendLayoutItem) : nat :=
  length (List.filter (fun item => li_widget item && li_isLegendItem item)
            items).

Definition legendItemsDrawn (p : QwtPlot) : nat :=
  match legend p with
  | None => 0%nat
  | Some lg =>
      if legendIsEmpty lg then 0%nat else
      match contentsLayout lg with
      | None => 0%nat
      | Some l =>
          if isDynGridLayout l then legendItemCount (layoutChildren l)
          else 0%nat
      end
  end.

Definition regionsDrawn (evs : list Event) : list Region := omap regionOf evs.

(** The factor of the transform that belongs to an axis: X for the top and
    the bottom axis, Y for the left and the right one. *)
Definition axisFactor (transform : QTransform) (axisId : Z) : Q :=
  if (axisId =? xTop) || (axisId =? xBottom) then m11 transform
  else m22 transform.

(** The calls that the properties below are about; the other calls set up
    the painter or draw a part of a region. *)
Definition outline (e : Event) : bool :=
  match e with
  | LayoutActivate _ _ | PrintTitle_ _ | PrintLegend_ _
  | PrintScale_ _ _ _ _ _ | DrawScale _ _ _ | PrintCanvas_ _ _ => true
  | _ => false
  end.

(** The outline of the calls made for the scale of an axis. *)
Definition scaleOutline (pl : QwtPlot) (axisId : Z) : list Event :=
  match axisWidget pl !! axisId with
  | None => []
  | Some w =>
      let startDist := fst (borderDistHint w) in
      let endDist := snd (borderDistHint w) in
      let rect := scaleRect (plotLayout pl) axisId in
      PrintScale_ axisId startDist endDist (margin w) rect ::
      if axisEnabled pl axisId then
        match scaleGeometry axisId startDist endDist
                (if colorBarShown w
                 then margin w + (colorBarWidth w + spacing w) else margin w)
                rect with
        | Some (x, y, len, _) =>
            [ DrawScale axisId {| px := inject_Z x; py := inject_Z y |}
                (inject_Z len) ]
        | None => []
        end
      else []
  end.

(** The outline of a valid call of [print]. *)
Definition printOutline (engine : LayoutEngine) (painter : QPainter)
    (plotRect : QRectF) (pfilter : QwtPlotPrintFilter) (p : QwtPlot)
  : list Event :=
  let transform := printTransform painter p in
  let pl := laidOut engine painter plotRect pfilter p in
  [ LayoutActivate (printLayoutRect painter plotRect p)
      (layoutOptionsOf pfilter) ]
  ++ (if titlePrinted pfilter pl
      then [ PrintTitle_ (titleRect (plotLayout pl)) ] else [])
  ++ (if legendPrinted pfilter pl
      then [ PrintLegend_ (legendRect (plotLayout pl)) ] else [])
  ++ concat (map (scaleOutline pl) axisIds)
  ++ [ PrintCanvas_ (mapRect transform (canvasRect (plotLayout pl)))
         (rescaleMaps transform (layoutMaps pl)) ].

(** The scales that [print] draws: those of the enabled axes. *)
Definition scalesOfEnabledAxes (p : QwtPlot) : list Region :=
  omap (fun a => if axisEnabled p a then Some (ScaleRegion a) else None)
    axisIds.

(** ** The painter, as far as the calls change it

    What the calls of a log do to a QPainter: [save] pushes the state,
    [restore] pops it (and has no result on an empty stack), the setters
    change the current state, the drawing calls leave it as it is.  The pen
    is known by the calls that made it. *)

Record PainterState := {
  ps_transform : QTransform;
  ps_clipping : bool;
  ps_clipRect : option QRect;
  ps_font : option Widget;
  ps_pen : list Event;
  ps_brush : bool
}.

Record Painting := {
  now : PainterState;
  saved : list PainterState
}.

Definition setter (e : Event) (s : PainterState) : PainterState :=
  match e with
  | SetTransform t =>
      {| ps_transform := t; ps_clipping := ps_clipping s;
         ps_clipRect := ps_clipRect s; ps_font := ps_font s;
         ps_pen := ps_pen s; ps_brush := ps_brush s |}
  | ResetTransform =>
      {| ps_transform := QTransform_identity; ps_clipping := ps_clipping s;
         ps_clipRect := ps_clipRect s; ps_font := ps_font s;
         ps_pen := ps_pen s; ps_brush := ps_brush s |}
  | SetFont w =>
      {| ps_transform := ps_transform s; ps_clipping := ps_clipping s;
         ps_clipRect := ps_clipRect s; ps_font := Some w;
         ps_pen := ps_pen s; ps_brush := ps_brush s |}
  | SetPenColor _ | SetPenWidth _ | SetPenBlack =>
      {| ps_transform := ps_transform s; ps_clipping := ps_clipping s;
         ps_clipRect := ps_clipRect s; ps_font := ps_font s;
         ps_pen := e :: ps_pen s; ps_brush := ps_brush s |}
  | SetNoBrush =>
      {| ps_transform := ps_transform s; ps_clipping := ps_clipping s;
         ps_clipRect := ps_clipRect s; ps_font := ps_font s;
         ps_pen := ps_pen s; ps_brush := false |}
  | SetClipping on =>
      {| ps_transform := ps_transform s; ps_clipping := on;
         ps_clipRect := ps_clipRect s; ps_font := ps_font s;
         ps_pen := ps_pen s; ps_brush := ps_brush s |}
  | SetClipRect r =>
      {| ps_transform := ps_transform s; ps_clipping := true;
         ps_clipRect := Some r; ps_font := ps_font s;
         ps_pen := ps_pen s; ps_brush := ps_brush s |}
  | _ => s
  end.

Definition paintStep (pt : Painting) (e : Event) : option Painting :=
  match e with
  | PainterSave => Some {| now := now pt; saved := now pt :: saved pt |}
  | PainterRestore =>
      match saved pt with
      | s :: stack => Some {| now := s; saved := stack |}
      | [] => None
      end
  | _ => Some {| now := setter e (now pt); saved := saved pt |}
  end.

Fixpoint paintRun (pt : Painting) (evs : list Event) : option Painting :=
  match evs with
  | [] => Some pt
  | e :: evs' =>
      match paintStep pt e with
      | Some pt' => paintRun pt' evs'
      | None => None
      end
  end.

(** Every call of a log with the transform of the painter at that call. *)
Fixpoint transformsAt (pt : Painting) (evs : list Event)
  : list (Event * QTransform) :=
  match evs with
  | [] => []
  | e :: evs' =>
      (e, ps_transform (now pt))
      :: transformsAt (default pt (paintStep pt e)) evs'
  end.

(** The calls that draw the title, the legend and the scales, and the calls
    that draw the canvas. *)
Definition isVectorDraw (e : Event) : bool :=
  match e with
  | DrawTitleText _ | DrawLegendIdentifier _ _ | DrawLegendItemText _ _
  | DrawColorBar _ _ | DrawScaleTitle _ _ _ | DrawScale _ _ _ => true
  | _ => false
  end.

Definition isCanvasDraw (e : Event) : bool :=
  match e with
  | FillRect _ | DrawRect _ | DrawItems _ _ => true
  | _ => false
  end.

(** The calls of [print] itself to the filter, the layout and the transform
    of the painter. *)
Definition isControl (e : Event) : bool :=
  match e with
  | FilterApply _ | FilterReset | LayoutActivate _ _ | LayoutInvalidate
  | SetTransform _ | ResetTransform => true
  | _ => false
  end.

(** The rectangles the painter is clipped to, and the calls of
    [drawItems]. *)
Definition clipRectOf (e : Event) : option QRect :=
  match e with SetClipRect r => Some r | _ => None end.

Definition drawItemsOf (e : Event)
  : option (QRectF * list QwtScaleMap) :=
  match e with DrawItems r map => Some (r, map) | _ => None end.

(** The depth of the stack of the painter along a log, counted from the
    depth [d] at its beginning; no depth when the log restores below its
    beginning. *)
Definition nesting (d : nat) (e : Event) : option nat :=
  match e with
  | PainterSave => Some (S d)
  | PainterRestore =>
      match d with
      | S d' => Some d'
      | O => None
      end
  | _ => Some d
  end.

Fixpoint depthAfter (d : nat) (evs : list Event) : option nat :=
  match evs with
  | [] => Some d
  | e :: evs' =>
      match nesting d e with
      | Some d' => depthAfter d' evs'
      | None => None
      end
  end.

(** The painter after a log, an unmatched [restore] doing nothing. *)
Definition paintAfter (pt : Painting) (evs : list Event) : Painting :=
  foldl (fun pt e => default pt (paintStep pt e)) pt evs.

(** The calls that may occur while the title, the legend and the scales are
    printed, and while the canvas is printed. *)
Definition vectorPiece (e : Event) : bool :=
  negb (isControl e) && negb (isCanvasDraw e).

Definition canvasPiece (e : Event) : bool :=
  negb (isControl e) && negb (isVectorDraw e).

(** The range of [int], and a quarter of it: numbers that small can be added
    and subtracted four at a time within the range of [int], where the
    conversion of a [double] to [int] is defined. *)
Definition isInt (z : Z) : bool := (- 2 ^ 31 <=? z) && (z <? 2 ^ 31).

Definition isSmall (z : Z) : bool := (- 2 ^ 29 <=? z) && (z <? 2 ^ 29).

(** The calls that change the state of the painter, and the depth of the
    stack along a log none of whose calls changes the state it began with:
    no depth when such a call is made at depth 0. *)
Definition isSetter (e : Event) : bool :=
  match e with
  | SetTransform _ | ResetTransform | SetFont _ | SetPenColor _
  | SetPenWidth _ | SetPenBlack | SetNoBrush | SetClipping _
  | SetClipRect _ => true
  | _ => false
  end.

Definition guarded (d : nat) (e : Event) : option nat :=
  if isSetter e && (d =? 0)%nat then None else nesting d e.

Fixpoint guardedAfter (d : nat) (evs : list Event) : option nat :=
  match evs with
  | [] => Some d
  | e :: evs' =>
      match guarded d e with
      | Some d' => guardedAfter d' evs'
      | None => None
      end
  end.

(** The rectangles handed to [printTitle] and to [printLegend], and the
    arguments of [printScale]. *)
Definition titleCallOf (e : Event) : option QRectF :=
  match e with PrintTitle_ r => Some r | _ => None end.

Definition legendCallOf (e : Event) : option QRectF :=
  match e with PrintLegend_ r => Some r | _ => None end.

Definition scaleCallOf (e : Event) : option (Z * Z * Z * Z * QRectF) :=
  match e with
  | PrintScale_ axisId startDist endDist baseDist rect =>
      Some (axisId, startDist, endDist, baseDist, rect)
  | _ => None
  end.

(** ** A plot, a painter and a layout engine to run the code on *)

Definition rectF (x y w h : Z) : QRectF :=
  {| rx := inject_Z x; ry := inject_Z y;
     rwidth := inject_Z w; rheight := inject_Z h |}.

Definition noLayout : QwtPlotLayout :=
  {| titleRect := rectF 0 0 0 0; legendRect := rectF 0 0 0 0;
     scaleRect := fun _ => rectF 0 0 0 0; canvasRect := rectF 0 0 0 0;
     canvasMargin := fun _ => 4 |}.

(** The engine puts the title on top, the legend at the bottom, the left
    scale in a column of width 40 and the bottom scale in a row of height 20;
    the rectangle of the right scale is lower than the border distances of
    the sample widget. *)
Definition sampleEngine : LayoutEngine :=
  {| activate := fun p r o =>
       {| titleRect := rectF 0 0 400 20;
          legendRect := rectF 0 280 400 20;
          scaleRect := fun a =>
            if a =? yLeft then rectF 0 20 40 240
            else if a =? yRight then rectF 400 20 40 5
            else rectF 40 260 360 20;
          canvasRect := rectF 40 20 360 240;
          canvasMargin := canvasMargin (plotLayout p) |};
     invalidate := fun _ => noLayout |}.

Definition sampleScaleDraw : QwtScaleDraw :=
  {| sd_pos := {| px := 0; py := 0 |}; sd_length := 100;
     sd_orientation := Vertical |}.

Definition sampleWidget : QwtScaleWidget :=
  {| margin := 4; borderDistHint := (3, 5);
     startBorderDist := 10; endBorderDist := 10;
     isColorBarEnabled := true; colorBarWidth := 10; spacing := 2;
     penWidth := 1; scaleDraw := sampleScaleDraw |}.

Definition sampleLegend : QwtLegend :=
  {| legendIsEmpty := false;
     contentsLayout :=
       Some {| isDynGridLayout := true;
               columnsForWidth := fun _ => 1;
               layoutItems := fun r _ =>
                 [ {| ix := ix r; iy := iy r; iwidth := iwidth r;
                      iheight := 10 |} ];
               layoutChildren :=
                 [ {| li_widget := true; li_isLegendItem := true;
                      li_hasManager := true; li_margin := 2;
                      li_identifierWidth := 8; li_spacing := 3 |} ] |} |}.

(** The left and the right axis are enabled, the bottom axis has a widget
    and is disabled, the top axis has no widget. *)
Definition samplePlot : QwtPlot :=
  {| plotSize := {| sz_width := 400; sz_height := 300 |};
     logicalDpiX := 96; logicalDpiY := 96;
     titleIsEmpty := false;
     legend := Some sampleLegend;
     axisEnabled := fun a => (a =? yLeft) || (a =? yRight);
     axisWidget :=
       {[ yLeft := sampleWidget; yRight := sampleWidget;
          xBottom := sampleWidget ]};
     axisTransformation := fun _ => Linear;
     axisScaleDiv := fun _ => (0, 1)%Q;
     plotLayout := noLayout |}.

Definition samplePainter : QPainter :=
  {| isActive := true; deviceDpiX := 192; deviceDpiY := 96;
     paintEngine := Some Raster |}.

Definition sampleRect : QRectF := rectF 0 0 800 300.

Definition noFlags : QwtPlotPrintFilter := {| options := 0 |}.

Definition frameWithScales : QwtPlotPrintFilter :=
  {| options := PrintFrameWithScales |}.

Definition titleAndLegend : QwtPlotPrintFilter :=
  {| options := Z.lor PrintTitle PrintLegend |}.

(** The rectangle of the label of a legend item (lines 311 to 326 of
    [printLegendItem]) and the calls made for the item. *)
Definition legendIdentifierRect (w : LegendLayoutItem) (rect : QRectF)
  : QRect :=
  {| ix := d2i (rx rect + inject_Z (li_margin w))%Q;
     iy := d2i (ry rect);
     iwidth := li_identifierWidth w;
     iheight := d2i (rheight rect) |}.

Definition legendLabelRect (w : LegendLayoutItem) (rect : QRectF) : QRectF :=
  setX rect
    (inject_Z
       (QRect_right (legendIdentifierRect w rect) + 2 * li_spacing w)).

Definition legendItemCalls (i : nat) (w : LegendLayoutItem) (rect : QRectF)
  : list Event :=
  if li_isLegendItem w then
    (if li_hasManager w
     then [ PainterSave;
            DrawLegendIdentifier i (legendIdentifierRect w rect);
            PainterRestore ]
     else [])
    ++ [ SetFont (LegendItemOf i);
         DrawLegendItemText i (legendLabelRect w rect) ]
  else [].

(** A plot with an enabled axis that is none of the four axes. *)
Definition strayAxisPlot : QwtPlot :=
  {| plotSize := {| sz_width := 400; sz_height := 300 |};
     logicalDpiX := 96; logicalDpiY := 96;
     titleIsEmpty := false;
     legend := None;
     axisEnabled := fun a => a =? 7;
     axisWidget := {[ 7 := sampleWidget ]};
     axisTransformation := fun _ => Linear;
     axisScaleDiv := fun _ => (0, 1)%Q;
     plotLayout := noLayout |}.

Definition sampleItem : LegendLayoutItem :=
  {| li_widget := true; li_isLegendItem := true; li_hasManager := true;
     li_margin := 2; li_identifierWidth := 8; li_spacing := 3 |}.

(** A painter in the state a plot widget leaves it in, with one state
    saved. *)
Definition samplePainting : Painting :=
  {| now := {| ps_transform := {| m11 := 3; m22 := 3 |}; ps_clipping := true;
               ps_clipRect :=
                 Some {| ix := 0; iy := 0; iwidth := 10; iheight := 10 |};
               ps_font := Some TitleLabel; ps_pen := [SetPenBlack];
               ps_brush := true |};
     saved := [ {| ps_transform := QTransform_identity; ps_clipping := false;
                   ps_clipRect := None; ps_font := None; ps_pen := [];
                   ps_brush := true |} ] |}.

(** The sample plot with the bottom axis enabled instead of the left and the
    right one. *)
Definition bottomAxisPlot : QwtPlot :=
  {| plotSize := plotSize samplePlot;
     logicalDpiX := 96; logicalDpiY := 96;
     titleIsEmpty := false;
     legend := Some sampleLegend;
     axisEnabled := fun a => a =? xBottom;
     axisWidget := axisWidget samplePlot;
     axisTransformation := fun a => if a =? xBottom then Log10 else Linear;
     axisScaleDiv := fun a => (1, inject_Z (10 + a))%Q;
     plotLayout := noLayout |}.

(** The sample plot with a legend whose layout has no rectangle for a
    layout of 0 columns, and 0 columns for a width that is not positive. *)
Definition sparseLegend : QwtLegend :=
  {| legendIsEmpty := false;
     contentsLayout :=
       Some {| isDynGridLayout := true;
               columnsForWidth := fun w => if Qle_bool w 0 then 0 else 1;
               layoutItems := fun r numCols =>
                 if numCols =? 0 then []
                 else [ {| ix := ix r; iy := iy r; iwidth := iwidth r;
                           iheight := 10 |} ];
               layoutChildren := [ sampleItem ] |} |}.

Definition sparseLegendPlot : QwtPlot :=
  {| plotSize := plotSize samplePlot;
     logicalDpiX := 96; logicalDpiY := 96;
     titleIsEmpty := false;
     legend := Some sparseLegend;
     axisEnabled := axisEnabled samplePlot;
     axisWidget := axisWidget samplePlot;
     axisTransformation := fun _ => Linear;
     axisScaleDiv := fun _ => (0, 1)%Q;
     plotLayout := noLayout |}.

(** * Properties *)

(** ** Running the monad *)

Section Run.

Context {A B : Type}.

Lemma bind_run (m : M A) (f : A -> M B) p a p1 l1 b p2 l2 l :
  m p = Some (a, p1, l1) ->
  f a p1 = Some (b, p2, l2) ->
  l = l1 ++ l2 ->
  bind m f p = Some (b, p2, l).
Proof. intros Hm Hf ->. unfold bind. by rewrite Hm, Hf. Qed.

End Run.

Lemma run_eq {A} (m : M A) p a p1 l1 r :
  m p = Some (a, p1, l1) -> Some (a, p1, l1) = r -> m p = r.
Proof. by intros -> <-. Qed.

Lemma withAxisWidget_id p : withAxisWidget p (axisWidget p) = p.
Proof. by destruct p. Qed.

Lemma updateWidget_run axisId f p w :
  axisWidget p !! axisId = Some w ->
  updateWidget axisId f p
  = Some (tt, withAxisWidget p (<[axisId := f w]> (axisWidget p)), []).
Proof. intros H. unfold updateWidget, bind, get, deref. by rewrite H. Qed.

Lemma updateScaleDraw_run axisId f p w :
  axisWidget p !! axisId = Some w ->
  updateScaleDraw axisId f p
  = Some (tt,
          withAxisWidget p
            (<[axisId := setScaleDraw w (f (scaleDraw w))]> (axisWidget p)),
          []).
Proof. intros H. unfold updateScaleDraw. by rewrite (updateWidget_run _ _ _ w). Qed.

Lemma getScaleDraw_run axisId p w :
  axisWidget p !! axisId = Some w ->
  getScaleDraw axisId p = Some (scaleDraw w, p, []).
Proof. intros H. unfold getScaleDraw, bind, get, deref. by rewrite H. Qed.

Lemma lookup_withAxisWidget p ws axisId w :
  axisWidget (withAxisWidget p (<[axisId := w]> ws)) !! axisId = Some w.
Proof. simpl. apply lookup_insert_eq. Qed.

(** One step of a sequence: the first computation, then the rest, then the
    calls of both. *)
Ltac run_with tac :=
  lazymatch goal with
  | |- bind _ _ _ = Some _ =>
      eapply bind_run; [ tac | run_with tac | try reflexivity ]
  | |- _ => tac
  end.

Ltac run_leaf :=
  first
    [ reflexivity
    | eapply updateScaleDraw_run; first [ eassumption | apply lookup_withAxisWidget ]
    | eapply getScaleDraw_run; first [ eassumption | apply lookup_withAxisWidget ] ].

Lemma drawScale_run axisId x y w align rect scaleWidget p :
  axisWidget p !! axisId = Some scaleWidget ->
  (emit (DrawScaleTitle axisId align rect) ;;;
   emit PainterSave ;;;
   emit (SetFont (ScaleOf axisId)) ;;;
   emit (SetPenWidth (penWidth scaleWidget)) ;;;
   let sd := scaleDraw scaleWidget in
   let sdPos := sd_pos sd in
   let sdLength := sd_length sd in
   updateScaleDraw axisId
     (fun sd => move sd {| px := inject_Z x; py := inject_Z y |}) ;;;
   updateScaleDraw axisId (fun sd => setLength sd (inject_Z w)) ;;;
   do sd' <- getScaleDraw axisId;
   emit (DrawScale axisId (sd_pos sd') (sd_length sd')) ;;;
   updateScaleDraw axisId (fun sd => move sd sdPos) ;;;
   updateScaleDraw axisId (fun sd => setLength sd sdLength) ;;;
   emit PainterRestore) p
  = Some (tt, p, scaleEvents axisId x y w align rect scaleWidget).
Proof.
  intros Hw. cbv zeta.
  eapply run_eq; [ run_with run_leaf | ].
  destruct scaleWidget as [? ? ? ? ? ? ? ? []].
  unfold setScaleDraw, setLength, move, withAxisWidget. cbn.
  rewrite !insert_insert_eq, insert_id by done.
  by destruct p.
Qed.

Lemma printScale_run axisId startDist endDist baseDist rect p :
  axisOk p axisId ->
  printScale axisId startDist endDist baseDist rect p
  = Some (tt, p, printScaleEvents p axisId startDist endDist baseDist rect).
Proof.
  intros Hok. unfold printScale, printScaleEvents.
  eapply bind_run; [reflexivity | | reflexivity].
  eapply bind_run; [reflexivity | | reflexivity].
  destruct (axisEnabled p axisId) eqn:Hen; cbn [negb]; [|reflexivity].
  destruct (Hok Hen) as [w Hw]. rewrite Hw. cbn [app].
  eapply bind_run; [reflexivity | | reflexivity].
  unfold colorBarShown.
  destruct (isColorBarEnabled w && (0 <? colorBarWidth w)).
  - destruct (Orientation_eqb _ _).
    all: eapply bind_run;
      [ eapply bind_run; [reflexivity | reflexivity | reflexivity] | | reflexivity ].
    all: destruct (scaleGeometry _ _ _ _ _) as [[[[x y] len] align]|];
      [ rewrite (drawScale_run _ _ _ _ _ _ _ _ Hw) | ]; reflexivity.
  - eapply bind_run; [reflexivity | | reflexivity].
    destruct (scaleGeometry _ _ _ _ _) as [[[[x y] len] align]|];
      [ rewrite (drawScale_run _ _ _ _ _ _ _ _ Hw) | ]; reflexivity.
Qed.

Lemma printScale_unconditional_run axisId startDist endDist baseDist rect p :
  axisOk p axisId ->
  printScale_unconditional axisId startDist endDist baseDist rect p
  = Some (tt, p, printScaleEvents p axisId startDist endDist baseDist rect).
Proof.
  intros Hok. unfold printScale_unconditional, printScaleEvents.
  eapply bind_run; [reflexivity | | reflexivity].
  eapply bind_run; [reflexivity | | reflexivity].
  destruct (axisEnabled p axisId) eqn:Hen; cbn [negb]; [|reflexivity].
  destruct (Hok Hen) as [w Hw]. rewrite Hw. cbn [app].
  eapply bind_run; [reflexivity | | reflexivity].
  unfold colorBarShown.
  destruct (isColorBarEnabled w && (0 <? colorBarWidth w)).
  - eapply bind_run;
      [ eapply bind_run; [reflexivity | reflexivity | reflexivity] | | reflexivity ].
    destruct (scaleGeometry _ _ _ _ _) as [[[[x y] len] align]|];
      [ rewrite (drawScale_run _ _ _ _ _ _ _ _ Hw) | ]; reflexivity.
  - eapply bind_run; [reflexivity | | reflexivity].
    destruct (scaleGeometry _ _ _ _ _) as [[[[x y] len] align]|];
      [ rewrite (drawScale_run _ _ _ _ _ _ _ _ Hw) | ]; reflexivity.
Qed.

(** Without the scale widget of an enabled axis there is no result. *)
Lemma printScale_null axisId startDist endDist baseDist rect p :
  axisEnabled p axisId = true -> axisWidget p !! axisId = None ->
  printScale axisId startDist endDist baseDist rect p = None
  /\ printScale_unconditional axisId startDist endDist baseDist rect p = None.
Proof.
  intros Hen Hw.
  unfold printScale, printScale_unconditional, bind, emit, get, deref.
  by rewrite Hen, Hw.
Qed.

Lemma resultOf_run {A} (m : M A) p a p' l :
  m p = Some (a, p', l) -> resultOf m p = Some a.
Proof. unfold resultOf. by intros ->. Qed.

(** *** The legend *)

Lemma printLegendItem_run i w rect p :
  is_Some (legend p) ->
  exists evs, printLegendItem i w rect p = Some (tt, p, evs)
              /\ forallb isLegendItemCall evs = true.
Proof.
  intros [lg Hlg]. unfold printLegendItem.
  destruct (li_isLegendItem w); [|by exists []].
  unfold bind, get, deref, when. rewrite Hlg. cbn.
  destruct (li_hasManager w); cbn; eauto.
Qed.

Lemma printLegendItems_run items : forall i index itemRects p,
  is_Some (legend p) ->
  (index + widgetCount items <= length itemRects)%nat ->
  exists evs, printLegendItems items i index itemRects p = Some (tt, p, evs)
              /\ forallb isLegendItemCall evs = true.
Proof.
  induction items as [|item items IH]; intros i index itemRects p Hlg Hlen.
  - by exists [].
  - unfold widgetCount in Hlen. rewrite filter_cons in Hlen. cbn [printLegendItems].
    destruct (li_widget item) eqn:Hw.
    + rewrite decide_True in Hlen by done. cbn [length] in Hlen.
      destruct (lookup_lt_is_Some_2 itemRects index) as [r Hr]; [lia|].
      destruct (printLegendItem_run i item (toRectF r) p Hlg) as (e1 & He1 & Hf1).
      destruct (IH (S i) (S index) itemRects p Hlg) as (e2 & He2 & Hf2).
      { unfold widgetCount. lia. }
      exists ([PainterSave; SetClipping true; SetClipRect r] ++ e1
              ++ [PainterRestore] ++ e2).
      split.
      * unfold bind, emit, deref, ret. rewrite Hr. cbn.
        rewrite He1. cbn. rewrite He2. reflexivity.
      * rewrite !forallb_app, Hf1, Hf2. reflexivity.
    + rewrite decide_False in Hlen by (by intros [=]).
      apply IH; [done|]. unfold widgetCount. lia.
Qed.

Lemma printLegend_run rect p :
  legendOk rect p ->
  exists evs, printLegend rect p = Some (tt, p, PrintLegend_ rect :: evs)
              /\ forallb isLegendItemCall evs = true.
Proof.
  intros Hok. unfold printLegend, bind, emit, get.
  destruct (legend p) as [lg|] eqn:Hlg; [|by exists []].
  destruct (legendIsEmpty lg) eqn:Hempty; [by exists []|].
  destruct (contentsLayout lg) as [l|] eqn:Hl; [|by exists []].
  destruct (isDynGridLayout l) eqn:Hgrid; cbn [negb]; [|by exists []].
  destruct (printLegendItems_run (layoutChildren l) 0 0
              (layoutItems l (toRect rect) (columnsForWidth l (rwidth rect))) p)
    as (evs & Hevs & Hf).
  { by rewrite Hlg. }
  { apply (Hok lg l Hlg Hempty Hl Hgrid). }
  exists evs. by rewrite Hevs.
Qed.

(** *** The margins *)

Lemma setMargin_setMargin w a b : setMargin (setMargin w a) b = setMargin w b.
Proof. reflexivity. Qed.

Lemma setMargin_margin w : setMargin w (margin w) = w.
Proof. by destruct w. Qed.

Lemma lookup_zeroMarginsOn ids ws k :
  zeroMarginsOn ids ws !! k
  = if decide (k ∈ ids) then (fun w => setMargin w 0) <$> ws !! k
    else ws !! k.
Proof.
  induction ids as [|a ids IH]; cbn [zeroMarginsOn foldr].
  - rewrite decide_False; [done | apply not_elem_of_nil].
  - fold (zeroMarginsOn ids ws). rewrite lookup_alter.
    destruct (decide (a = k)) as [->|Hne].
    + rewrite decide_True by left. rewrite IH.
      destruct (decide (k ∈ ids)); [|done].
      by destruct (ws !! k).
    + rewrite IH. destruct (decide (k ∈ ids)) as [Hin|Hnin].
      * rewrite decide_True; [done | by right].
      * rewrite decide_False; [done|].
        intros [?|?]%elem_of_cons; congruence.
Qed.

Lemma zeroMarginsOn_insert a ids ws w :
  ws !! a = Some w -> a ∉ ids ->
  zeroMarginsOn ids (<[a := setMargin w 0]> ws)
  = zeroMarginsOn (a :: ids) ws.
Proof.
  intros Hw Hnin. apply map_eq. intros k.
  rewrite !lookup_zeroMarginsOn.
  destruct (decide (k = a)) as [->|Hne].
  - rewrite decide_False by done. rewrite decide_True by left.
    by rewrite lookup_insert_eq, Hw.
  - rewrite lookup_insert_ne by done.
    destruct (decide (k ∈ ids)) as [Hin|Hn].
    + rewrite decide_True; [done | by right].
    + rewrite decide_False; [done|].
      intros [?|?]%elem_of_cons; congruence.
Qed.

Lemma zeroMarginsOn_absent a ids ws :
  ws !! a = None -> zeroMarginsOn ids ws = zeroMarginsOn (a :: ids) ws.
Proof.
  intros Hw. apply map_eq. intros k. rewrite !lookup_zeroMarginsOn.
  destruct (decide (k = a)) as [->|Hne].
  - rewrite Hw. by repeat case_decide.
  - destruct (decide (k ∈ ids)) as [Hin|Hn].
    + rewrite decide_True; [done | by right].
    + rewrite decide_False; [done|].
      intros [?|?]%elem_of_cons; congruence.
Qed.

(** [saveMargins] sets the margins to 0 and keeps the old ones. *)
Lemma saveMargins_run ids : NoDup ids -> forall acc p,
  exists d,
    saveMargins ids acc p
    = Some (d, withAxisWidget p (zeroMarginsOn ids (axisWidget p)), [])
    /\ (forall k w, k ∈ ids -> axisWidget p !! k = Some w ->
         d !! k = Some (margin w))
    /\ (forall k, k ∉ ids -> d !! k = acc !! k).
Proof.
  induction 1 as [|a ids Hnin Hnd IH]; intros acc p.
  - exists acc. cbn. rewrite withAxisWidget_id.
    split; [done | split; [|done]].
    intros k w Hk. by apply not_elem_of_nil in Hk.
  - cbn [saveMargins].
    destruct (axisWidget p !! a) as [w|] eqn:Hw.
    + set (p1 := withAxisWidget p (<[a := setMargin w 0]> (axisWidget p))).
      destruct (IH (<[a := margin w]> acc) p1) as (d & Hrun & Hin & Hout).
      exists d. split; [|split].
      * eapply bind_run; [reflexivity | cbv beta; rewrite Hw | reflexivity].
        eapply bind_run;
          [ apply (updateWidget_run _ _ _ w Hw) | | reflexivity ].
        cbv beta. fold p1. rewrite Hrun. subst p1.
        cbn [axisWidget withAxisWidget].
        rewrite zeroMarginsOn_insert by done. reflexivity.
      * intros k w' [->|Hk]%elem_of_cons Hk'.
        -- rewrite Hout by done. rewrite lookup_insert_eq. congruence.
        -- apply Hin; [done|]. subst p1. cbn.
           rewrite lookup_insert_ne; [done|]. intros ->. done.
      * intros k Hk. rewrite Hout.
        -- rewrite lookup_insert_ne; [done|]. intros ->. apply Hk. left.
        -- intros ?. apply Hk. by right.
    + destruct (IH acc p) as (d & Hrun & Hin & Hout).
      exists d. split; [|split].
      * eapply bind_run; [reflexivity | cbv beta; rewrite Hw | reflexivity].
        rewrite Hrun. by rewrite <- zeroMarginsOn_absent.
      * intros k w' [->|Hk]%elem_of_cons Hk'; [congruence | by eapply Hin].
      * intros k Hk. apply Hout. intros ?. apply Hk. by right.
Qed.

(** [restoreMargins] writes the kept margins back. *)
Lemma restore_run d ids : forall p,
  (forall k, k ∈ ids -> is_Some (axisWidget p !! k) -> is_Some (d !! k)) ->
  exists ws',
    for_ ids (restoreMargin d) p = Some (tt, withAxisWidget p ws', [])
    /\ forall k,
         ws' !! k
         = if decide (k ∈ ids)
           then (fun w => setMargin w (default 0 (d !! k))) <$> axisWidget p !! k
           else axisWidget p !! k.
Proof.
  induction ids as [|a ids IH]; intros p Hd.
  - exists (axisWidget p). cbn. rewrite withAxisWidget_id. split; [done|].
    intros k. rewrite decide_False; [done | apply not_elem_of_nil].
  - destruct (axisWidget p !! a) as [w|] eqn:Hw.
    + destruct (Hd a) as [m Hm]; [left | by rewrite Hw |].
      set (p1 := withAxisWidget p (<[a := setMargin w m]> (axisWidget p))).
      destruct (IH p1) as (ws' & Hrun & Hlk).
      { intros k Hk Hsome. apply Hd; [by right|]. subst p1. cbn in Hsome.
        destruct (decide (k = a)) as [->|Hne]; [by rewrite Hw|].
        by rewrite lookup_insert_ne in Hsome. }
      exists ws'. split.
      * cbn [for_]. eapply bind_run.
        -- unfold restoreMargin.
           eapply bind_run; [reflexivity | cbv beta; rewrite Hw | reflexivity].
           eapply bind_run; [by rewrite Hm | | reflexivity].
           apply (updateWidget_run _ _ _ w Hw).
        -- cbv beta. fold p1. rewrite Hrun. reflexivity.
        -- reflexivity.
      * intros k. rewrite Hlk. subst p1. cbn [axisWidget withAxisWidget].
        destruct (decide (k = a)) as [->|Hne].
        -- rewrite lookup_insert_eq, Hw, Hm. rewrite (decide_True _ _ (list_elem_of_here _ _)).
           by case_decide.
        -- rewrite lookup_insert_ne by done.
           destruct (decide (k ∈ ids)) as [Hin|Hn].
           ++ rewrite decide_True; [done | by right].
           ++ rewrite decide_False; [done|].
              intros [?|?]%elem_of_cons; congruence.
    + destruct (IH p) as (ws' & Hrun & Hlk).
      { intros k Hk. apply Hd. by right. }
      exists ws'. split.
      * cbn [for_]. eapply bind_run.
        -- unfold restoreMargin.
           eapply bind_run; [reflexivity | cbv beta; rewrite Hw | reflexivity].
           reflexivity.
        -- cbv beta. rewrite Hrun. reflexivity.
        -- reflexivity.
      * intros k. rewrite Hlk.
        destruct (decide (k = a)) as [->|Hne].
        -- rewrite Hw. by repeat case_decide.
        -- destruct (decide (k ∈ ids)) as [Hin|Hn].
           ++ rewrite decide_True; [done | by right].
           ++ rewrite decide_False; [done|].
              intros [?|?]%elem_of_cons; congruence.
Qed.

Lemma NoDup_axisIds : NoDup axisIds.
Proof. apply NoDup_seqZ. Qed.

(** The round trip of the margins: what [saveMargins] kept, written back on
    a plot whose widgets are the zeroed ones, gives the widgets of before. *)
Lemma margins_roundtrip p d p2 :
  (forall k w, k ∈ axisIds -> axisWidget p !! k = Some w ->
     d !! k = Some (margin w)) ->
  axisWidget p2 = zeroMarginsOn axisIds (axisWidget p) ->
  restoreMargins d p2 = Some (tt, withAxisWidget p2 (axisWidget p), []).
Proof.
  intros Hd Hws. unfold restoreMargins.
  destruct (restore_run d axisIds p2) as (ws' & Hrun & Hlk).
  { intros k Hk. rewrite Hws, lookup_zeroMarginsOn, decide_True by done.
    intros [w' Hw']. destruct (axisWidget p !! k) as [w|] eqn:Hw; [|done].
    rewrite (Hd k w Hk Hw). by eexists. }
  rewrite Hrun. enough (ws' = axisWidget p) as -> by done.
  apply map_eq. intros k.
  rewrite Hlk, Hws, lookup_zeroMarginsOn.
  destruct (decide (k ∈ axisIds)) as [Hk|Hk]; [|done].
  destruct (axisWidget p !! k) as [w|] eqn:Hw; [|done].
  cbn. rewrite (Hd k w Hk Hw). cbn.
  by rewrite setMargin_setMargin, setMargin_margin.
Qed.

(** *** Loops whose body leaves the plot as it is *)

Lemma for_run ids body ev p :
  (forall a, a ∈ ids -> body a p = Some (tt, p, ev a)) ->
  for_ ids body p = Some (tt, p, concat (map ev ids)).
Proof.
  induction ids as [|a ids IH]; intros Hbody; [done|].
  cbn [for_ map concat]. eapply bind_run.
  - apply Hbody. left.
  - apply IH. intros b Hb. apply Hbody. by right.
  - reflexivity.
Qed.

Lemma mapM_run {A} ids (body : Z -> M A) f p :
  (forall a, a ∈ ids -> body a p = Some (f a, p, [])) ->
  mapM ids body p = Some (map f ids, p, []).
Proof.
  induction ids as [|a ids IH]; intros Hbody; [done|].
  cbn [mapM map]. eapply bind_run.
  - apply Hbody. left.
  - cbv beta. eapply bind_run.
    + apply IH. intros b Hb. apply Hbody. by right.
    + reflexivity.
    + reflexivity.
  - reflexivity.
Qed.

(** *** The scales *)

Lemma printAxisScale_run axisId p :
  axisOk p axisId ->
  printAxisScale axisId p = Some (tt, p, axisScaleEvents p axisId).
Proof.
  intros Hok. unfold printAxisScale, axisScaleEvents.
  eapply bind_run; [reflexivity | cbv beta | reflexivity].
  destruct (axisWidget p !! axisId) as [w|]; [|reflexivity].
  destruct (borderDistHint w) as [startDist endDist].
  by apply printScale_run.
Qed.

Lemma printScales_run p :
  (forall a, a ∈ axisIds -> axisOk p a) ->
  printScales p = Some (tt, p, scaleCalls p).
Proof.
  intros Hok. apply for_run. intros a Ha. by apply printAxisScale_run, Hok.
Qed.

(** *** The maps *)

(** The paint interval of an axis in layout coordinates, read off the
    plot. *)
Lemma paintInterval_run canvasRect axisId p :
  axisOk p axisId ->
  exists iv, paintInterval canvasRect axisId p = Some (iv, p, []).
Proof.
  intros Hok. unfold paintInterval, bind, get.
  destruct (axisEnabled p axisId) eqn:Hen.
  - destruct (Hok Hen) as [w ->]. cbn.
    destruct ((axisId =? xTop) || (axisId =? xBottom)); by eexists.
  - destruct ((axisId =? yLeft) || (axisId =? yRight)); by eexists.
Qed.

Lemma buildMap_run canvasRect axisId p :
  axisOk p axisId ->
  exists m,
    buildMap canvasRect axisId p = Some (m, p, [])
    /\ resultOf (paintInterval canvasRect axisId) p = Some (p1 m, p2 m).
Proof.
  intros Hok. destruct (paintInterval_run canvasRect axisId p Hok) as [iv Hiv].
  unfold buildMap, bind, get, resultOf.
  destruct (axisScaleDiv p axisId) as [lo hi]. rewrite Hiv. cbn.
  eexists. split; [reflexivity|]. by destruct iv.
Qed.

Lemma buildMap_mapOf canvasRect axisId p :
  axisOk p axisId ->
  buildMap canvasRect axisId p = Some (mapOf canvasRect p axisId, p, [])
  /\ resultOf (paintInterval canvasRect axisId) p
     = Some (p1 (mapOf canvasRect p axisId), p2 (mapOf canvasRect p axisId)).
Proof.
  intros Hok. destruct (buildMap_run canvasRect axisId p Hok) as (m & Hm & Hiv).
  unfold mapOf. rewrite (resultOf_run _ _ _ _ _ Hm).
  split; [exact Hm | exact Hiv].
Qed.

Lemma buildMaps_run canvasRect p :
  (forall a, a ∈ axisIds -> axisOk p a) ->
  mapM axisIds (buildMap canvasRect) p
  = Some (map (mapOf canvasRect p) axisIds, p, []).
Proof.
  intros Hok. apply mapM_run. intros a Ha.
  by apply buildMap_mapOf, Hok.
Qed.

(** *** Title and canvas *)

Lemma printTitle_run rect p :
  printTitle rect p
  = Some (tt, p, [ PrintTitle_ rect; SetFont TitleLabel;
                   SetPenColor TitleLabel; DrawTitleText rect ]).
Proof. reflexivity. Qed.

Lemma printCanvas_run painter canvasRect map pfilter p :
  printCanvas painter canvasRect map pfilter p
  = Some (tt, p,
          PrintCanvas_ canvasRect map
          :: canvasDecoration painter canvasRect pfilter
          ++ [ SetClipping true; SetClipRect (toRect canvasRect);
               DrawItems canvasRect map ]).
Proof.
  unfold printCanvas, canvasDecoration, bind, emit, when, ret.
  destruct (has (options pfilter) PrintBackground),
    (has (options pfilter) PrintFrameWithScales); cbn [negb];
    [ reflexivity | destruct (paintEngine painter) as [[]|] | .. ];
    reflexivity.
Qed.

Lemma printCanvas_calls painter transform pfilter pl :
  printCanvas painter (mapRect transform (canvasRect (plotLayout pl)))
    (rescaleMaps transform (layoutMaps pl)) pfilter pl
  = Some (tt, pl, canvasCalls painter transform pfilter pl).
Proof. apply printCanvas_run. Qed.

(** *** The plot while it is printed *)

Lemma axisOk_laidOut engine painter plotRect pfilter p a :
  axisOk p a -> axisOk (laidOut engine painter plotRect pfilter p) a.
Proof.
  unfold axisOk, laidOut, plotWhilePrinting.
  destruct (has (options pfilter) PrintFrameWithScales); cbn; [|done].
  intros Hok Hen. rewrite lookup_zeroMarginsOn.
  destruct (Hok Hen) as [w ->]. case_decide; by eexists.
Qed.

Lemma legendOk_laidOut engine painter plotRect pfilter p rect :
  legendOk rect p -> legendOk rect (laidOut engine painter plotRect pfilter p).
Proof.
  unfold legendOk, laidOut, plotWhilePrinting.
  by destruct (has (options pfilter) PrintFrameWithScales).
Qed.

Lemma when_printTitle_run pfilter pl :
  when (titlePrinted pfilter pl) (printTitle (titleRect (plotLayout pl))) pl
  = Some (tt, pl, titleCalls pfilter pl).
Proof. unfold when, titleCalls. by destruct (titlePrinted pfilter pl). Qed.

Lemma legendCallOk_printed pfilter pl :
  legendCallOk pfilter pl -> legendPrinted pfilter pl = true ->
  legendOk (legendRect (plotLayout pl)) pl.
Proof.
  intros Hok Hpr. apply Hok. unfold legendPrinted in Hpr.
  by apply andb_true_iff in Hpr as [Hflag _].
Qed.

Lemma when_printLegend_run pfilter pl :
  legendCallOk pfilter pl ->
  when (legendPrinted pfilter pl) (printLegend (legendRect (plotLayout pl))) pl
  = Some (tt, pl, legendCalls pfilter pl).
Proof.
  intros Hok. unfold legendCalls, callsOf, when.
  destruct (legendPrinted pfilter pl) eqn:Hpr; [|done].
  destruct (printLegend_run (legendRect (plotLayout pl)) pl
              (legendCallOk_printed pfilter pl Hok Hpr))
    as (evs & -> & _).
  reflexivity.
Qed.

Lemma printable_axes engine painter plotRect pfilter p :
  validCall painter plotRect p = true ->
  printable engine painter plotRect pfilter p ->
  forall axisId, axisId ∈ axisIds -> axisOk p axisId.
Proof. intros Hv Hp. apply (Hp Hv). Qed.

Lemma printable_legend engine painter plotRect pfilter p :
  validCall painter plotRect p = true ->
  printable engine painter plotRect pfilter p ->
  legendCallOk pfilter (laidOut engine painter plotRect pfilter p).
Proof.
  intros Hv Hp Hflag. apply legendOk_laidOut. by apply (Hp Hv).
Qed.

(** *** A valid call of [print], from its first line to its last *)

Lemma saveMargins_step pfilter p :
  exists d,
    (if has (options pfilter) PrintFrameWithScales
     then saveMargins axisIds ∅ else ret ∅) p
    = Some (d, plotWhilePrinting pfilter p, [])
    /\ (has (options pfilter) PrintFrameWithScales = true ->
        forall k w, k ∈ axisIds -> axisWidget p !! k = Some w ->
                    d !! k = Some (margin w)).
Proof.
  unfold plotWhilePrinting.
  destruct (has (options pfilter) PrintFrameWithScales).
  - destruct (saveMargins_run axisIds NoDup_axisIds ∅ p) as (d & Hrun & Hd & _).
    exists d. split; [exact Hrun | intros _; exact Hd].
  - exists ∅. split; [reflexivity | discriminate].
Qed.

Lemma restoreMargins_step engine painter plotRect pfilter p d :
  (has (options pfilter) PrintFrameWithScales = true ->
   forall k w, k ∈ axisIds -> axisWidget p !! k = Some w ->
               d !! k = Some (margin w)) ->
  when (has (options pfilter) PrintFrameWithScales) (restoreMargins d)
    (withPlotLayout (laidOut engine painter plotRect pfilter p)
       (invalidate engine
          (plotLayout (laidOut engine painter plotRect pfilter p))))
  = Some (tt, printedPlot engine painter plotRect pfilter p, []).
Proof.
  intros Hd. unfold printedPlot, laidOut, plotWhilePrinting, when.
  destruct (has (options pfilter) PrintFrameWithScales) eqn:Hflag.
  - erewrite margins_roundtrip; [ | by apply Hd | reflexivity ].
    by destruct p.
  - reflexivity.
Qed.

Lemma print_run engine painter plotRect pfilter p :
  validCall painter plotRect p = true ->
  printable engine painter plotRect pfilter p ->
  print engine (Some painter) plotRect pfilter p
  = Some (tt, printedPlot engine painter plotRect pfilter p,
          printCalls engine painter plotRect pfilter p).
Proof.
  intros Hvalid Hp.
  pose proof (printable_axes _ _ _ _ _ Hvalid Hp) as Haxes.
  pose proof (fun a Ha =>
    axisOk_laidOut engine painter plotRect pfilter p a (Haxes a Ha)) as Haxes'.
  pose proof (printable_legend _ _ _ _ _ Hvalid Hp) as Hlegend'.
  destruct (saveMargins_step pfilter p) as (d & Hsave & Hd).
  unfold validCall in Hvalid.
  apply andb_true_iff in Hvalid as [[Hact Hrect]%andb_true_iff Hsize].
  unfold print.
  eapply bind_run; [reflexivity | cbv beta | reflexivity].
  rewrite Hact, Hrect. apply negb_true_iff in Hsize. rewrite Hsize.
  cbn [negb orb]. cbv zeta.
  eapply bind_run; [reflexivity | cbv beta | ].
  eapply bind_run; [reflexivity | cbv beta | ].
  eapply bind_run; [exact Hsave | cbv beta | ].
  eapply bind_run; [reflexivity | cbv beta | ].
  eapply bind_run; [reflexivity | cbv beta | ].
  fold (printLayoutRect painter plotRect p).
  fold (laidOut engine painter plotRect pfilter p).
  set (pl := laidOut engine painter plotRect pfilter p) in *.
  eapply bind_run; [reflexivity | cbv beta | ].
  eapply bind_run; [reflexivity | cbv beta | ].
  eapply bind_run; [reflexivity | cbv beta | ].
  eapply bind_run; [apply when_printTitle_run | cbv beta | ].
  eapply bind_run; [by apply when_printLegend_run | cbv beta | ].
  eapply bind_run; [by apply printScales_run | cbv beta | ].
  eapply bind_run; [reflexivity | cbv beta | ].
  eapply bind_run; [by apply buildMaps_run | cbv beta | ].
  eapply bind_run; [reflexivity | cbv beta | ].
  fold (layoutMaps pl).
  eapply bind_run; [apply printCanvas_calls | cbv beta | ].
  eapply bind_run; [reflexivity | cbv beta | ].
  eapply bind_run; [reflexivity | cbv beta | ].
  eapply bind_run; [reflexivity | cbv beta | ].
  eapply bind_run;
    [ by apply (restoreMargins_step engine painter plotRect pfilter p d)
    | cbv beta | ].
  eapply bind_run; [reflexivity | reflexivity | ].
  all: reflexivity.
Qed.

(** *** The sample plot *)

Lemma elem_of_axisIds a :
  a ∈ axisIds <-> a = yLeft \/ a = yRight \/ a = xBottom \/ a = xTop.
Proof.
  change axisIds with [yLeft; yRight; xBottom; xTop].
  rewrite !elem_of_cons, elem_of_nil. tauto.
Qed.

Lemma samplePlot_legendOk rect : legendOk rect samplePlot.
Proof. intros lg l [= <-] _ [= <-] _. vm_compute. lia. Qed.

Lemma samplePlot_printable engine painter plotRect pfilter :
  printable engine painter plotRect pfilter samplePlot.
Proof.
  intros _. split.
  - intros a Ha Hen. apply elem_of_axisIds in Ha.
    destruct Ha as [-> | [-> | [-> | ->]]]; try discriminate Hen;
      by exists sampleWidget.
  - intros _. apply samplePlot_legendOk.
Qed.

(** The legend of this plot has no rectangle for 0 columns; in the call of
    [print] on the sample rectangle its layout is asked for 1 column. *)
Lemma sparseLegendPlot_printable pfilter :
  printable sampleEngine samplePainter sampleRect pfilter sparseLegendPlot.
Proof.
  intros _. split.
  - intros a Ha Hen. apply elem_of_axisIds in Ha.
    destruct Ha as [-> | [-> | [-> | ->]]]; try discriminate Hen;
      by exists sampleWidget.
  - intros _ lg l [= <-] _ [= <-] _. vm_compute. lia.
Qed.

(** *** The outline of a call *)

Lemma omap_outline {X} (f : Event -> option X) evs :
  (forall e, outline e = false -> f e = None) ->
  omap f evs = omap f (List.filter outline evs).
Proof.
  intros Hf. induction evs as [|e evs IH]; [done|].
  cbn [List.filter]. destruct (outline e) eqn:He; cbn; rewrite IH; [done|].
  by rewrite (Hf e He).
Qed.

Lemma outline_legendItemCalls evs :
  forallb isLegendItemCall evs = true -> List.filter outline evs = [].
Proof.
  induction evs as [|e evs IH]; [done|]. cbn [forallb List.filter].
  intros [He Hevs]%andb_true_iff. rewrite (IH Hevs).
  by destruct e.
Qed.

Lemma outline_titleCalls pfilter pl :
  List.filter outline (titleCalls pfilter pl)
  = if titlePrinted pfilter pl
    then [ PrintTitle_ (titleRect (plotLayout pl)) ] else [].
Proof. unfold titleCalls. by destruct (titlePrinted pfilter pl). Qed.

Lemma outline_legendCalls pfilter pl :
  legendCallOk pfilter pl ->
  List.filter outline (legendCalls pfilter pl)
  = if legendPrinted pfilter pl
    then [ PrintLegend_ (legendRect (plotLayout pl)) ] else [].
Proof.
  intros Hok. unfold legendCalls, callsOf, when.
  destruct (legendPrinted pfilter pl) eqn:Hpr; [|done].
  destruct (printLegend_run (legendRect (plotLayout pl)) pl
              (legendCallOk_printed pfilter pl Hok Hpr))
    as (evs & -> & Hevs).
  cbn [List.filter outline]. by rewrite outline_legendItemCalls.
Qed.

Lemma outline_axisScaleEvents pl a :
  List.filter outline (axisScaleEvents pl a) = scaleOutline pl a.
Proof.
  unfold axisScaleEvents, scaleOutline, printScaleEvents.
  destruct (axisWidget pl !! a) as [w|]; [|done].
  cbn [List.filter outline]. f_equal.
  destruct (axisEnabled pl a); cbn [negb]; [|done].
  rewrite List.filter_app.
  replace (List.filter outline
             (if colorBarShown w
              then [DrawColorBar a
                      (setHeight
                         (setWidth (scaleRect (plotLayout pl) a)
                            (rwidth (scaleRect (plotLayout pl) a) - 1)%Q)
                         (rheight (scaleRect (plotLayout pl) a) - 1)%Q)]
              else [])) with (@nil Event) by (by destruct (colorBarShown w)).
  by destruct (scaleGeometry _ _ _ _ _) as [[[[x y] len] align]|].
Qed.

Lemma outline_scaleCalls pl :
  List.filter outline (scaleCalls pl) = concat (map (scaleOutline pl) axisIds).
Proof.
  unfold scaleCalls. induction axisIds as [|a ids IH]; [done|].
  cbn [map concat]. by rewrite List.filter_app, outline_axisScaleEvents, IH.
Qed.

Lemma outline_canvasDecoration painter canvasRect pfilter :
  List.filter outline (canvasDecoration painter canvasRect pfilter) = [].
Proof.
  unfold canvasDecoration.
  by destruct (has (options pfilter) PrintBackground),
    (has (options pfilter) PrintFrameWithScales).
Qed.

Lemma outline_printCalls engine painter plotRect pfilter p :
  legendCallOk pfilter (laidOut engine painter plotRect pfilter p) ->
  List.filter outline (printCalls engine painter plotRect pfilter p)
  = printOutline engine painter plotRect pfilter p.
Proof.
  intros Hok. unfold printCalls, printOutline, canvasCalls. cbv zeta.
  rewrite !List.filter_app. cbn [List.filter outline].
  rewrite !List.filter_app, outline_titleCalls, outline_scaleCalls,
    outline_canvasDecoration.
  rewrite outline_legendCalls by done.
  reflexivity.
Qed.

(** A call that fails the test of lines 68 and 69. *)
Lemma print_skip engine painter plotRect pfilter p :
  match painter with
  | Some pa => validCall pa plotRect p = false
  | None => True
  end ->
  print engine painter plotRect pfilter p = Some (tt, p, []).
Proof.
  destruct painter as [pa|]; [|reflexivity].
  unfold validCall, print, bind, get. intros H.
  destruct (isActive pa); [|reflexivity].
  destruct (isValid plotRect); [|reflexivity].
  cbn in H. apply negb_false_iff in H. by rewrite H.
Qed.

(** A call of [print] with a painter: either nothing happens, or the calls
    are those of [printCalls]. *)
Lemma print_cases engine painter plotRect pfilter p :
  printable engine painter plotRect pfilter p ->
  print engine (Some painter) plotRect pfilter p
  = if validCall painter plotRect p
    then Some (tt, printedPlot engine painter plotRect pfilter p,
               printCalls engine painter plotRect pfilter p)
    else Some (tt, p, []).
Proof.
  intros Hp. destruct (validCall painter plotRect p) eqn:Hv.
  - by apply print_run.
  - by apply print_skip.
Qed.

(** ** print: the degenerate calls *)

(** C1: when the painter is null or not active, or the rectangle is not
    valid, or the size of the widget is null, [print] returns at once: it
    makes no call at all (no drawing, neither [apply] nor [reset] of the
    filter, no layout activation) and the plot is what it was (margins, scale
    draws and layout included). *)
Theorem C1_print_degenerate_is_noop engine painter plotRect pfilter p :
  painter = None
  \/ (exists pa, painter = Some pa /\ isActive pa = false)
  \/ isValid plotRect = false
  \/ QSize_isNull (plotSize p) = true ->
  print engine painter plotRect pfilter p = Some (tt, p, []).
Proof.
  intros H. apply print_skip. destruct painter as [pa|]; [|done].
  unfold validCall.
  destruct H as [H|[(pa' & [= <-] & H)|[H|H]]]; [done | ..]; rewrite H.
  - reflexivity.
  - apply andb_false_intro1, andb_false_r.
  - apply andb_false_r.
Qed.

Lemma C1_witness :
  print sampleEngine (Some samplePainter) (rectF 0 0 800 0) frameWithScales
    samplePlot
  = Some (tt, samplePlot, []).
Proof.
  apply (C1_print_degenerate_is_noop sampleEngine (Some samplePainter)
           (rectF 0 0 800 0) frameWithScales samplePlot).
  right. right. left. reflexivity.
Defined.

(** ** print: the margins *)

Lemma omap_concat_map {X} (f : Event -> option X) (g : Z -> list Event) ids :
  omap f (concat (map g ids)) = concat (map (fun a => omap f (g a)) ids).
Proof.
  induction ids as [|a ids IH]; [done|].
  cbn [map concat]. by rewrite omap_app, IH.
Qed.

Lemma baseDist_scaleOutline pl a :
  omap scaleBaseDist (scaleOutline pl a)
  = match axisWidget pl !! a with
    | Some w => [(a, margin w)]
    | None => []
    end.
Proof.
  unfold scaleOutline. destruct (axisWidget pl !! a) as [w|]; [|done].
  cbn. destruct (axisEnabled pl a); [|done].
  by destruct (scaleGeometry _ _ _ _ _) as [[[[x y] len] align]|].
Qed.

Lemma baseDist_printOutline engine painter plotRect pfilter p :
  omap scaleBaseDist (printOutline engine painter plotRect pfilter p)
  = concat
      (map (fun a =>
              match axisWidget (laidOut engine painter plotRect pfilter p) !! a
              with
              | Some w => [(a, margin w)]
              | None => []
              end) axisIds).
Proof.
  unfold printOutline. cbv zeta.
  generalize (laidOut engine painter plotRect pfilter p). intros pl.
  rewrite !omap_app, omap_concat_map.
  destruct (titlePrinted _ _), (legendPrinted _ _); cbn;
    rewrite app_nil_r; apply (f_equal (@concat _)), map_ext;
    intros a; apply baseDist_scaleOutline.
Qed.

Lemma laidOut_widget engine painter plotRect pfilter p a :
  has (options pfilter) PrintFrameWithScales = true ->
  a ∈ axisIds ->
  axisWidget (laidOut engine painter plotRect pfilter p) !! a
  = (fun w => setMargin w 0) <$> axisWidget p !! a.
Proof.
  intros Hflag Ha. unfold laidOut, plotWhilePrinting. rewrite Hflag. cbn.
  by rewrite lookup_zeroMarginsOn, decide_True.
Qed.

(** C2: with the option PrintFrameWithScales, the margin of every scale
    widget is after [print] what it was before (the scale widgets are the
    same as before), although it is 0 during the call: in a call that passes
    the test of lines 68 and 69, [printScale] is called once for every axis
    that has a scale widget, with the base distance 0. *)
Theorem C2_print_restores_margins engine painter plotRect pfilter p :
  (forall pa, painter = Some pa ->
              printable engine pa plotRect pfilter p) ->
  has (options pfilter) PrintFrameWithScales = true ->
  exists p' evs,
    print engine painter plotRect pfilter p = Some (tt, p', evs)
    /\ (forall a w, axisWidget p !! a = Some w ->
          exists w', axisWidget p' !! a = Some w' /\ margin w' = margin w)
    /\ axisWidget p' = axisWidget p
    /\ (forall pa, painter = Some pa -> validCall pa plotRect p = true ->
          omap scaleBaseDist evs
          = omap (fun a => (fun _ => (a, 0)) <$> axisWidget p !! a) axisIds).
Proof.
  intros Hp Hflag. destruct painter as [pa|].
  - specialize (Hp pa eq_refl). rewrite (print_cases _ _ _ _ _ Hp).
    destruct (validCall pa plotRect p) eqn:Hv.
    + eexists _, _. split; [reflexivity|]. split; [|split].
      * intros a w Hw. exists w. by split.
      * reflexivity.
      * intros pa' [= <-] _.
        rewrite (omap_outline scaleBaseDist) by (by intros []).
        rewrite outline_printCalls by (by apply printable_legend).
        rewrite baseDist_printOutline.
        pose proof (fun a => laidOut_widget engine pa plotRect pfilter p a Hflag)
          as Hlk.
        revert Hlk. generalize (laidOut engine pa plotRect pfilter p).
        intros pl Hlk. induction axisIds as [|a ids IH]; [done|].
        cbn [map concat]. rewrite IH by (intros; apply Hlk; by right).
        rewrite (Hlk a) by left.
        cbn. by destruct (axisWidget p !! a).
    + eexists _, _. split; [reflexivity|]. split; [|split].
      * intros a w Hw. exists w. by split.
      * reflexivity.
      * intros pa' [= <-] Hv'. congruence.
  - eexists _, _. split; [reflexivity|]. split; [|split].
    + intros a w Hw. exists w. by split.
    + reflexivity.
    + discriminate.
Qed.

Lemma C2_witness :
  exists p' evs,
    print sampleEngine (Some samplePainter) sampleRect frameWithScales
      sparseLegendPlot = Some (tt, p', evs)
    /\ (forall a w, axisWidget sparseLegendPlot !! a = Some w ->
          exists w', axisWidget p' !! a = Some w' /\ margin w' = margin w)
    /\ axisWidget p' = axisWidget sparseLegendPlot
    /\ (forall pa, Some samplePainter = Some pa ->
          validCall pa sampleRect sparseLegendPlot = true ->
          omap scaleBaseDist evs
          = omap (fun a =>
                    (fun _ => (a, 0)) <$> axisWidget sparseLegendPlot !! a)
              axisIds).
Proof.
  apply (C2_print_restores_margins sampleEngine (Some samplePainter)
           sampleRect frameWithScales sparseLegendPlot).
  - intros pa [= <-]. apply sparseLegendPlot_printable.
  - reflexivity.
Defined.

(** ** printScale *)

(** C6: [printScale] leaves the position and the length of the scale draw of
    every axis as they were, on every path: for a disabled axis, for an axis
    id outside the four axes, and when the scale is drawn (the scale draw is
    moved and moved back).  The call has a result whenever the scale widget
    of an enabled axis exists. *)
Theorem C6_printScale_restores_scale_draw
    axisId startDist endDist baseDist rect p :
  axisOk p axisId ->
  exists p' evs,
    printScale axisId startDist endDist baseDist rect p = Some (tt, p', evs)
    /\ scaleDrawPos p' axisId = scaleDrawPos p axisId
    /\ scaleDrawLength p' axisId = scaleDrawLength p axisId
    /\ p' = p.
Proof.
  intros Hok. exists p, (printScaleEvents p axisId startDist endDist baseDist rect).
  split; [by apply printScale_run | done].
Qed.

Lemma C6_witness :
  exists p' evs,
    printScale yLeft 3 5 4 (rectF 0 20 40 240) samplePlot = Some (tt, p', evs)
    /\ scaleDrawPos p' yLeft = scaleDrawPos samplePlot yLeft
    /\ scaleDrawLength p' yLeft = scaleDrawLength samplePlot yLeft
    /\ p' = samplePlot.
Proof.
  apply (C6_printScale_restores_scale_draw yLeft 3 5 4 (rectF 0 20 40 240)
           samplePlot).
  intros _. exists sampleWidget. reflexivity.
Defined.

(** C9: the branch on the orientation of the scale adds the same offset on
    both sides: [printScale] is [printScale_unconditional], which adds the
    width of the colour bar plus the spacing whatever the orientation; and
    with a colour bar of positive width the scale is drawn at the position
    computed from the base distance plus that offset. *)
Theorem C9_colorBar_offset_unconditional :
  (forall axisId startDist endDist baseDist rect p,
     printScale axisId startDist endDist baseDist rect p
     = printScale_unconditional axisId startDist endDist baseDist rect p)
  /\ (forall axisId startDist endDist baseDist rect p w x y len align,
        axisEnabled p axisId = true ->
        axisWidget p !! axisId = Some w ->
        isColorBarEnabled w = true ->
        0 < colorBarWidth w ->
        scaleGeometry axisId startDist endDist
          (baseDist + (colorBarWidth w + spacing w)) rect
        = Some (x, y, len, align) ->
        exists evs,
          printScale axisId startDist endDist baseDist rect p
          = Some (tt, p, evs)
          /\ omap regionOf evs = [ScaleRegion axisId]
          /\ DrawScale axisId {| px := inject_Z x; py := inject_Z y |}
               (inject_Z len) ∈ evs).
Proof.
  split.
  - intros axisId startDist endDist baseDist rect p.
    destruct (axisEnabled p axisId) eqn:Hen.
    + destruct (axisWidget p !! axisId) as [w|] eqn:Hw.
      * rewrite printScale_run, printScale_unconditional_run;
          [done | intros _; by exists w ..].
      * by destruct (printScale_null axisId startDist endDist baseDist rect p
                       Hen Hw) as [-> ->].
    + rewrite printScale_run, printScale_unconditional_run;
        [done | intros ?; congruence ..].
  - intros axisId startDist endDist baseDist rect p w x y len align
      Hen Hw Hbar Hwidth Hgeo.
    exists (printScaleEvents p axisId startDist endDist baseDist rect).
    split; [apply printScale_run; intros _; by exists w|].
    unfold printScaleEvents, colorBarShown.
    rewrite Hen, Hw, Hbar. cbn [negb andb].
    apply Z.ltb_lt in Hwidth. rewrite Hwidth, Hgeo.
    split; [reflexivity|]. cbn. set_solver.
Qed.

Lemma C9_witness :
  exists evs,
    printScale yLeft 3 5 4 (rectF 0 20 40 240) samplePlot
    = Some (tt, samplePlot, evs)
    /\ omap regionOf evs = [ScaleRegion yLeft]
    /\ DrawScale yLeft {| px := inject_Z 23; py := inject_Z 23 |}
         (inject_Z 232) ∈ evs.
Proof.
  apply (proj2 C9_colorBar_offset_unconditional yLeft 3 5 4
           (rectF 0 20 40 240) samplePlot sampleWidget 23 23 232 LeftScale);
    reflexivity.
Defined.

(** ** print: the layout engine and the canvas *)

Lemma omap_scaleOutline_nil {X} (f : Event -> option X) pl ids :
  (forall a s e b r, f (PrintScale_ a s e b r) = None) ->
  (forall a pos len, f (DrawScale a pos len) = None) ->
  omap f (concat (map (scaleOutline pl) ids)) = [].
Proof.
  intros Hscale Hdraw. rewrite omap_concat_map.
  induction ids as [|a ids IH]; [done|]. cbn [map concat]. rewrite IH.
  unfold scaleOutline. destruct (axisWidget pl !! a) as [w|]; [|done].
  cbn. rewrite Hscale. destruct (axisEnabled pl a); [|done].
  destruct (scaleGeometry _ _ _ _ _) as [[[[x y] len] align]|]; [|done].
  cbn. by rewrite Hdraw.
Qed.

Lemma layoutActivation_printCalls engine painter plotRect pfilter p :
  legendCallOk pfilter (laidOut engine painter plotRect pfilter p) ->
  omap layoutActivation (printCalls engine painter plotRect pfilter p)
  = [ (printLayoutRect painter plotRect p, layoutOptionsOf pfilter) ].
Proof.
  intros Hok. rewrite (omap_outline layoutActivation) by (by intros []).
  rewrite outline_printCalls by done. unfold printOutline. cbv zeta.
  rewrite !omap_app, omap_scaleOutline_nil by done.
  by destruct (titlePrinted _ _), (legendPrinted _ _).
Qed.

Lemma canvasPrinted_printCalls engine painter plotRect pfilter p :
  legendCallOk pfilter (laidOut engine painter plotRect pfilter p) ->
  omap canvasPrinted (printCalls engine painter plotRect pfilter p)
  = [ (mapRect (printTransform painter p)
         (canvasRect (plotLayout (laidOut engine painter plotRect pfilter p))),
       rescaleMaps (printTransform painter p)
         (layoutMaps (laidOut engine painter plotRect pfilter p))) ].
Proof.
  intros Hok. rewrite (omap_outline canvasPrinted) by (by intros []).
  rewrite outline_printCalls by done. unfold printOutline. cbv zeta.
  rewrite !omap_app, omap_scaleOutline_nil by done.
  by destruct (titlePrinted _ _), (legendPrinted _ _).
Qed.

Lemma layoutOptionsOf_bits pfilter :
  has (layoutOptionsOf pfilter) IgnoreScrollbars = true
  /\ has (layoutOptionsOf pfilter) IgnoreFrames = true
  /\ has (layoutOptionsOf pfilter) IgnoreMargin
     = negb (has (options pfilter) PrintMargin)
  /\ has (layoutOptionsOf pfilter) IgnoreLegend
     = negb (has (options pfilter) PrintLegend)
  /\ has (layoutOptionsOf pfilter) AlignScales = false.
Proof.
  unfold layoutOptionsOf.
  by destruct (has (options pfilter) PrintMargin),
    (has (options pfilter) PrintLegend).
Qed.

(** C8: a call of [print] that passes the test of lines 68 and 69 activates
    the layout engine once, with the print rectangle mapped through the
    inverse of the DPI transform and with a mask in which IgnoreScrollbars
    and IgnoreFrames are set, IgnoreMargin is set exactly when PrintMargin is
    not, and IgnoreLegend is set exactly when PrintLegend is not. *)
Theorem C8_layout_activation engine painter plotRect pfilter p :
  validCall painter plotRect p = true ->
  printable engine painter plotRect pfilter p ->
  exists p' evs layoutOptions,
    print engine (Some painter) plotRect pfilter p = Some (tt, p', evs)
    /\ omap layoutActivation evs
       = [ (mapRect (inverted (printTransform painter p)) plotRect,
            layoutOptions) ]
    /\ has layoutOptions IgnoreScrollbars = true
    /\ has layoutOptions IgnoreFrames = true
    /\ has layoutOptions IgnoreMargin
       = negb (has (options pfilter) PrintMargin)
    /\ has layoutOptions IgnoreLegend
       = negb (has (options pfilter) PrintLegend).
Proof.
  intros Hv Hp. rewrite (print_run _ _ _ _ _ Hv Hp).
  eexists _, _, (layoutOptionsOf pfilter). split; [reflexivity|].
  split; [by apply layoutActivation_printCalls, printable_legend|].
  pose proof (layoutOptionsOf_bits pfilter). tauto.
Qed.

Lemma C8_witness :
  exists p' evs layoutOptions,
    print sampleEngine (Some samplePainter) sampleRect titleAndLegend
      sparseLegendPlot = Some (tt, p', evs)
    /\ omap layoutActivation evs
       = [ (mapRect (inverted (printTransform samplePainter sparseLegendPlot))
              sampleRect,
            layoutOptions) ]
    /\ has layoutOptions IgnoreScrollbars = true
    /\ has layoutOptions IgnoreFrames = true
    /\ has layoutOptions IgnoreMargin
       = negb (has (options titleAndLegend) PrintMargin)
    /\ has layoutOptions IgnoreLegend
       = negb (has (options titleAndLegend) PrintLegend).
Proof.
  apply (C8_layout_activation sampleEngine samplePainter sampleRect
           titleAndLegend sparseLegendPlot).
  - reflexivity.
  - apply sparseLegendPlot_printable.
Defined.

(** *** The maps handed to the canvas *)

Lemma rescaleMaps_lookup transform (f : Z -> QwtScaleMap) a :
  a ∈ axisIds ->
  rescaleMaps transform (map f axisIds) !! Z.to_nat a
  = Some (rescaleMap transform a (f a)).
Proof.
  intros Ha. apply elem_of_axisIds in Ha.
  by destruct Ha as [-> | [-> | [-> | ->]]].
Qed.

Lemma rescaleMap_interval transform a m :
  p1 (rescaleMap transform a m) = (p1 m * axisFactor transform a)%Q
  /\ p2 (rescaleMap transform a m) = (p2 m * axisFactor transform a)%Q.
Proof.
  unfold rescaleMap, axisFactor.
  by destruct ((a =? xTop) || (a =? xBottom)).
Qed.

(** C4: in a call of [print] that passes the test of lines 68 and 69, the
    canvas is printed once; its rectangle is the canvas rectangle of the
    layout mapped through the DPI transform, and the paint interval of each
    of the four axes is the interval computed in layout coordinates with both
    ends multiplied by the X factor of the transform for the top and the
    bottom axis, by its Y factor for the left and the right one. *)
Theorem C4_canvas_in_device_coordinates engine painter plotRect pfilter p :
  validCall painter plotRect p = true ->
  printable engine painter plotRect pfilter p ->
  let transform := printTransform painter p in
  let pl := laidOut engine painter plotRect pfilter p in
  exists p' evs map,
    print engine (Some painter) plotRect pfilter p = Some (tt, p', evs)
    /\ omap canvasPrinted evs
       = [ (mapRect transform (canvasRect (plotLayout pl)), map) ]
    /\ forall axisId, axisId ∈ axisIds ->
         exists from to m,
           resultOf (paintInterval (canvasRect (plotLayout pl)) axisId) pl
           = Some (from, to)
           /\ map !! Z.to_nat axisId = Some m
           /\ p1 m = (from * axisFactor transform axisId)%Q
           /\ p2 m = (to * axisFactor transform axisId)%Q.
Proof.
  intros Hv Hp transform pl. rewrite (print_run _ _ _ _ _ Hv Hp).
  eexists _, _, _. split; [reflexivity|].
  split; [by apply canvasPrinted_printCalls, printable_legend|].
  intros a Ha. fold transform pl. unfold layoutMaps.
  destruct (buildMap_mapOf (canvasRect (plotLayout pl)) a pl) as [_ Hiv].
  { apply axisOk_laidOut. by apply (printable_axes _ _ _ _ _ Hv Hp). }
  eexists _, _, _. split; [exact Hiv|].
  split; [by apply rescaleMaps_lookup|]. apply rescaleMap_interval.
Qed.

Lemma C4_witness :
  let transform := printTransform samplePainter samplePlot in
  let pl := laidOut sampleEngine samplePainter sampleRect frameWithScales
              samplePlot in
  exists p' evs map,
    print sampleEngine (Some samplePainter) sampleRect frameWithScales
      samplePlot = Some (tt, p', evs)
    /\ omap canvasPrinted evs
       = [ (mapRect transform (canvasRect (plotLayout pl)), map) ]
    /\ forall axisId, axisId ∈ axisIds ->
         exists from to m,
           resultOf (paintInterval (canvasRect (plotLayout pl)) axisId) pl
           = Some (from, to)
           /\ map !! Z.to_nat axisId = Some m
           /\ p1 m = (from * axisFactor transform axisId)%Q
           /\ p2 m = (to * axisFactor transform axisId)%Q.
Proof.
  apply (C4_canvas_in_device_coordinates sampleEngine samplePainter
           sampleRect frameWithScales samplePlot).
  - reflexivity.
  - apply samplePlot_printable.
Defined.

(** ** print: the plot that is laid out *)

Lemma scaleGeometry_axisIds a s e b r :
  a ∈ axisIds -> is_Some (scaleGeometry a s e b r).
Proof.
  intros Ha. apply elem_of_axisIds in Ha.
  destruct Ha as [-> | [-> | [-> | ->]]]; by eexists.
Qed.

Lemma laidOut_flags engine painter plotRect pfilter p :
  titlePrinted pfilter (laidOut engine painter plotRect pfilter p)
  = titlePrinted pfilter p
  /\ legendPrinted pfilter (laidOut engine painter plotRect pfilter p)
     = legendPrinted pfilter p
  /\ axisEnabled (laidOut engine painter plotRect pfilter p) = axisEnabled p.
Proof.
  unfold titlePrinted, legendPrinted, laidOut, plotWhilePrinting.
  by destruct (has (options pfilter) PrintFrameWithScales).
Qed.

(** ** print: the paint intervals *)


Lemma paintInterval_disabled canvasRect axisId p :
  axisEnabled p axisId = false ->
  resultOf (paintInterval canvasRect axisId) p
  = Some
      (if (axisId =? yLeft) || (axisId =? yRight) then
         ((bottom canvasRect - 1
           - inject_Z (canvasMargin (plotLayout p) axisId))%Q,
          (top canvasRect
           + inject_Z (canvasMargin (plotLayout p) axisId))%Q)
       else
         ((left canvasRect
           + inject_Z (canvasMargin (plotLayout p) axisId))%Q,
          (right canvasRect - 1
           - inject_Z (canvasMargin (plotLayout p) axisId))%Q)).
Proof.
  intros Hen. unfold resultOf, paintInterval, bind, get. rewrite Hen.
  by destruct ((axisId =? yLeft) || (axisId =? yRight)).
Qed.

(** The map of an axis that [print] hands to the canvas. *)
Lemma canvas_map engine painter plotRect pfilter p a :
  validCall painter plotRect p = true ->
  printable engine painter plotRect pfilter p ->
  a ∈ axisIds ->
  let transform := printTransform painter p in
  let pl := laidOut engine painter plotRect pfilter p in
  exists p' evs r map m from to,
    print engine (Some painter) plotRect pfilter p = Some (tt, p', evs)
    /\ omap canvasPrinted evs = [(r, map)]
    /\ map !! Z.to_nat a = Some m
    /\ resultOf (paintInterval (canvasRect (plotLayout pl)) a) pl
       = Some (from, to)
    /\ p1 m = (from * axisFactor transform a)%Q
    /\ p2 m = (to * axisFactor transform a)%Q.
Proof.
  intros Hv Hp Ha transform pl. rewrite (print_run _ _ _ _ _ Hv Hp).
  destruct (buildMap_mapOf (canvasRect (plotLayout pl)) a pl) as [_ Hiv].
  { apply axisOk_laidOut. by apply (printable_axes _ _ _ _ _ Hv Hp). }
  eexists _, _, _, _, _, _, _. split; [reflexivity|].
  split; [by apply canvasPrinted_printCalls, printable_legend|].
  split; [by apply rescaleMaps_lookup|].
  split; [exact Hiv|]. apply rescaleMap_interval.
Qed.






(** The bottom axis of the sample plot is disabled: the "to" end of its
    paint interval is the right edge of the canvas rectangle minus 1 minus
    the margin, not the right edge minus the margin. *)
Lemma C7_counterexample :
  let transform := printTransform samplePainter samplePlot in
  let pl := laidOut sampleEngine samplePainter sampleRect noFlags samplePlot in
  let canvasRect := canvasRect (plotLayout pl) in
  let margin := canvasMargin (plotLayout pl) xBottom in
  exists p' evs r map m from to,
    print sampleEngine (Some samplePainter) sampleRect noFlags samplePlot
    = Some (tt, p', evs)
    /\ omap canvasPrinted evs = [(r, map)]
    /\ map !! Z.to_nat xBottom = Some m
    /\ axisEnabled samplePlot xBottom = false
    /\ resultOf (paintInterval canvasRect xBottom) pl = Some (from, to)
    /\ ~ (to == right canvasRect - inject_Z margin)%Q
    /\ ~ (p2 m == (right canvasRect - inject_Z margin) * m11 transform)%Q.
Proof.
  eexists _, _, _, _, _, _, _.
  split; [vm_compute; reflexivity|].
  split; [vm_compute; reflexivity|].
  split; [vm_compute; reflexivity|].
  split; [vm_compute; reflexivity|].
  split; [vm_compute; reflexivity|].
  split; vm_compute; discriminate.
Qed.

(** C7, amended: for a disabled axis, in a call of [print] that passes the
    test of lines 68 and 69, the paint interval handed to the canvas comes
    from the canvas rectangle of the layout and [canvasMargin(axis)] alone:
    from bottom - 1 - margin to top + margin for the left and the right axis
    (times the Y factor of the transform), from left + margin to
    right - 1 - margin for the top and the bottom axis (times the X
    factor). *)
Theorem C7_disabled_axis_interval engine painter plotRect pfilter p axisId :
  validCall painter plotRect p = true ->
  printable engine painter plotRect pfilter p ->
  axisId ∈ axisIds ->
  axisEnabled p axisId = false ->
  let transform := printTransform painter p in
  let pl := laidOut engine painter plotRect pfilter p in
  let canvasRect := canvasRect (plotLayout pl) in
  let margin := inject_Z (canvasMargin (plotLayout pl) axisId) in
  exists p' evs r map m,
    print engine (Some painter) plotRect pfilter p = Some (tt, p', evs)
    /\ omap canvasPrinted evs = [(r, map)]
    /\ map !! Z.to_nat axisId = Some m
    /\ (axisId = yLeft \/ axisId = yRight ->
        p1 m = ((bottom canvasRect - 1 - margin) * m22 transform)%Q
        /\ p2 m = ((top canvasRect + margin) * m22 transform)%Q)
    /\ (axisId = xBottom \/ axisId = xTop ->
        p1 m = ((left canvasRect + margin) * m11 transform)%Q
        /\ p2 m = ((right canvasRect - 1 - margin) * m11 transform)%Q).
Proof.
  intros Hv Hp Hin Hen transform pl cr mg.
  destruct (canvas_map engine painter plotRect pfilter p axisId Hv Hp Hin)
    as (p' & evs & r & map & m & from & to & Hrun & Hcanvas & Hm & Hiv & H1 & H2).
  fold transform pl cr in Hiv, H1, H2.
  rewrite paintInterval_disabled in Hiv
    by (unfold pl; by rewrite (proj2 (proj2 (laidOut_flags _ _ _ _ _)))).
  exists p', evs, r, map, m. repeat (split; [done|]).
  split; intros [-> | ->]; injection Hiv as <- <-; by rewrite H1, H2.
Qed.

Lemma C7_witness :
  let transform := printTransform samplePainter samplePlot in
  let pl := laidOut sampleEngine samplePainter sampleRect noFlags samplePlot in
  let canvasRect := canvasRect (plotLayout pl) in
  let margin := inject_Z (canvasMargin (plotLayout pl) xBottom) in
  exists p' evs r map m,
    print sampleEngine (Some samplePainter) sampleRect noFlags samplePlot
    = Some (tt, p', evs)
    /\ omap canvasPrinted evs = [(r, map)]
    /\ map !! Z.to_nat xBottom = Some m
    /\ (xBottom = yLeft \/ xBottom = yRight ->
        p1 m = ((bottom canvasRect - 1 - margin) * m22 transform)%Q
        /\ p2 m = ((top canvasRect + margin) * m22 transform)%Q)
    /\ (xBottom = xBottom \/ xBottom = xTop ->
        p1 m = ((left canvasRect + margin) * m11 transform)%Q
        /\ p2 m = ((right canvasRect - 1 - margin) * m11 transform)%Q).
Proof.
  apply (C7_disabled_axis_interval sampleEngine samplePainter sampleRect
           noFlags samplePlot xBottom).
  - reflexivity.
  - apply samplePlot_printable.
  - apply elem_of_axisIds. right. right. left. reflexivity.
  - reflexivity.
Defined.

(** ** print(QPaintDevice &, ...): the rectangle of the device *)

(** *** Binary64 division and multiplication of 32-bit integers *)

Module DoubleFacts.

Import Double.

Lemma digits2_pos_size p : digits2_pos p = Pos.size p.
Proof. induction p; cbn; by rewrite ?IHp. Qed.

Lemma Zdigits2_bounds p :
  2 ^ (Zpos (digits2_pos p) - 1) <= Zpos p < 2 ^ Zpos (digits2_pos p).
Proof.
  rewrite digits2_pos_size. split.
  - pose proof (Pos.size_le p) as H.
    assert (Zpos (2 ^ Pos.size p) <= Zpos p~0) as H' by exact H.
    rewrite Pos2Z.inj_pow in H'.
    replace (Zpos (Pos.size p)) with (Z.succ (Zpos (Pos.size p) - 1)) in H' by lia.
    rewrite Z.pow_succ_r in H' by lia. lia.
  - pose proof (Pos.size_gt p) as H.
    assert (Zpos p < Zpos (2 ^ Pos.size p)) as H' by exact H.
    by rewrite Pos2Z.inj_pow in H'.
Qed.

Lemma digits2_pos_unique p n :
  2 ^ (n - 1) <= Zpos p < 2 ^ n -> Zpos (digits2_pos p) = n.
Proof.
  intros [Hlo Hhi]. pose proof (Zdigits2_bounds p) as [Hlo' Hhi'].
  assert (0 < n).
  { destruct (Z_lt_le_dec 0 n); [done|]. 
    assert (2 ^ n <= 1).
    { destruct (Z.eq_dec n 0) as [->|]; [done|]. rewrite Z.pow_neg_r; lia. }
    lia. }
  destruct (Z.lt_trichotomy (Zpos (digits2_pos p)) n) as [Hlt | [Heq | Hgt]]; [|done|].
  - assert (2 ^ Zpos (digits2_pos p) <= 2 ^ (n - 1)) by (apply Z.pow_le_mono_r; lia). lia.
  - assert (2 ^ n <= 2 ^ (Zpos (digits2_pos p) - 1)) by (apply Z.pow_le_mono_r; lia). lia.
Qed.

Lemma iter_xO p k : Zpos (Pos.iter xO p k) = Zpos p * 2 ^ Zpos k.
Proof.
  induction k as [|k IH] using Pos.peano_ind.
  - cbn. lia.
  - rewrite Pos.iter_succ, Pos2Z.inj_xO, IH, Pos2Z.inj_succ, Z.pow_succ_r by lia. lia.
Qed.

Lemma shr_1_m mrs : 0 <= shr_m mrs -> shr_m (shr_1 mrs) = shr_m mrs / 2.
Proof.
  destruct mrs as [m r s]. cbn [shr_m]. intros Hm. unfold shr_1.
  destruct m as [|[p|p|]|p]; cbn [shr_m].
  - done.
  - change (Zpos p~1) with (1 + 2 * Zpos p).
    rewrite (Z.mul_comm 2), Z.div_add by lia. done.
  - change (Zpos p~0) with (2 * Zpos p).
    rewrite (Z.mul_comm 2), Z.div_mul by lia. done.
  - done.
  - lia.
Qed.

Lemma pow2_xI n : 2 ^ Zpos n~1 = 2 * (2 ^ Zpos n * 2 ^ Zpos n).
Proof.
  replace (Zpos n~1) with (1 + (Zpos n + Zpos n)) by lia.
  by rewrite !Z.pow_add_r by lia.
Qed.

Lemma pow2_xO n : 2 ^ Zpos n~0 = 2 ^ Zpos n * 2 ^ Zpos n.
Proof.
  replace (Zpos n~0) with (Zpos n + Zpos n) by lia.
  by rewrite !Z.pow_add_r by lia.
Qed.

Lemma iter_pos_shr_1_m n : forall mrs,
  0 <= shr_m mrs -> shr_m (iter_pos shr_1 n mrs) = shr_m mrs / 2 ^ Zpos n.
Proof.
  assert (Hnn : forall mrs, 0 <= shr_m mrs -> 0 <= shr_m (shr_1 mrs)).
  { intros mrs H. rewrite shr_1_m by done. apply Z.div_pos; lia. }
  induction n as [n IH|n IH|]; intros mrs Hm; cbn [iter_pos].
  - assert (0 <= shr_m (iter_pos shr_1 n (shr_1 mrs))).
    { rewrite IH by auto. apply Z.div_pos; [auto | lia]. }
    rewrite IH, IH, shr_1_m by auto.
    rewrite pow2_xI, !Z.div_div by lia. done.
  - assert (0 <= shr_m (iter_pos shr_1 n mrs)).
    { rewrite IH by auto. apply Z.div_pos; [auto | lia]. }
    rewrite IH, IH by auto. rewrite pow2_xO, !Z.div_div by lia. done.
  - rewrite shr_1_m by done. done.
Qed.

Lemma Zdigits2_range q n :
  0 <= n -> 2 ^ (52 + n) <= q < 2 ^ (53 + n) -> Zdigits2 q = 53 + n.
Proof.
  intros Hn [Hlo Hhi].
  assert (0 < 2 ^ (52 + n)) by (apply Z.pow_pos_nonneg; lia).
  destruct q as [|qp|qp]; [lia | | lia].
  cbn [Zdigits2]. apply digits2_pos_unique.
  replace (53 + n - 1) with (52 + n) by lia. done.
Qed.

Lemma shr_fexp_spec q e l n :
  0 <= n -> 2 ^ (52 + n) <= q < 2 ^ (53 + n) -> -1074 <= e + n ->
  exists mrs,
    shr_fexp prec emax q e l = (mrs, e + n) /\ shr_m mrs = q / 2 ^ n.
Proof.
  intros Hn Hq He. unfold shr_fexp.
  rewrite (Zdigits2_range q n Hn Hq).
  assert (0 < 2 ^ (52 + n)) by (apply Z.pow_pos_nonneg; lia).
  replace (fexp prec emax (53 + n + e) - e) with n
    by (unfold fexp, emin, prec, emax; lia).
  assert (shr_m (shr_record_of_loc q l) = q) as Hm
    by (by destruct l as [|[]]).
  destruct n as [|k|k]; [ | | lia].
  - eexists. split; [cbn [shr]; by rewrite Z.add_0_r|].
    rewrite Hm. by rewrite Z.div_1_r.
  - eexists. split; [reflexivity|].
    rewrite iter_pos_shr_1_m by lia. by rewrite Hm.
Qed.

Lemma round_nearest_even_bounds m l :
  m <= round_nearest_even m l <= m + 1.
Proof.
  unfold round_nearest_even. destruct l as [|[]]; try lia.
  destruct (Z.even m); lia.
Qed.

Lemma binary_round_aux_spec s q e l n :
  0 <= n -> 2 ^ (52 + n) <= q < 2 ^ (53 + n) ->
  -1074 <= e + n -> e + n + 1 <= 971 ->
  exists m e2,
    binary_round_aux prec emax s q e l = S754_finite s m e2
    /\ 2 ^ 52 <= Zpos m < 2 ^ 53
    /\ ((e2 = e + n /\ q / 2 ^ n <= Zpos m <= q / 2 ^ n + 1)
        \/ (e2 = e + n + 1 /\ Zpos m = 2 ^ 52 /\ q / 2 ^ n = 2 ^ 53 - 1)).
Proof.
  intros Hn Hq Hlo Hhi.
  destruct (shr_fexp_spec q e l n Hn Hq Hlo) as (mrs & Hshr & Hm).
  unfold binary_round_aux. rewrite Hshr.
  set (q1 := round_nearest_even (shr_m mrs) (loc_of_shr_record mrs)).
  pose proof (round_nearest_even_bounds (shr_m mrs) (loc_of_shr_record mrs))
    as Hq1. fold q1 in Hq1. rewrite Hm in Hq1.
  assert (0 < 2 ^ n) by (apply Z.pow_pos_nonneg; lia).
  assert (2 ^ 52 <= q / 2 ^ n < 2 ^ 53) as Hdiv.
  { split.
    - apply Z.div_le_lower_bound; [done|].
      rewrite Z.mul_comm, <- Z.pow_add_r by lia. apply Hq.
    - apply Z.div_lt_upper_bound; [done|].
      rewrite <- Z.pow_add_r by lia. replace (n + 53) with (53 + n) by lia.
      apply Hq. }
  destruct (Z_lt_le_dec q1 (2 ^ 53)) as [Hlt|Hge].
  - destruct (shr_fexp_spec q1 (e + n) loc_Exact 0) as (mrs2 & Hshr2 & Hm2);
      [lia | cbn; lia | lia |].
    rewrite Z.add_0_r in Hshr2. rewrite Hshr2, Hm2, Z.div_1_r.
    destruct q1 as [|m|m] eqn:Eq1; [lia | | lia].
    exists m, (e + n). replace (e + n <=? emax - prec) with true
      by (symmetry; apply Z.leb_le; unfold emax, prec; lia).
    split; [done|]. split; [lia|]. left. lia.
  - assert (q1 = 2 ^ 53) as Eq1 by lia.
    destruct (shr_fexp_spec q1 (e + n) loc_Exact 1) as (mrs2 & Hshr2 & Hm2);
      [lia | rewrite Eq1; cbn; lia | lia |].
    rewrite Hshr2, Hm2, Eq1.
    exists (2 ^ 52)%positive, (e + n + 1).
    replace (e + n + 1 <=? emax - prec) with true
      by (symmetry; apply Z.leb_le; unfold emax, prec; lia).
    split; [done|]. split; [done|]. right. lia.
Qed.

Lemma shr_fexp_exact m e :
  2 ^ 52 <= Zpos m < 2 ^ 53 -> -1074 <= e ->
  shr_fexp prec emax (Zpos m) e loc_Exact
  = ({| shr_m := Zpos m; shr_r := false; shr_s := false |}, e).
Proof.
  intros Hm He. unfold shr_fexp.
  rewrite (Zdigits2_range (Zpos m) 0) by (cbn; lia).
  replace (fexp prec emax (53 + 0 + e) - e) with 0
    by (unfold fexp, emin, prec, emax; lia).
  reflexivity.
Qed.

Lemma binary_round_aux_exact s m e :
  2 ^ 52 <= Zpos m < 2 ^ 53 -> -1074 <= e <= 971 ->
  binary_round_aux prec emax s (Zpos m) e loc_Exact = S754_finite s m e.
Proof.
  intros Hm He. unfold binary_round_aux.
  rewrite shr_fexp_exact by lia. cbn [shr_m loc_of_shr_record round_nearest_even].
  rewrite shr_fexp_exact by lia. cbn [shr_m].
  replace (e <=? emax - prec) with true
    by (symmetry; apply Z.leb_le; unfold emax, prec; lia).
  reflexivity.
Qed.

Lemma of_int_pos z :
  0 < z < 2 ^ 31 ->
  exists m e,
    of_int z = S754_finite false m e
    /\ 2 ^ 52 <= Zpos m < 2 ^ 53
    /\ -52 <= e <= -22
    /\ Zpos m = z * 2 ^ (- e).
Proof.
  intros Hz. destruct z as [|p|p]; [lia | | lia].
  unfold of_int, binary_normalize, binary_round.
  pose proof (Zdigits2_bounds p) as Hd.
  set (d := Zpos (digits2_pos p)) in *.
  assert (1 <= d <= 31) as Hd31.
  { split; [subst d; lia|].
    destruct (Z_lt_le_dec 31 d); [|done].
    assert (2 ^ 31 <= 2 ^ (d - 1)) by (apply Z.pow_le_mono_r; lia). lia. }
  replace (fexp prec emax (d + 0)) with (d - 53)
    by (unfold fexp, emin, prec, emax; lia).
  unfold shl_align.
  destruct (d - 53 - 0) as [|k|k] eqn:Hk; [lia | lia |].
  assert (Zpos k = 53 - d) as Hk' by lia.
  assert (2 ^ 53 = 2 ^ d * 2 ^ Zpos k) as Hpow.
  { rewrite <- Z.pow_add_r by lia. f_equal. lia. }
  assert (2 ^ 52 = 2 ^ (d - 1) * 2 ^ Zpos k) as Hpow'.
  { rewrite <- Z.pow_add_r by lia. f_equal. lia. }
  assert (0 < 2 ^ Zpos k) by (apply Z.pow_pos_nonneg; lia).
  assert (2 ^ 52 <= Zpos (Pos.iter xO p k) < 2 ^ 53) as Hm.
  { rewrite iter_xO, Hpow, Hpow'. nia. }
  rewrite binary_round_aux_exact by lia.
  eexists _, _. split; [reflexivity|]. split; [done|]. split; [lia|].
  rewrite iter_xO. do 2 f_equal. lia.
Qed.

Lemma SFdiv_core_binary_spec m1 e1 m2 e2 :
  2 ^ 52 <= Zpos m1 < 2 ^ 53 -> 2 ^ 52 <= Zpos m2 < 2 ^ 53 ->
  -1000 <= e1 - e2 ->
  exists l,
    SFdiv_core_binary prec emax (Zpos m1) e1 (Zpos m2) e2
    = (Zpos m1 * 2 ^ 53 / Zpos m2, e1 - e2 - 53, l).
Proof.
  intros H1 H2 He. unfold SFdiv_core_binary.
  rewrite (Zdigits2_range (Zpos m1) 0), (Zdigits2_range (Zpos m2) 0)
    by (cbn; lia).
  replace (Z.min (fexp prec emax (53 + 0 + e1 - (53 + 0 + e2))) (e1 - e2))
    with (e1 - e2 - 53) by (unfold fexp, emin, prec, emax; lia).
  replace (e1 - e2 - (e1 - e2 - 53)) with 53 by lia.
  rewrite Z.shiftl_mul_pow2 by lia.
  pose proof (Z_div_mod (Zpos m1 * 2 ^ 53) (Zpos m2) eq_refl) as Hdm.
  unfold Z.div.
  destruct (Z.div_eucl (Zpos m1 * 2 ^ 53) (Zpos m2)) as [q r].
  by eexists.
Qed.

(** The quotient of two binary64 numbers with full mantissas. *)
Lemma SFdiv_finite_spec m1 e1 m2 e2 :
  2 ^ 52 <= Zpos m1 <= 2 ^ 53 - 2 ^ 22 -> 2 ^ 52 <= Zpos m2 < 2 ^ 53 ->
  -100 <= e1 - e2 <= 100 ->
  exists m,
    div (S754_finite false m1 e1) (S754_finite false m2 e2)
    = S754_finite false m
        (if Zpos m1 <? Zpos m2 then e1 - e2 - 53 else e1 - e2 - 52)
    /\ 2 ^ 52 <= Zpos m < 2 ^ 53.
Proof.
  intros H1 H2 He. unfold div, SFdiv.
  destruct (SFdiv_core_binary_spec m1 e1 m2 e2) as [l ->]; [lia | lia | lia |].
  cbn [xorb].
  set (q := Zpos m1 * 2 ^ 53 / Zpos m2).
  destruct (Z.ltb_spec (Zpos m1) (Zpos m2)) as [Hlt|Hge].
  - assert (2 ^ 52 <= q <= 2 ^ 53 - 2) as Hq.
    { subst q. split.
      - apply Z.div_le_lower_bound; lia.
      - enough (Zpos m1 * 2 ^ 53 / Zpos m2 < 2 ^ 53 - 1) by lia.
        apply Z.div_lt_upper_bound; lia. }
    destruct (binary_round_aux_spec false q (e1 - e2 - 53) l 0)
      as (m & e & Hr & Hm & Hcase); [lia | cbn; lia | lia | lia |].
    rewrite Z.div_1_r in Hcase.
    exists m. split; [|done]. rewrite Hr. f_equal. lia.
  - assert (2 ^ 53 <= q <= 2 ^ 54 - 2 ^ 23) as Hq.
    { subst q. split.
      - apply Z.div_le_lower_bound; lia.
      - transitivity (Zpos m1 * 2 ^ 53 / 2 ^ 52).
        + apply Z.div_le_compat_l; lia.
        + replace (Zpos m1 * 2 ^ 53) with (2 * Zpos m1 * 2 ^ 52) by lia.
          rewrite Z.div_mul by lia. lia. }
    destruct (binary_round_aux_spec false q (e1 - e2 - 53) l 1)
      as (m & e & Hr & Hm & Hcase); [lia | cbn; lia | lia | lia |].
    exists m. split; [|done]. rewrite Hr. f_equal.
    destruct Hcase as [[-> _] | (_ & _ & Hc)]; [lia|].
    assert (q / 2 ^ 1 <= (2 ^ 54 - 2 ^ 23) / 2 ^ 1) as Hhalf
      by (apply Z.div_le_mono; lia).
    change ((2 ^ 54 - 2 ^ 23) / 2 ^ 1) with (2 ^ 53 - 2 ^ 22) in Hhalf.
    lia.
Qed.

Lemma SFltb_one m e :
  2 ^ 52 <= Zpos m -> ltb (S754_finite false m e) one = (e <? -52).
Proof.
  intros Hm. change one with (S754_finite false (2 ^ 52)%positive (-52)).
  unfold ltb, SFltb, SFcompare.
  destruct (Z.compare_spec e (-52)) as [-> | Hlt | Hgt].
  - rewrite Pos.compare_cont_spec. cbn [Pos.switch_Eq].
    destruct (Pos.compare_spec m (2 ^ 52)) as [-> | Hlt' | Hgt']; try done.
    assert (Zpos m < Zpos (2 ^ 52)) as Hlt'' by exact Hlt'.
    change (Zpos (2 ^ 52)) with (2 ^ 52) in Hlt''. lia.
  - symmetry. by apply Z.ltb_lt.
  - symmetry. apply Z.ltb_ge. lia.
Qed.

Lemma pow2_split a b : 0 <= b <= a -> 2 ^ a = 2 ^ b * 2 ^ (a - b).
Proof. intros H. rewrite <- Z.pow_add_r by lia. f_equal. lia. Qed.

Lemma pow2_ge_1 c : 0 <= c -> 1 <= 2 ^ c.
Proof. intros H. pose proof (Z.pow_pos_nonneg 2 c). lia. Qed.

Lemma pow2_ge_2 c : 0 < c -> 2 <= 2 ^ c.
Proof.
  intros H. replace c with (Z.succ (c - 1)) by lia.
  rewrite Z.pow_succ_r by lia. pose proof (pow2_ge_1 (c - 1)). lia.
Qed.

(** The quotient of two positive 32-bit integers, in binary64. *)
Lemma div_ints_spec w h :
  0 < w < 2 ^ 31 -> 0 < h < 2 ^ 31 ->
  exists q ea,
    div (of_int w) (of_int h) = S754_finite false q ea
    /\ 2 ^ 52 <= Zpos q < 2 ^ 53
    /\ -83 <= ea <= 0
    /\ (ea <? -52) = (w <? h).
Proof.
  intros Hw Hh.
  destruct (of_int_pos w Hw) as (m1 & e1 & -> & Hm1 & He1 & Hv1).
  destruct (of_int_pos h Hh) as (m2 & e2 & -> & Hm2 & He2 & Hv2).
  set (a := - e1) in *. set (b := - e2) in *.
  assert (0 < 2 ^ a) as Ha by (apply Z.pow_pos_nonneg; lia).
  assert (0 < 2 ^ b) as Hb by (apply Z.pow_pos_nonneg; lia).
  assert (Zpos m1 <= 2 ^ 53 - 2 ^ 22) as Hm1'.
  { pose proof (pow2_split 53 a ltac:(lia)) as H53.
    pose proof (pow2_split a 22 ltac:(lia)) as H22.
    pose proof (pow2_ge_1 (a - 22) ltac:(lia)).
    pose proof (pow2_ge_1 (53 - a) ltac:(lia)).
    assert (w < 2 ^ (53 - a)) by nia.
    assert (Zpos m1 <= 2 ^ 53 - 2 ^ a) by nia.
    nia. }
  destruct (SFdiv_finite_spec m1 e1 m2 e2) as (q & Hq & Hqb); [lia | lia | lia |].
  eexists q, _. split; [exact Hq|]. split; [done|].
  destruct (Z.ltb_spec (Zpos m1) (Zpos m2)) as [Hlt|Hge].
  - split; [lia|].
    destruct (Z_le_gt_dec b a) as [Hba|Hba].
    + replace (e1 - e2 - 53 <? -52) with true
        by (symmetry; apply Z.ltb_lt; lia).
      symmetry. apply Z.ltb_lt.
      pose proof (pow2_split a b ltac:(lia)) as Hs.
      pose proof (pow2_ge_1 (a - b) ltac:(lia)). nia.
    + replace (e1 - e2 - 53 <? -52) with false
        by (symmetry; apply Z.ltb_ge; lia).
      symmetry. apply Z.ltb_ge.
      pose proof (pow2_split b a ltac:(lia)) as Hs.
      pose proof (pow2_ge_2 (b - a) ltac:(lia)). nia.
  - split; [lia|].
    destruct (Z_lt_ge_dec b a) as [Hba|Hba].
    + replace (e1 - e2 - 52 <? -52) with true
        by (symmetry; apply Z.ltb_lt; lia).
      symmetry. apply Z.ltb_lt.
      pose proof (pow2_split a b ltac:(lia)) as Hs.
      pose proof (pow2_ge_2 (a - b) ltac:(lia)). nia.
    + replace (e1 - e2 - 52 <? -52) with false
        by (symmetry; apply Z.ltb_ge; lia).
      symmetry. apply Z.ltb_ge.
      pose proof (pow2_split b a ltac:(lia)) as Hs.
      pose proof (pow2_ge_1 (b - a) ltac:(lia)). nia.
Qed.

Lemma to_int_neg_exp m e :
  e < 0 -> to_int (S754_finite false m e) = Zpos m / 2 ^ (- e).
Proof.
  intros He. destruct e as [|k|k]; [lia | lia |].
  cbn [to_int]. by rewrite Z.shiftr_div_pow2.
Qed.

(** A binary64 number below 1 times a positive 32-bit integer, truncated,
    is at most that integer. *)
Lemma mul_below_one_bound w q ea :
  0 < w < 2 ^ 31 -> 2 ^ 52 <= Zpos q < 2 ^ 53 -> -83 <= ea <= -53 ->
  0 <= to_int (mul (S754_finite false q ea) (of_int w)) <= w.
Proof.
  intros Hw Hq Hea.
  destruct (of_int_pos w Hw) as (m1 & e1 & -> & Hm1 & He1 & Hv1).
  unfold mul, SFmul. cbn [xorb]. rewrite Pos2Z.inj_mul.
  set (P := Zpos q * Zpos m1).
  assert (2 ^ 104 <= P < 2 ^ 106) as HP.
  { change (2 ^ 104) with (2 ^ 52 * 2 ^ 52).
    change (2 ^ 106) with (2 ^ 53 * 2 ^ 53). subst P. nia. }
  assert (exists n, (n = 52 \/ n = 53) /\ 2 ^ (52 + n) <= P < 2 ^ (53 + n))
    as (n & Hn & HPn).
  { destruct (Z_lt_le_dec P (2 ^ 105)).
    - exists 52. split; [by left|]. cbn. split; [apply HP | done].
    - exists 53. split; [by right|]. cbn. split; [done | apply HP]. }
  destruct (binary_round_aux_spec false P (ea + e1) loc_Exact n)
    as (m & e' & -> & Hm & Hcase); [lia | done | lia | lia |].
  set (K := - (ea + e1 + n)).
  assert (22 <= K) by lia.
  assert (0 < 2 ^ n) by (apply Z.pow_pos_nonneg; lia).
  assert (P / 2 ^ n < w * 2 ^ K) as Hdiv.
  { apply Z.div_lt_upper_bound; [done|].
    replace (2 ^ n * (w * 2 ^ K)) with (w * 2 ^ (n + K)) by
      (rewrite Z.pow_add_r by lia; lia).
    replace (n + K) with (- ea + - e1) by lia.
    rewrite Z.pow_add_r by lia. subst P. rewrite Hv1.
    assert (2 ^ 53 <= 2 ^ (- ea)) by (apply Z.pow_le_mono_r; lia).
    assert (0 < 2 ^ (- e1)) by (apply Z.pow_pos_nonneg; lia).
    nia. }
  assert (0 < 2 ^ K) by (apply Z.pow_pos_nonneg; lia).
  destruct Hcase as [[-> Hmm] | (-> & Hm52 & Hc)].
  - rewrite to_int_neg_exp by lia. fold K. split.
    + apply Z.div_pos; lia.
    + apply Z.div_le_upper_bound; [done|]. lia.
  - rewrite to_int_neg_exp by lia.
    replace (- (ea + e1 + n + 1)) with (K - 1) by lia.
    assert (0 < 2 ^ (K - 1)) by (apply Z.pow_pos_nonneg; lia).
    assert (2 ^ K = 2 * 2 ^ (K - 1)) as HK.
    { replace K with (Z.succ (K - 1)) at 1 by lia.
      by rewrite Z.pow_succ_r by lia. }
    split.
    + apply Z.div_pos; lia.
    + apply Z.div_le_upper_bound; [done|].
      rewrite Hm52. change (2 ^ 53) with (2 * 2 ^ 52) in Hc. nia.
Qed.

Lemma of_int_0 : of_int 0 = S754_zero false.
Proof. reflexivity. Qed.

(** [double(w) / double(h) < 1.0] exactly when [w < h]. *)
Lemma aspect_below_one w h :
  0 <= w < 2 ^ 31 -> 0 <= h < 2 ^ 31 ->
  ltb (div (of_int w) (of_int h)) one = (w <? h).
Proof.
  intros Hw Hh.
  destruct (Z.eq_dec w 0) as [-> | Hw0]; destruct (Z.eq_dec h 0) as [-> | Hh0].
  - reflexivity.
  - destruct (of_int_pos h ltac:(lia)) as (m2 & e2 & -> & _).
    rewrite of_int_0. unfold div, ltb. cbn. symmetry. apply Z.ltb_lt. lia.
  - destruct (of_int_pos w ltac:(lia)) as (m1 & e1 & -> & _).
    rewrite of_int_0. unfold div, ltb. cbn. symmetry. apply Z.ltb_ge. lia.
  - destruct (div_ints_spec w h) as (q & ea & -> & Hq & _ & <-); [lia | lia |].
    apply SFltb_one. lia.
Qed.

End DoubleFacts.

(** On a device of width 165 and height 225 the rounding of the quotient
    shows: the height is 120, one less than the integer part of
    165 * 165 / 225. *)
Lemma paintDeviceRect_165_225 :
  paintDeviceRect 165 225
  = {| ix := 0; iy := 0; iwidth := 165; iheight := 120 |}
  /\ 165 * 165 / 225 = 121.
Proof. split; reflexivity. Qed.

(** C10: for a device of width [w] and height [h] (two non-negative 32-bit
    integers) the rectangle handed to [print] starts at (0, 0) and has the
    width [w]; its height is [h] when [h <= w] (landscape and square), and
    [int((double(w) / double(h)) * w)] in binary64 when [w < h] (portrait),
    which is at most [w] and so less than the height of the device. *)
Theorem C10_paintDeviceRect w h :
  0 <= w < 2 ^ 31 -> 0 <= h < 2 ^ 31 ->
  paintDeviceRect w h
  = (if w <? h then
       {| ix := 0; iy := 0; iwidth := w;
          iheight :=
            Double.to_int
              (Double.mul (Double.div (Double.of_int w) (Double.of_int h))
                 (Double.of_int w)) |}
     else {| ix := 0; iy := 0; iwidth := w; iheight := h |})
  /\ (w < h -> 0 <= iheight (paintDeviceRect w h) <= w)
  /\ (forall engine paintDev pfilter p,
        dev_width paintDev = w -> dev_height paintDev = h ->
        printDevice engine paintDev pfilter p
        = print engine (Some (dev_painter paintDev))
            (toRectF (paintDeviceRect w h)) pfilter p).
Proof.
  intros Hw Hh.
  assert (paintDeviceRect w h
          = (if w <? h then
               {| ix := 0; iy := 0; iwidth := w;
                  iheight :=
                    Double.to_int
                      (Double.mul
                         (Double.div (Double.of_int w) (Double.of_int h))
                         (Double.of_int w)) |}
             else {| ix := 0; iy := 0; iwidth := w; iheight := h |})) as Heq.
  { unfold paintDeviceRect. cbn [iwidth iheight].
    rewrite (DoubleFacts.aspect_below_one w h Hw Hh).
    by destruct (w <? h). }
  split; [exact Heq | split].
  - intros Hlt. rewrite Heq. apply Z.ltb_lt in Hlt as Hltb. rewrite Hltb.
    cbn [iheight].
    destruct (Z.eq_dec w 0) as [-> | Hw0].
    + destruct (DoubleFacts.of_int_pos h ltac:(lia)) as (m2 & e2 & -> & _).
      cbn. lia.
    + destruct (DoubleFacts.div_ints_spec w h)
        as (q & ea & -> & Hq & Hea & Hlt'); [lia | lia |].
      rewrite Hltb in Hlt'. apply Z.ltb_lt in Hlt'.
      apply DoubleFacts.mul_below_one_bound; lia.
  - intros engine paintDev pfilter p <- <-. reflexivity.
Qed.

Lemma C10_witness :
  paintDeviceRect 165 225
  = (if 165 <? 225 then
       {| ix := 0; iy := 0; iwidth := 165;
          iheight :=
            Double.to_int
              (Double.mul
                 (Double.div (Double.of_int 165) (Double.of_int 225))
                 (Double.of_int 165)) |}
     else {| ix := 0; iy := 0; iwidth := 165; iheight := 225 |})
  /\ (165 < 225 -> 0 <= iheight (paintDeviceRect 165 225) <= 165)
  /\ (forall engine paintDev pfilter p,
        dev_width paintDev = 165 -> dev_height paintDev = 225 ->
        printDevice engine paintDev pfilter p
        = print engine (Some (dev_painter paintDev))
            (toRectF (paintDeviceRect 165 225)) pfilter p).
Proof.
  apply (C10_paintDeviceRect 165 225); lia.
Defined.

(** * Further properties of qwt_plot_print.cpp *)

(** ** printScale: what is drawn, and when there is a result *)

Lemma scaleGeometry_None a s e b r :
  a ∉ axisIds -> scaleGeometry a s e b r = None.
Proof.
  intros Ha. unfold scaleGeometry.
  destruct (Z.eqb_spec a yLeft) as [->|_];
    [exfalso; apply Ha, elem_of_axisIds; tauto|].
  destruct (Z.eqb_spec a yRight) as [->|_];
    [exfalso; apply Ha, elem_of_axisIds; tauto|].
  destruct (Z.eqb_spec a xTop) as [->|_];
    [exfalso; apply Ha, elem_of_axisIds; tauto|].
  destruct (Z.eqb_spec a xBottom) as [->|_];
    [exfalso; apply Ha, elem_of_axisIds; tauto|].
  reflexivity.
Qed.

(** [printScale] draws nothing for a disabled axis, whether the axis has a
    scale widget or not; for an axis id that is none of the four axes it
    draws nothing but the colour bar, which comes before the [switch]. *)
Theorem printScale_disabled_or_unknown_axis
    axisId startDist endDist baseDist rect p :
  axisOk p axisId ->
  exists evs,
    printScale axisId startDist endDist baseDist rect p = Some (tt, p, evs)
    /\ (axisEnabled p axisId = false ->
        evs = [PrintScale_ axisId startDist endDist baseDist rect])
    /\ (axisId ∉ axisIds ->
        forall e, e ∈ evs -> isVectorDraw e = true ->
          exists r, e = DrawColorBar axisId r).
Proof.
  intros Hok. eexists. split; [by apply printScale_run|].
  unfold printScaleEvents. split.
  - by intros ->.
  - intros Ha e He Hdraw.
    destruct (axisEnabled p axisId); cbn [negb] in He.
    + destruct (axisWidget p !! axisId) as [w|].
      * rewrite scaleGeometry_None, app_nil_r in He by done.
        destruct (colorBarShown w).
        -- apply elem_of_cons in He as [-> | He]; [discriminate Hdraw|].
           apply list_elem_of_singleton in He as ->. by eexists.
        -- apply list_elem_of_singleton in He as ->. discriminate Hdraw.
      * apply list_elem_of_singleton in He as ->. discriminate Hdraw.
    + apply list_elem_of_singleton in He as ->. discriminate Hdraw.
Qed.

Lemma printScale_disabled_or_unknown_axis_witness :
  exists evs,
    printScale 7 3 5 4 (rectF 0 20 40 240) strayAxisPlot
    = Some (tt, strayAxisPlot, evs)
    /\ (axisEnabled strayAxisPlot 7 = false ->
        evs = [PrintScale_ 7 3 5 4 (rectF 0 20 40 240)])
    /\ (7 ∉ axisIds ->
        forall e, e ∈ evs -> isVectorDraw e = true ->
          exists r, e = DrawColorBar 7 r).
Proof.
  apply (printScale_disabled_or_unknown_axis 7 3 5 4 (rectF 0 20 40 240)
           strayAxisPlot).
  intros _. exists sampleWidget. reflexivity.
Defined.

(** [printScale] has a result exactly when it dereferences no null pointer:
    unless the axis is enabled and has no scale widget. *)
Theorem printScale_result_iff axisId startDist endDist baseDist rect p :
  is_Some (printScale axisId startDist endDist baseDist rect p)
  <-> (axisEnabled p axisId = true -> is_Some (axisWidget p !! axisId)).
Proof.
  split.
  - intros Hsome Hen. destruct (axisWidget p !! axisId) as [w|] eqn:Hw;
      [by eexists|].
    destruct (printScale_null axisId startDist endDist baseDist rect p Hen Hw)
      as [Hnull _].
    rewrite Hnull in Hsome. by destruct Hsome.
  - intros Hok. rewrite printScale_run by exact Hok. by eexists.
Qed.

(** ** The geometry of a scale on a rectangle with integer coordinates *)

Lemma d2i_inject_Z q z : (q == inject_Z z)%Q -> d2i q = z.
Proof.
  unfold Qeq, d2i. cbn [Qnum Qden inject_Z]. intros H.
  rewrite Z.mul_1_r in H. rewrite H. apply Z.quot_mul. lia.
Qed.

Lemma isSmall_spec z : isSmall z = true -> - 2 ^ 29 <= z < 2 ^ 29.
Proof. unfold isSmall. lia. Qed.

Lemma isInt_spec z : isInt z = true <-> - 2 ^ 31 <= z < 2 ^ 31.
Proof. unfold isInt. lia. Qed.

(** On a rectangle with integer coordinates, all numbers being small enough
    for the position and the length of the scale to be within the range of
    [int]: along its axis the scale starts [startDist] after the near edge of
    the rectangle and ends [endDist] before the far edge; across it the base
    line lies [baseDist] from the edge that faces the canvas (for the left
    axis one pixel more), and the alignment is that of the axis. *)
Theorem scaleGeometry_in_rect rx0 ry0 rw0 rh0 axisId startDist endDist baseDist :
  axisId ∈ axisIds ->
  isSmall rx0 = true -> isSmall ry0 = true ->
  isSmall rw0 = true -> isSmall rh0 = true ->
  isSmall startDist = true -> isSmall endDist = true ->
  isSmall baseDist = true ->
  exists x y len align,
    scaleGeometry axisId startDist endDist baseDist (rectF rx0 ry0 rw0 rh0)
    = Some (x, y, len, align)
    /\ isInt x = true /\ isInt y = true /\ isInt len = true
    /\ (axisId = yLeft \/ axisId = yRight ->
        y = ry0 + startDist /\ y + len + endDist = ry0 + rh0)
    /\ (axisId = xTop \/ axisId = xBottom ->
        x = rx0 + startDist /\ x + len + endDist = rx0 + rw0)
    /\ (axisId = yLeft -> x = rx0 + rw0 - 1 - baseDist /\ align = LeftScale)
    /\ (axisId = yRight -> x = rx0 + baseDist /\ align = RightScale)
    /\ (axisId = xTop -> y = ry0 + rh0 - baseDist /\ align = TopScale)
    /\ (axisId = xBottom -> y = ry0 + baseDist /\ align = BottomScale).
Proof.
  intros Ha Hrx%isSmall_spec Hry%isSmall_spec Hrw%isSmall_spec
    Hrh%isSmall_spec Hs%isSmall_spec He%isSmall_spec Hb%isSmall_spec.
  change (2 ^ 29) with 536870912 in *.
  apply elem_of_axisIds in Ha.
  assert (forall a b, d2i (inject_Z a + inject_Z b) = a + b) as Hadd.
  { intros a b. apply d2i_inject_Z. rewrite inject_Z_plus. reflexivity. }
  assert (forall a b c,
            d2i (inject_Z a - inject_Z b - inject_Z c) = a - b - c) as Hsub.
  { intros a b c. apply d2i_inject_Z.
    unfold Z.sub. rewrite !inject_Z_plus, !inject_Z_opp. reflexivity. }
  assert (forall a b c,
            d2i (inject_Z a + inject_Z b - inject_Z c) = a + b - c) as Hmix.
  { intros a b c. apply d2i_inject_Z.
    unfold Z.sub. rewrite !inject_Z_plus, !inject_Z_opp. reflexivity. }
  assert (forall a b c,
            d2i (inject_Z a + inject_Z b - 1 - inject_Z c) = a + b - 1 - c)
    as Hleft.
  { intros a b c. apply d2i_inject_Z.
    unfold Z.sub. rewrite !inject_Z_plus, !inject_Z_opp. reflexivity. }
  destruct Ha as [-> | [-> | [-> | ->]]];
    (eexists _, _, _, _; split; [reflexivity|]);
    unfold rectF, right, left, top, bottom; cbn [rx ry rwidth rheight];
    rewrite ?Hadd, ?Hsub, ?Hmix, ?Hleft;
    rewrite !isInt_spec; change (2 ^ 31) with 2147483648;
    repeat split; intros; try discriminate; try lia;
    try (match goal with H : _ \/ _ |- _ => destruct H; discriminate end).
Qed.

Lemma scaleGeometry_in_rect_witness :
  exists x y len align,
    scaleGeometry yLeft 3 5 4 (rectF 0 20 40 240) = Some (x, y, len, align)
    /\ isInt x = true /\ isInt y = true /\ isInt len = true
    /\ (yLeft = yLeft \/ yLeft = yRight ->
        y = 20 + 3 /\ y + len + 5 = 20 + 240)
    /\ (yLeft = xTop \/ yLeft = xBottom ->
        x = 0 + 3 /\ x + len + 5 = 0 + 40)
    /\ (yLeft = yLeft -> x = 0 + 40 - 1 - 4 /\ align = LeftScale)
    /\ (yLeft = yRight -> x = 0 + 4 /\ align = RightScale)
    /\ (yLeft = xTop -> y = 20 + 240 - 4 /\ align = TopScale)
    /\ (yLeft = xBottom -> y = 20 + 4 /\ align = BottomScale).
Proof.
  apply (scaleGeometry_in_rect 0 20 40 240 yLeft 3 5 4);
    [apply elem_of_axisIds; left; reflexivity | reflexivity ..].
Defined.

(** ** The legend *)

Lemma bind_result {A B} (m : M A) (f : A -> M B) p r :
  bind m f p = Some r ->
  exists a p1 l1 b p2 l2,
    m p = Some (a, p1, l1) /\ f a p1 = Some (b, p2, l2)
    /\ r = (b, p2, l1 ++ l2).
Proof.
  unfold bind. destruct (m p) as [[[a p1] l1]|]; [|done].
  destruct (f a p1) as [[[b p2] l2]|] eqn:Hf; [|done].
  intros [= <-]. by exists a, p1, l1, b, p2, l2.
Qed.

Lemma printLegendItem_calls i w rect p :
  is_Some (legend p) ->
  printLegendItem i w rect p = Some (tt, p, legendItemCalls i w rect).
Proof.
  intros [lg Hlg]. unfold printLegendItem, legendItemCalls.
  destruct (li_isLegendItem w); [|reflexivity].
  unfold bind, get, deref, when. rewrite Hlg. cbn.
  by destruct (li_hasManager w).
Qed.

Lemma clipRects_legendItemCalls i w rect :
  omap clipRectOf (legendItemCalls i w rect) = [].
Proof.
  unfold legendItemCalls.
  by destruct (li_isLegendItem w), (li_hasManager w).
Qed.

(** A widget that is no QwtLegendItem is not drawn.  For a legend item, the
    numbers being within the range of [int]: when the legend finds the
    manager of the item the identifier is drawn first, between a [save] and a
    [restore], into the rectangle
    [(int(rect.x() + margin), int(rect.y()), identifierWidth,
    int(rect.height()))], and not at all otherwise; then the font of the item
    is set and the label is drawn, last, into a rectangle that keeps the top,
    the height and the right edge of the item rectangle and begins two
    spacings after the last pixel column of the identifier. *)
Theorem printLegendItem_label i w rect p :
  is_Some (legend p) ->
  (li_isLegendItem w = false ->
   printLegendItem i w rect p = Some (tt, p, []))
  /\ (li_isLegendItem w = true ->
      isInt (d2i (rx rect + inject_Z (li_margin w))) = true ->
      isInt (d2i (ry rect)) = true ->
      isInt (d2i (rheight rect)) = true ->
      isInt (d2i (rx rect + inject_Z (li_margin w))
             + li_identifierWidth w - 1 + 2 * li_spacing w) = true ->
      exists identifierRect labelRect,
        printLegendItem i w rect p
        = Some (tt, p,
                (if li_hasManager w
                 then [ PainterSave;
                        DrawLegendIdentifier i identifierRect;
                        PainterRestore ]
                 else [])
                ++ [ SetFont (LegendItemOf i);
                     DrawLegendItemText i labelRect ])
        /\ identifierRect
           = {| ix := d2i (rx rect + inject_Z (li_margin w));
                iy := d2i (ry rect);
                iwidth := li_identifierWidth w;
                iheight := d2i (rheight rect) |}
        /\ (right labelRect == right rect)%Q
        /\ (left labelRect
            == inject_Z (ix identifierRect + li_identifierWidth w - 1
                         + 2 * li_spacing w))%Q
        /\ top labelRect = top rect
        /\ rheight labelRect = rheight rect).
Proof.
  intros Hlg. rewrite (printLegendItem_calls i w rect p Hlg).
  unfold legendItemCalls. split; intros ->; [reflexivity|].
  intros _ _ _ _.
  exists (legendIdentifierRect w rect), (legendLabelRect w rect).
  split; [reflexivity|]. split; [reflexivity|].
  unfold legendLabelRect, setX, right, left, top, QRect_right,
    legendIdentifierRect. cbn [rx ry rwidth rheight ix iwidth].
  repeat split; ring.
Qed.

Lemma printLegendItem_label_witness :
  (li_isLegendItem sampleItem = false ->
   printLegendItem 0 sampleItem (rectF 0 280 400 10) samplePlot
   = Some (tt, samplePlot, []))
  /\ (li_isLegendItem sampleItem = true ->
      isInt (d2i (rx (rectF 0 280 400 10)
                  + inject_Z (li_margin sampleItem))) = true ->
      isInt (d2i (ry (rectF 0 280 400 10))) = true ->
      isInt (d2i (rheight (rectF 0 280 400 10))) = true ->
      isInt (d2i (rx (rectF 0 280 400 10) + inject_Z (li_margin sampleItem))
             + li_identifierWidth sampleItem - 1
             + 2 * li_spacing sampleItem) = true ->
      exists identifierRect labelRect,
        printLegendItem 0 sampleItem (rectF 0 280 400 10) samplePlot
        = Some (tt, samplePlot,
                (if li_hasManager sampleItem
                 then [ PainterSave;
                        DrawLegendIdentifier 0 identifierRect;
                        PainterRestore ]
                 else [])
                ++ [ SetFont (LegendItemOf 0);
                     DrawLegendItemText 0 labelRect ])
        /\ identifierRect
           = {| ix := d2i (rx (rectF 0 280 400 10)
                           + inject_Z (li_margin sampleItem));
                iy := d2i (ry (rectF 0 280 400 10));
                iwidth := li_identifierWidth sampleItem;
                iheight := d2i (rheight (rectF 0 280 400 10)) |}
        /\ (right labelRect == right (rectF 0 280 400 10))%Q
        /\ (left labelRect
            == inject_Z (ix identifierRect + li_identifierWidth sampleItem - 1
                         + 2 * li_spacing sampleItem))%Q
        /\ top labelRect = top (rectF 0 280 400 10)
        /\ rheight labelRect = rheight (rectF 0 280 400 10)).
Proof.
  apply (printLegendItem_label 0 sampleItem (rectF 0 280 400 10) samplePlot).
  exists sampleLegend. reflexivity.
Defined.

Lemma widgetCount_cons item items :
  widgetCount (item :: items)
  = ((if li_widget item then 1 else 0) + widgetCount items)%nat.
Proof.
  unfold widgetCount. rewrite filter_cons.
  destruct (li_widget item); [by rewrite decide_True|].
  by rewrite decide_False.
Qed.

(** The loop of [printLegend]: the children that have a widget get the
    rectangles [index], [index + 1], ... in their order, the children without
    a widget use none up; without a rectangle for a child there is no
    result. *)
Lemma printLegendItems_rects items : forall i index itemRects p,
  is_Some (legend p) ->
  (is_Some (printLegendItems items i index itemRects p)
   <-> widgetCount items = 0%nat
       \/ (index + widgetCount items <= length itemRects)%nat)
  /\ forall r, printLegendItems items i index itemRects p = Some r ->
       r.1.2 = p
       /\ omap clipRectOf r.2 = take (widgetCount items) (drop index itemRects).
Proof.
  induction items as [|item items IH]; intros i index itemRects p Hlg.
  - split; [split; [by left | by eexists] |].
    intros r [= <-]. by rewrite take_0.
  - cbn [printLegendItems]. rewrite widgetCount_cons.
    destruct (IH (S i) (S index) itemRects p Hlg) as [IHsome IHres].
    destruct (li_widget item) eqn:Hw.
    + destruct (itemRects !! index) as [rc|] eqn:Hrc.
      * assert (forall k : M unit,
          (emit PainterSave ;;; emit (SetClipping true) ;;;
           do r0 <- deref (Some rc);
           emit (SetClipRect r0) ;;; printLegendItem i item (toRectF r0) ;;;
           emit PainterRestore ;;; k) p
          = match k p with
            | Some (b, p2, l2) =>
                Some (b, p2,
                      [PainterSave; SetClipping true; SetClipRect rc]
                      ++ legendItemCalls i item (toRectF rc)
                      ++ [PainterRestore] ++ l2)
            | None => None
            end) as Hstep.
        { intros k. unfold bind, emit, deref, ret. cbn.
          rewrite (printLegendItem_calls i item (toRectF rc) p Hlg). cbn.
          by destruct (k p) as [[[b p2] l2]|]. }
        rewrite Hstep. clear Hstep.
        pose proof (lookup_lt_Some _ _ _ Hrc) as Hlt.
        split.
        -- destruct (printLegendItems items (S i) (S index) itemRects p)
             as [[[b p2] l2]|] eqn:Hrest.
           ++ split; [intros _; right | by eexists].
              destruct (proj1 IHsome ltac:(by eexists)) as [H0 | Hle]; lia.
           ++ split; [by intros [? ?] |].
              intros [H0 | Hle]; [lia|].
              assert (is_Some (@None (unit * QwtPlot * list Event))) as [? ?];
                [apply IHsome; lia | done].
        -- intros r Hr.
           destruct (printLegendItems items (S i) (S index) itemRects p)
             as [[[b p2] l2]|] eqn:Hrest; [|done].
           injection Hr as <-. cbn [fst snd].
           destruct (IHres _ eq_refl) as [Hp Hclip]. cbn [fst snd] in Hp, Hclip.
           split; [done|].
           rewrite (drop_S _ _ _ Hrc). cbn [Nat.add take].
           cbn [omap list_omap clipRectOf app].
           rewrite omap_app, clipRects_legendItemCalls.
           cbn [omap list_omap clipRectOf app].
           by rewrite <- Hclip.
      * replace ((emit PainterSave ;;; emit (SetClipping true) ;;;
                  do r0 <- deref None;
                  emit (SetClipRect r0) ;;;
                  printLegendItem i item (toRectF r0) ;;;
                  emit PainterRestore ;;;
                  printLegendItems items (S i) (S index) itemRects) p)
          with (@None (unit * QwtPlot * list Event))
          by reflexivity.
        apply lookup_ge_None in Hrc.
        split; [|done].
        split; [by intros [? ?] | intros [H0 | Hle]; lia].
    + destruct (IH (S i) index itemRects p Hlg) as [IHsome' IHres'].
      cbn [Nat.add]. split; [exact IHsome' | exact IHres'].
Qed.



(** ** The painter during a call of print *)

Lemma depthAfter_app evs1 : forall d evs2,
  depthAfter d (evs1 ++ evs2)
  = match depthAfter d evs1 with
    | Some d' => depthAfter d' evs2
    | None => None
    end.
Proof.
  induction evs1 as [|e evs1 IH]; intros d evs2; [done|].
  cbn [app depthAfter]. destruct (nesting d e); [apply IH | done].
Qed.

Lemma depthAfter_level evs :
  (forall d, depthAfter d evs = Some d) ->
  forall evs' d, depthAfter d (evs ++ evs') = depthAfter d evs'.
Proof. intros H evs' d. by rewrite depthAfter_app, H. Qed.

Lemma paintRun_app evs1 : forall pt evs2,
  paintRun pt (evs1 ++ evs2)
  = match paintRun pt evs1 with
    | Some pt' => paintRun pt' evs2
    | None => None
    end.
Proof.
  induction evs1 as [|e evs1 IH]; intros pt evs2; [done|].
  cbn [app paintRun]. destruct (paintStep pt e); [apply IH | done].
Qed.

Lemma paintAfter_run evs : forall pt pt',
  paintRun pt evs = Some pt' -> paintAfter pt evs = pt'.
Proof.
  induction evs as [|e evs IH]; intros pt pt'; cbn; [by intros [= ->]|].
  destruct (paintStep pt e) as [pt1|]; [|done]. apply IH.
Qed.

Lemma transformsAt_app evs1 : forall pt evs2,
  transformsAt pt (evs1 ++ evs2)
  = transformsAt pt evs1 ++ transformsAt (paintAfter pt evs1) evs2.
Proof.
  induction evs1 as [|e evs1 IH]; intros pt evs2; [done|].
  cbn [app transformsAt]. by rewrite IH.
Qed.

(** A log nested from depth [d] to depth [d'], whose setters keep a property
    [P] of the painter state: the painter runs through it above the stack it
    began on, and [P] holds of the state at every call. *)
Lemma paintRun_within (P : PainterState -> Prop) evs :
  forall d d' pt loc base,
    depthAfter d evs = Some d' ->
    saved pt = loc ++ base -> length loc = d ->
    P (now pt) -> Forall P loc ->
    (forall e, e ∈ evs -> forall s, P s -> P (setter e s)) ->
    exists pt' loc',
      paintRun pt evs = Some pt'
      /\ saved pt' = loc' ++ base /\ length loc' = d'
      /\ P (now pt') /\ Forall P loc'
      /\ Forall (fun x => exists s, P s /\ x.2 = ps_transform s)
           (transformsAt pt evs).
Proof.
  induction evs as [|e evs IH]; intros d d' pt loc base Hd Hsaved Hlen Hnow Hloc Hkeep.
  - injection Hd as <-. exists pt, loc. by repeat split.
  - cbn [depthAfter] in Hd. destruct (nesting d e) as [d1|] eqn:Hnest; [|done].
    assert (exists pt1 loc1,
              paintStep pt e = Some pt1 /\ saved pt1 = loc1 ++ base
              /\ length loc1 = d1 /\ P (now pt1) /\ Forall P loc1)
      as (pt1 & loc1 & Hstep & Hsaved1 & Hlen1 & Hnow1 & Hloc1).
    { destruct e; cbn [nesting] in Hnest;
        try (injection Hnest as <-;
             eexists _, loc; split; [reflexivity|]; cbn [saved now];
             split; [done|]; split; [done|];
             split; [apply Hkeep; [left | done] | done]).
      - injection Hnest as <-. eexists _, (now pt :: loc).
        split; [reflexivity|]. cbn [saved now]. rewrite Hsaved.
        repeat split; [by cbn; rewrite Hlen | done | by constructor].
      - destruct d as [|d0]; [done|]. injection Hnest as <-.
        destruct loc as [|s loc0]; [done|].
        apply Forall_cons in Hloc as [Hs Hloc0].
        eexists _, loc0. cbn [paintStep]. rewrite Hsaved. cbn [app].
        split; [reflexivity|]. cbn [saved now].
        repeat split; [by injection Hlen | done | done]. }
    destruct (IH d1 d' pt1 loc1 base Hd Hsaved1 Hlen1 Hnow1 Hloc1)
      as (pt' & loc' & Hrun & Hsaved' & Hlen' & Hnow' & Hloc' & Hall).
    { intros e' He'. apply Hkeep. by right. }
    exists pt', loc'. cbn [paintRun transformsAt]. rewrite Hstep. cbn [default].
    repeat split; try done.
    constructor; [by exists (now pt) | done].
Qed.

Lemma transformsAt_events evs : forall pt e t,
  (e, t) ∈ transformsAt pt evs -> e ∈ evs.
Proof.
  induction evs as [|e0 evs IH]; intros pt e t; cbn [transformsAt].
  - by intros ?%elem_of_nil.
  - intros [[= -> _] | Hin]%elem_of_cons; [by left | right; eauto].
Qed.

Lemma setter_transform e s :
  isControl e = false -> ps_transform (setter e s) = ps_transform s.
Proof. by destruct e. Qed.

Lemma depthAfter_concat ls :
  (forall l, l ∈ ls -> forall d, depthAfter d l = Some d) ->
  forall d, depthAfter d (concat ls) = Some d.
Proof.
  induction ls as [|l ls IH]; intros H d; [done|].
  cbn [concat]. rewrite depthAfter_level.
  - apply IH. intros l' Hl'. apply H. by right.
  - apply H. by left.
Qed.

Lemma forallb_concat (f : Event -> bool) ls :
  (forall l, l ∈ ls -> forallb f l = true) -> forallb f (concat ls) = true.
Proof.
  induction ls as [|l ls IH]; intros H; [done|].
  cbn [concat]. rewrite forallb_app, (H l) by (by left).
  apply IH. intros l' Hl'. apply H. by right.
Qed.

Lemma forallb_elem (f : Event -> bool) l e :
  forallb f l = true -> e ∈ l -> f e = true.
Proof.
  intros H He. rewrite forallb_forall in H. apply H.
  by apply list_elem_of_In.
Qed.

(** *** The pieces of a call of print *)

Lemma titleCalls_level pfilter pl d :
  depthAfter d (titleCalls pfilter pl) = Some d.
Proof. unfold titleCalls. by destruct (titlePrinted pfilter pl). Qed.

Lemma titleCalls_vector pfilter pl :
  forallb vectorPiece (titleCalls pfilter pl) = true.
Proof. unfold titleCalls. by destruct (titlePrinted pfilter pl). Qed.

Lemma legendItemCalls_level i w rect d :
  depthAfter d (legendItemCalls i w rect) = Some d.
Proof.
  unfold legendItemCalls. by destruct (li_isLegendItem w), (li_hasManager w).
Qed.

Lemma printLegendItems_level items : forall i index itemRects p r,
  is_Some (legend p) ->
  printLegendItems items i index itemRects p = Some r ->
  forall d, depthAfter d r.2 = Some d.
Proof.
  induction items as [|item items IH]; intros i index itemRects p r Hlg.
  - by intros [= <-].
  - cbn [printLegendItems]. destruct (li_widget item); [|apply IH; done].
    unfold bind, emit, deref, ret.
    destruct (itemRects !! index) as [rc|]; cbn; [|done].
    rewrite (printLegendItem_calls i item (toRectF rc) p Hlg). cbn.
    destruct (printLegendItems items (S i) (S index) itemRects p)
      as [[[b p2] l2]|] eqn:Hrest; [|done].
    intros [= <-] d. cbn [snd depthAfter nesting].
    rewrite depthAfter_app, legendItemCalls_level. cbn [depthAfter nesting].
    apply (IH _ _ _ _ _ Hlg Hrest).
Qed.

Lemma printLegend_level rect p r :
  printLegend rect p = Some r -> forall d, depthAfter d r.2 = Some d.
Proof.
  unfold printLegend, bind, emit, get. cbn.
  destruct (legend p) as [lg|] eqn:Hlg; [|by intros [= <-]].
  destruct (legendIsEmpty lg); [by intros [= <-]|].
  destruct (contentsLayout lg) as [l|]; [|by intros [= <-]].
  destruct (isDynGridLayout l); cbn [negb]; [|by intros [= <-]].
  destruct (printLegendItems _ _ _ _ _) as [[[b p2] l2]|] eqn:Hitems; [|done].
  intros [= <-] d. cbn [snd depthAfter nesting].
  apply (printLegendItems_level _ _ _ _ _ _ ltac:(by rewrite Hlg) Hitems).
Qed.

Lemma legendCalls_level pfilter pl d :
  depthAfter d (legendCalls pfilter pl) = Some d.
Proof.
  unfold legendCalls, callsOf, when.
  destruct (legendPrinted pfilter pl); [|done].
  destruct (printLegend _ _) as [[[b p'] l]|] eqn:H; [|done].
  apply (printLegend_level _ _ _ H).
Qed.

Lemma legendCalls_vector pfilter pl :
  legendCallOk pfilter pl -> forallb vectorPiece (legendCalls pfilter pl) = true.
Proof.
  intros Hok. unfold legendCalls, callsOf, when.
  destruct (legendPrinted pfilter pl) eqn:Hpr; [|done].
  destruct (printLegend_run (legendRect (plotLayout pl)) pl
              (legendCallOk_printed pfilter pl Hok Hpr))
    as (evs & -> & Hf).
  cbn [forallb]. apply andb_true_iff. split; [done|].
  apply forallb_forall. intros e He.
  rewrite forallb_forall in Hf. specialize (Hf e He). by destruct e.
Qed.

Lemma printScaleEvents_level p a s e b r d :
  depthAfter d (printScaleEvents p a s e b r) = Some d.
Proof.
  unfold printScaleEvents. cbn [depthAfter nesting].
  destruct (negb (axisEnabled p a)); [done|].
  destruct (axisWidget p !! a) as [w|]; [|done].
  destruct (colorBarShown w);
    by destruct (scaleGeometry _ _ _ _ _) as [[[[x y] len] al]|].
Qed.

Lemma printScaleEvents_vector p a s e b r :
  forallb vectorPiece (printScaleEvents p a s e b r) = true.
Proof.
  unfold printScaleEvents. cbn [forallb].
  destruct (negb (axisEnabled p a)); [done|].
  destruct (axisWidget p !! a) as [w|]; [|done].
  destruct (colorBarShown w);
    by destruct (scaleGeometry _ _ _ _ _) as [[[[x y] len] al]|].
Qed.

Lemma scaleCalls_level pl d : depthAfter d (scaleCalls pl) = Some d.
Proof.
  apply depthAfter_concat. intros l (a & -> & _)%list_elem_of_fmap d'.
  unfold axisScaleEvents. destruct (axisWidget pl !! a); [|done].
  apply printScaleEvents_level.
Qed.

Lemma scaleCalls_vector pl : forallb vectorPiece (scaleCalls pl) = true.
Proof.
  apply forallb_concat. intros l (a & -> & _)%list_elem_of_fmap.
  unfold axisScaleEvents. destruct (axisWidget pl !! a); [|done].
  apply printScaleEvents_vector.
Qed.

Lemma canvasCalls_level painter transform pfilter pl d :
  depthAfter d (canvasCalls painter transform pfilter pl) = Some d.
Proof.
  unfold canvasCalls, canvasDecoration.
  by destruct (has (options pfilter) PrintBackground),
    (has (options pfilter) PrintFrameWithScales).
Qed.

Lemma canvasCalls_canvas painter transform pfilter pl :
  forallb canvasPiece (canvasCalls painter transform pfilter pl) = true.
Proof.
  unfold canvasCalls, canvasDecoration.
  by destruct (has (options pfilter) PrintBackground),
    (has (options pfilter) PrintFrameWithScales).
Qed.

(** The calls of a valid call of [print] in five pieces. *)
Lemma printCalls_pieces engine painter plotRect pfilter p :
  let transform := printTransform painter p in
  let pl := laidOut engine painter plotRect pfilter p in
  printCalls engine painter plotRect pfilter p
  = [ PainterSave; FilterApply (isScaling transform);
      LayoutActivate (printLayoutRect painter plotRect p)
        (layoutOptionsOf pfilter);
      SetTransform transform ]
    ++ (titleCalls pfilter pl ++ legendCalls pfilter pl ++ scaleCalls pl)
    ++ [ ResetTransform ]
    ++ canvasCalls painter transform pfilter pl
    ++ [ LayoutInvalidate; FilterReset; PainterRestore ].
Proof. cbv zeta. unfold printCalls. by rewrite <- !app_assoc. Qed.

Lemma printCalls_nested engine painter plotRect pfilter p :
  let transform := printTransform painter p in
  let pl := laidOut engine painter plotRect pfilter p in
  printCalls engine painter plotRect pfilter p
  = PainterSave
    :: ([ FilterApply (isScaling transform);
          LayoutActivate (printLayoutRect painter plotRect p)
            (layoutOptionsOf pfilter);
          SetTransform transform ]
        ++ (titleCalls pfilter pl ++ legendCalls pfilter pl ++ scaleCalls pl)
        ++ [ ResetTransform ]
        ++ canvasCalls painter transform pfilter pl
        ++ [ LayoutInvalidate; FilterReset ])
    ++ [ PainterRestore ].
Proof. cbv zeta. unfold printCalls. by rewrite <- !app_assoc. Qed.

Lemma vectorCalls_level pfilter pl d :
  depthAfter d (titleCalls pfilter pl ++ legendCalls pfilter pl ++ scaleCalls pl)
  = Some d.
Proof.
  rewrite depthAfter_level by apply titleCalls_level.
  rewrite depthAfter_level by apply legendCalls_level.
  apply scaleCalls_level.
Qed.

Lemma vectorCalls_vector pfilter pl :
  legendCallOk pfilter pl ->
  forallb vectorPiece
    (titleCalls pfilter pl ++ legendCalls pfilter pl ++ scaleCalls pl) = true.
Proof.
  intros Hok.
  by rewrite !forallb_app, titleCalls_vector, legendCalls_vector,
    scaleCalls_vector.
Qed.

(** ** print: the regions drawn *)

Lemma regionOf_titleCalls pfilter pl :
  omap regionOf (titleCalls pfilter pl)
  = if titlePrinted pfilter pl then [TitleRegion] else [].
Proof. unfold titleCalls. by destruct (titlePrinted pfilter pl). Qed.

Lemma regionOf_legendItemCalls i w rect :
  omap regionOf (legendItemCalls i w rect)
  = if li_isLegendItem w then [LegendRegion] else [].
Proof.
  unfold legendItemCalls. by destruct (li_isLegendItem w), (li_hasManager w).
Qed.

Lemma regionOf_printLegendItems items : forall i index itemRects p r,
  is_Some (legend p) ->
  printLegendItems items i index itemRects p = Some r ->
  omap regionOf r.2 = replicate (legendItemCount items) LegendRegion.
Proof.
  induction items as [|item items IH]; intros i index itemRects p r Hlg.
  - by intros [= <-].
  - cbn [printLegendItems]. unfold legendItemCount. cbn [List.filter].
    destruct (li_widget item); cbn [andb]; [|apply IH; done].
    unfold bind, emit, deref, ret.
    destruct (itemRects !! index) as [rc|]; cbn; [|done].
    rewrite (printLegendItem_calls i item (toRectF rc) p Hlg). cbn.
    destruct (printLegendItems items (S i) (S index) itemRects p)
      as [[[b p2] l2]|] eqn:Hrest; [|done].
    intros [= <-]. cbn [snd omap list_omap regionOf].
    rewrite omap_app, regionOf_legendItemCalls.
    cbn [omap list_omap regionOf].
    pose proof (IH _ _ _ _ _ Hlg Hrest) as Hl2. cbn [snd] in Hl2.
    rewrite Hl2. unfold legendItemCount.
    by destruct (li_isLegendItem item).
Qed.

Lemma regionOf_legendCalls pfilter pl :
  legendCallOk pfilter pl ->
  omap regionOf (legendCalls pfilter pl)
  = if has (options pfilter) PrintLegend
    then replicate (legendItemsDrawn pl) LegendRegion else [].
Proof.
  intros Hok. unfold legendCalls, callsOf, when, legendItemsDrawn.
  destruct (legendPrinted pfilter pl) eqn:Hpr.
  - destruct (printLegend_run (legendRect (plotLayout pl)) pl
                (legendCallOk_printed pfilter pl Hok Hpr))
      as (evs & Hrun & _).
    rewrite Hrun. unfold legendPrinted in Hpr.
    apply andb_true_iff in Hpr as [-> _].
    revert Hrun. unfold printLegend, bind, emit, get. cbn.
    destruct (legend pl) as [lg|] eqn:Hlg; [|by intros [= <-]].
    destruct (legendIsEmpty lg); [by intros [= <-]|].
    destruct (contentsLayout lg) as [l|]; [|by intros [= <-]].
    destruct (isDynGridLayout l); cbn [negb]; [|by intros [= <-]].
    destruct (printLegendItems _ _ _ _ _) as [[[b p2] l2]|] eqn:Hitems;
      [|done].
    intros [= _ _ <-]. cbn [omap list_omap regionOf].
    apply (regionOf_printLegendItems _ _ _ _ _ _ ltac:(by rewrite Hlg) Hitems).
  - unfold legendPrinted in Hpr.
    destruct (has (options pfilter) PrintLegend); [|done].
    cbn [andb] in Hpr. destruct (legend pl) as [lg|]; [|done].
    apply negb_false_iff in Hpr. by rewrite Hpr.
Qed.

Lemma regionOf_axisScaleEvents pl a :
  a ∈ axisIds -> axisOk pl a ->
  omap regionOf (axisScaleEvents pl a)
  = if axisEnabled pl a then [ScaleRegion a] else [].
Proof.
  intros Ha Hok. unfold axisScaleEvents, printScaleEvents.
  destruct (axisEnabled pl a) eqn:Hen.
  - destruct (Hok Hen) as [w ->]. cbn [omap list_omap regionOf negb].
    rewrite omap_app.
    replace (omap regionOf
               (if colorBarShown w
                then [DrawColorBar a
                        (setHeight
                           (setWidth (scaleRect (plotLayout pl) a)
                              (rwidth (scaleRect (plotLayout pl) a) - 1)%Q)
                           (rheight (scaleRect (plotLayout pl) a) - 1)%Q)]
                else [])) with (@nil Region) by (by destruct (colorBarShown w)).
    destruct (scaleGeometry_axisIds a (fst (borderDistHint w))
                (snd (borderDistHint w))
                (if colorBarShown w
                 then margin w + (colorBarWidth w + spacing w) else margin w)
                (scaleRect (plotLayout pl) a) Ha) as [[[[x y] len] align] ->].
    reflexivity.
  - by destruct (axisWidget pl !! a).
Qed.

Lemma regionOf_scaleEvents pl ids :
  (forall a, a ∈ ids -> a ∈ axisIds) ->
  (forall a, a ∈ ids -> axisOk pl a) ->
  omap regionOf (concat (map (axisScaleEvents pl) ids))
  = omap (fun a => if axisEnabled pl a then Some (ScaleRegion a) else None)
      ids.
Proof.
  intros Hids Hok. rewrite omap_concat_map.
  induction ids as [|a ids IH]; [done|]. cbn [map concat omap list_omap].
  rewrite IH by (intros; first [apply Hids | apply Hok]; by right).
  rewrite regionOf_axisScaleEvents
    by first [apply Hids; left | apply Hok; left].
  by destruct (axisEnabled pl a).
Qed.

Lemma regionOf_scaleCalls pl :
  (forall a, a ∈ axisIds -> axisOk pl a) ->
  omap regionOf (scaleCalls pl) = scalesOfEnabledAxes pl.
Proof. intros Hok. by apply regionOf_scaleEvents. Qed.

Lemma regionOf_canvasCalls painter transform pfilter pl :
  omap regionOf (canvasCalls painter transform pfilter pl) = [CanvasRegion].
Proof.
  unfold canvasCalls, canvasDecoration.
  by destruct (has (options pfilter) PrintBackground),
    (has (options pfilter) PrintFrameWithScales).
Qed.

Lemma laidOut_legendItemsDrawn engine painter plotRect pfilter p :
  legendItemsDrawn (laidOut engine painter plotRect pfilter p)
  = legendItemsDrawn p.
Proof.
  unfold legendItemsDrawn, laidOut, plotWhilePrinting.
  by destruct (has (options pfilter) PrintFrameWithScales).
Qed.

Lemma scalesOfEnabledAxes_laidOut engine painter plotRect pfilter p :
  scalesOfEnabledAxes (laidOut engine painter plotRect pfilter p)
  = scalesOfEnabledAxes p.
Proof.
  unfold scalesOfEnabledAxes.
  by rewrite (proj2 (proj2 (laidOut_flags engine painter plotRect pfilter p))).
Qed.

Lemma regionsDrawn_printCalls engine painter plotRect pfilter p :
  (forall a, a ∈ axisIds -> axisOk p a) ->
  legendCallOk pfilter (laidOut engine painter plotRect pfilter p) ->
  regionsDrawn (printCalls engine painter plotRect pfilter p)
  = (if titlePrinted pfilter p then [TitleRegion] else [])
    ++ (if has (options pfilter) PrintLegend
        then replicate (legendItemsDrawn p) LegendRegion else [])
    ++ scalesOfEnabledAxes p ++ [CanvasRegion].
Proof.
  intros Haxes Hlegend. unfold regionsDrawn.
  rewrite printCalls_pieces. cbv zeta.
  rewrite !omap_app, regionOf_titleCalls, regionOf_legendCalls,
    regionOf_scaleCalls, regionOf_canvasCalls
    by first [done | intros a Ha; by apply axisOk_laidOut, Haxes].
  rewrite laidOut_legendItemsDrawn, scalesOfEnabledAxes_laidOut,
    (proj1 (laidOut_flags engine painter plotRect pfilter p)).
  cbn [omap list_omap regionOf app]. by rewrite <- !app_assoc.
Qed.

(** With no flag set a scale is drawn besides the canvas, and with
    PrintTitle | PrintLegend, a title and a legend, two scales are drawn
    besides the title, the legend and the canvas: the left and the right axis
    of the sample plot are enabled. *)
Lemma C3_counterexample :
  (exists p' evs,
     print sampleEngine (Some samplePainter) sampleRect noFlags samplePlot
     = Some (tt, p', evs)
     /\ options noFlags = 0
     /\ regionsDrawn evs
        = [ScaleRegion yLeft; ScaleRegion yRight; CanvasRegion]
     /\ regionsDrawn evs <> [CanvasRegion])
  /\ (exists p' evs,
        print sampleEngine (Some samplePainter) sampleRect titleAndLegend
          samplePlot
        = Some (tt, p', evs)
        /\ options titleAndLegend = Z.lor PrintTitle PrintLegend
        /\ titleIsEmpty samplePlot = false
        /\ (legendIsEmpty <$> legend samplePlot) = Some false
        /\ regionsDrawn evs
           = [TitleRegion; LegendRegion; ScaleRegion yLeft;
              ScaleRegion yRight; CanvasRegion]
        /\ regionsDrawn evs <> [TitleRegion; LegendRegion; CanvasRegion]).
Proof.
  split; eexists _, _; (split; [vm_compute; reflexivity|]);
    repeat split; try (vm_compute; reflexivity); vm_compute; discriminate.
Qed.

(** C3, amended: in a call of [print] that passes the test of lines 68 and
    69 the title is drawn exactly when PrintTitle is set and the title is not
    empty; of the legend, with PrintLegend set, one label is drawn for every
    child of the layout whose widget is a QwtLegendItem, when the legend
    exists, is not empty and has a QwtDynGridLayout, and nothing otherwise;
    the scale of every enabled axis is drawn whatever the filter says, and the
    canvas always, in this order.  So with no flag set the scales of the
    enabled axes and the canvas are drawn; and with PrintTitle | PrintLegend
    and a title that is not empty, the title, the items of the legend, the
    scales of the enabled axes and the canvas. *)
Theorem C3_regions_drawn engine painter plotRect pfilter p :
  validCall painter plotRect p = true ->
  printable engine painter plotRect pfilter p ->
  exists p' evs,
    print engine (Some painter) plotRect pfilter p = Some (tt, p', evs)
    /\ regionsDrawn evs
       = (if has (options pfilter) PrintTitle && negb (titleIsEmpty p)
          then [TitleRegion] else [])
         ++ (if has (options pfilter) PrintLegend
             then replicate (legendItemsDrawn p) LegendRegion else [])
         ++ scalesOfEnabledAxes p ++ [CanvasRegion]
    /\ (LegendRegion ∈ regionsDrawn evs
        <-> has (options pfilter) PrintLegend = true
            /\ (0 < legendItemsDrawn p)%nat)
    /\ (options pfilter = 0 ->
        regionsDrawn evs = scalesOfEnabledAxes p ++ [CanvasRegion])
    /\ (options pfilter = Z.lor PrintTitle PrintLegend ->
        titleIsEmpty p = false ->
        regionsDrawn evs
        = [TitleRegion] ++ replicate (legendItemsDrawn p) LegendRegion
          ++ scalesOfEnabledAxes p ++ [CanvasRegion]).
Proof.
  intros Hv Hp. rewrite (print_run _ _ _ _ _ Hv Hp).
  eexists _, _. split; [reflexivity|].
  rewrite (regionsDrawn_printCalls _ _ _ _ _
             (printable_axes _ _ _ _ _ Hv Hp)
             (printable_legend _ _ _ _ _ Hv Hp)).
  unfold titlePrinted.
  split; [reflexivity | split; [|split]].
  - rewrite !elem_of_app. split.
    + intros [Hin | [Hin | [Hin | Hin]]].
      * destruct (_ && negb _); [|by apply elem_of_nil in Hin].
        by apply list_elem_of_singleton in Hin.
      * destruct (has (options pfilter) PrintLegend);
          [|by apply elem_of_nil in Hin].
        split; [done|]. destruct (legendItemsDrawn p); [|lia].
        by apply elem_of_nil in Hin.
      * unfold scalesOfEnabledAxes in Hin.
        apply list_elem_of_omap in Hin as (a & _ & Ha).
        by destruct (axisEnabled p a).
      * by apply list_elem_of_singleton in Hin.
    + intros [-> Hpos]. right. left.
      destruct (legendItemsDrawn p); [lia|]. by left.
  - intros ->. reflexivity.
  - intros -> ->. reflexivity.
Qed.

Lemma C3_witness :
  exists p' evs,
    print sampleEngine (Some samplePainter) sampleRect titleAndLegend
      samplePlot = Some (tt, p', evs)
    /\ regionsDrawn evs
       = (if has (options titleAndLegend) PrintTitle
             && negb (titleIsEmpty samplePlot)
          then [TitleRegion] else [])
         ++ (if has (options titleAndLegend) PrintLegend
             then replicate (legendItemsDrawn samplePlot) LegendRegion
             else [])
         ++ scalesOfEnabledAxes samplePlot ++ [CanvasRegion]
    /\ (LegendRegion ∈ regionsDrawn evs
        <-> has (options titleAndLegend) PrintLegend = true
            /\ (0 < legendItemsDrawn samplePlot)%nat)
    /\ (options titleAndLegend = 0 ->
        regionsDrawn evs = scalesOfEnabledAxes samplePlot ++ [CanvasRegion])
    /\ (options titleAndLegend = Z.lor PrintTitle PrintLegend ->
        titleIsEmpty samplePlot = false ->
        regionsDrawn evs
        = [TitleRegion] ++ replicate (legendItemsDrawn samplePlot) LegendRegion
          ++ scalesOfEnabledAxes samplePlot ++ [CanvasRegion]).
Proof.
  apply (C3_regions_drawn sampleEngine samplePainter sampleRect
           titleAndLegend samplePlot).
  - reflexivity.
  - apply samplePlot_printable.
Defined.

(** ** The painter during and after a call of print *)

(** [print] leaves the painter as it found it: whatever the state and the
    stack of saved states of the painter, every [restore] of the call pops a
    state the call itself has saved, and after the call the state (transform,
    clipping, font, pen and brush) and the stack are what they were. *)
Theorem print_restores_painter engine painter plotRect pfilter p pt :
  printable engine painter plotRect pfilter p ->
  exists p' evs,
    print engine (Some painter) plotRect pfilter p = Some (tt, p', evs)
    /\ paintRun pt evs = Some pt.
Proof.
  intros Hp. rewrite (print_cases _ _ _ _ _ Hp).
  destruct (validCall painter plotRect p); [|by eexists _, _].
  eexists _, _. split; [reflexivity|].
  rewrite printCalls_nested. cbv zeta.
  set (T := printTransform painter p).
  set (pl := laidOut engine painter plotRect pfilter p).
  cbn [paintRun paintStep]. rewrite paintRun_app.
  edestruct (paintRun_within (fun _ => True)) with (loc := @nil PainterState)
    as (pt' & loc' & -> & Hsaved & Hlen & _); [ | reflexivity | ..].
  - cbn [app depthAfter nesting]. rewrite depthAfter_app.
    rewrite vectorCalls_level. cbn [app depthAfter nesting].
    rewrite depthAfter_app. rewrite canvasCalls_level.
    reflexivity.
  - reflexivity.
  - done.
  - done.
  - done.
  - destruct loc'; [|done]. cbn [app] in Hsaved. cbn [saved] in Hsaved.
    cbn [paintRun paintStep]. rewrite Hsaved. by destruct pt.
Qed.

Lemma print_restores_painter_witness :
  printable sampleEngine samplePainter sampleRect titleAndLegend samplePlot
  /\ exists p' evs,
       print sampleEngine (Some samplePainter) sampleRect titleAndLegend
         samplePlot = Some (tt, p', evs)
       /\ paintRun samplePainting evs = Some samplePainting.
Proof.
  split; [apply samplePlot_printable|].
  apply (print_restores_painter sampleEngine samplePainter sampleRect
           titleAndLegend samplePlot samplePainting).
  apply samplePlot_printable.
Defined.

(** Within a log nested from depth 0 to depth 0 that does not touch the
    transform, every call is made under the transform the log began with. *)
Lemma transformsAt_fixed evs pt t :
  depthAfter 0 evs = Some 0%nat ->
  (forall e, e ∈ evs -> isControl e = false) ->
  ps_transform (now pt) = t ->
  (exists pt', paintRun pt evs = Some pt' /\ ps_transform (now pt') = t)
  /\ forall e t', (e, t') ∈ transformsAt pt evs -> t' = t.
Proof.
  intros Hd Hctl Ht.
  destruct (paintRun_within (fun s => ps_transform s = t) evs 0 0 pt []
              (saved pt) Hd eq_refl eq_refl Ht ltac:(done))
    as (pt' & loc' & Hrun & _ & _ & Hnow & _ & Hall).
  { intros e He s <-. by apply setter_transform, Hctl. }
  split; [by exists pt'|].
  intros e t' Hin. rewrite Forall_forall in Hall.
  destruct (Hall _ Hin) as (s & Hs & Heq). cbn [snd] in Heq. congruence.
Qed.

(** [print] draws the title, the legend and the scales under the transform
    that scales the resolution of the widget to the resolution of the device,
    and the canvas (background, frame and plot items) under the identity,
    whatever the painter was set to before the call. *)
Theorem print_transform_discipline engine painter plotRect pfilter p pt :
  printable engine painter plotRect pfilter p ->
  exists p' evs,
    print engine (Some painter) plotRect pfilter p = Some (tt, p', evs)
    /\ forall e t, (e, t) ∈ transformsAt pt evs ->
         (isVectorDraw e = true -> t = printTransform painter p)
         /\ (isCanvasDraw e = true -> t = QTransform_identity).
Proof.
  intros Hp. rewrite (print_cases _ _ _ _ _ Hp).
  destruct (validCall painter plotRect p) eqn:Hv.
  2:{ eexists _, _. split; [reflexivity|]. by intros e t ?%elem_of_nil. }
  eexists _, _. split; [reflexivity|].
  pose proof (printable_legend _ _ _ _ _ Hv Hp) as Hlegend.
  rewrite printCalls_pieces. cbv zeta.
  set (T := printTransform painter p).
  set (pl := laidOut engine painter plotRect pfilter p) in *.
  set (V := titleCalls pfilter pl ++ legendCalls pfilter pl ++ scaleCalls pl).
  set (C := canvasCalls painter T pfilter pl).
  rewrite transformsAt_app. set (pt1 := paintAfter pt _).
  rewrite transformsAt_app.
  destruct (transformsAt_fixed V pt1 T) as [(pt2 & Hrun2 & Ht2) HV].
  { apply vectorCalls_level. }
  { intros e He.
    pose proof (forallb_elem _ _ _ (vectorCalls_vector pfilter pl Hlegend) He).
    by destruct e. }
  { reflexivity. }
  rewrite (paintAfter_run _ _ _ Hrun2).
  rewrite transformsAt_app. set (pt3 := paintAfter pt2 _).
  rewrite transformsAt_app.
  destruct (transformsAt_fixed C pt3 QTransform_identity) as [_ HC].
  { apply canvasCalls_level. }
  { intros e He.
    pose proof (forallb_elem _ _ _ (canvasCalls_canvas painter T pfilter pl) He).
    by destruct e. }
  { reflexivity. }
  intros e t Hin. rewrite !elem_of_app in Hin.
  destruct Hin as [Hin | [Hin | [Hin | [Hin | Hin]]]].
  - apply transformsAt_events in Hin.
    repeat (apply elem_of_cons in Hin as [-> | Hin]; [done|]).
    by apply elem_of_nil in Hin.
  - rewrite (HV _ _ Hin). split; [done|]. apply transformsAt_events in Hin.
    pose proof (forallb_elem _ _ _ (vectorCalls_vector pfilter pl Hlegend) Hin).
    by destruct e.
  - apply transformsAt_events in Hin.
    repeat (apply elem_of_cons in Hin as [-> | Hin]; [done|]).
    by apply elem_of_nil in Hin.
  - rewrite (HC _ _ Hin). split; [|done]. apply transformsAt_events in Hin.
    pose proof (forallb_elem _ _ _ (canvasCalls_canvas painter T pfilter pl) Hin).
    by destruct e.
  - apply transformsAt_events in Hin.
    repeat (apply elem_of_cons in Hin as [-> | Hin]; [done|]).
    by apply elem_of_nil in Hin.
Qed.

Lemma print_transform_discipline_witness :
  printable sampleEngine samplePainter sampleRect titleAndLegend samplePlot
  /\ exists p' evs,
       print sampleEngine (Some samplePainter) sampleRect titleAndLegend
         samplePlot = Some (tt, p', evs)
       /\ forall e t, (e, t) ∈ transformsAt samplePainting evs ->
            (isVectorDraw e = true
             -> t = printTransform samplePainter samplePlot)
            /\ (isCanvasDraw e = true -> t = QTransform_identity).
Proof.
  split; [apply samplePlot_printable|].
  apply (print_transform_discipline sampleEngine samplePainter sampleRect
           titleAndLegend samplePlot samplePainting).
  apply samplePlot_printable.
Defined.

(** ** print: the filter, the layout and the plot *)

Lemma Qeq_bool_ratio a b :
  0 < b -> Qeq_bool (inject_Z a / inject_Z b) 1 = (a =? b).
Proof.
  intros Hb. destruct b as [|b|b]; try lia.
  destruct (Qeq_bool _ 1) eqn:E.
  - apply Qeq_bool_iff in E. unfold Qeq in E. cbn in E. symmetry.
    apply Z.eqb_eq. lia.
  - symmetry. apply Z.eqb_neq. intros ->.
    apply Qeq_bool_neq in E. apply E. unfold Qeq. cbn. lia.
Qed.

Lemma isScaling_printTransform painter p :
  0 < logicalDpiX p -> 0 < logicalDpiY p ->
  isScaling (printTransform painter p)
  = negb ((deviceDpiX painter =? logicalDpiX p)
          && (deviceDpiY painter =? logicalDpiY p)).
Proof.
  intros Hx Hy. unfold printTransform, scale.
  rewrite <- (Qeq_bool_ratio (deviceDpiX painter) _ Hx),
    <- (Qeq_bool_ratio (deviceDpiY painter) _ Hy).
  destruct (Qeq_bool _ 1 && Qeq_bool _ 1) eqn:E; [done|].
  unfold isScaling. cbn [m11 m22 QTransform_identity].
  f_equal. rewrite <- E. f_equal; apply eq_true_iff_eq;
    rewrite !Qeq_bool_iff; by rewrite Qmult_1_l.
Qed.

Lemma filter_isControl_nil (f : Event -> bool) evs :
  forallb f evs = true -> (forall e, f e = true -> isControl e = false) ->
  List.filter isControl evs = [].
Proof.
  intros Hall Hf. induction evs as [|e evs IH]; [done|].
  cbn [forallb] in Hall. apply andb_true_iff in Hall as [He Hall].
  cbn [List.filter]. rewrite (Hf e He). by apply IH.
Qed.

(** The calls of a valid call of [print] to the filter, to the layout and to
    the transform of the painter, in their order: the filter is applied
    first, and told to scale exactly when the resolution of the device is not
    that of the widget; then the layout is activated once and the transform
    set once; the transform is reset once, after which the layout is
    invalidated and, last, the filter is reset.  No other code called by
    [print] touches any of the three. *)
Theorem print_protocol engine painter plotRect pfilter p :
  validCall painter plotRect p = true ->
  printable engine painter plotRect pfilter p ->
  0 < logicalDpiX p -> 0 < logicalDpiY p ->
  exists p' evs,
    print engine (Some painter) plotRect pfilter p = Some (tt, p', evs)
    /\ List.filter isControl evs
       = [ FilterApply
             (negb ((deviceDpiX painter =? logicalDpiX p)
                    && (deviceDpiY painter =? logicalDpiY p)));
           LayoutActivate
             (mapRect (inverted (printTransform painter p)) plotRect)
             (layoutOptionsOf pfilter);
           SetTransform (printTransform painter p);
           ResetTransform; LayoutInvalidate; FilterReset ].
Proof.
  intros Hv Hp Hx Hy. rewrite (print_run _ _ _ _ _ Hv Hp).
  eexists _, _. split; [reflexivity|].
  pose proof (printable_legend _ _ _ _ _ Hv Hp) as Hlegend.
  rewrite printCalls_pieces. cbv zeta.
  pose proof (filter_isControl_nil vectorPiece _
                (vectorCalls_vector pfilter _ Hlegend)
                ltac:(intros e; by destruct e)) as HV.
  pose proof (filter_isControl_nil canvasPiece _
                (canvasCalls_canvas painter (printTransform painter p)
                   pfilter (laidOut engine painter plotRect pfilter p))
                ltac:(intros e; by destruct e)) as HC.
  rewrite (List.filter_app _ [_; _; _; _]), (List.filter_app _ (_ ++ _ ++ _)),
    HV, (List.filter_app _ [_]), (List.filter_app _ (canvasCalls _ _ _ _)), HC.
  cbn [List.filter isControl app].
  by rewrite (isScaling_printTransform _ _ Hx Hy).
Qed.

Lemma print_protocol_witness :
  exists p' evs,
    print sampleEngine (Some samplePainter) sampleRect titleAndLegend
      samplePlot = Some (tt, p', evs)
    /\ List.filter isControl evs
       = [ FilterApply
             (negb ((deviceDpiX samplePainter =? logicalDpiX samplePlot)
                    && (deviceDpiY samplePainter =? logicalDpiY samplePlot)));
           LayoutActivate
             (mapRect (inverted (printTransform samplePainter samplePlot))
                sampleRect)
             (layoutOptionsOf titleAndLegend);
           SetTransform (printTransform samplePainter samplePlot);
           ResetTransform; LayoutInvalidate; FilterReset ].
Proof.
  apply (print_protocol sampleEngine samplePainter sampleRect titleAndLegend
           samplePlot).
  - reflexivity.
  - apply samplePlot_printable.
  - reflexivity.
  - reflexivity.
Defined.

Lemma withPlotLayout_id p : withPlotLayout p (plotLayout p) = p.
Proof. by destruct p. Qed.

(** [print] changes nothing of the plot but its layout: the size, the title,
    the legend, the axes with their widgets, margins and scale draws are
    after the call what they were before.  After a call that passes the test
    of lines 68 and 69 the layout is the one activated for the print, on the
    plot with the margins it is printed with, and then invalidated. *)
Theorem print_changes_only_layout engine painter plotRect pfilter p :
  printable engine painter plotRect pfilter p ->
  exists p' evs,
    print engine (Some painter) plotRect pfilter p = Some (tt, p', evs)
    /\ p' = withPlotLayout p (plotLayout p')
    /\ (validCall painter plotRect p = true ->
        plotLayout p'
        = invalidate engine
            (activate engine (plotWhilePrinting pfilter p)
               (mapRect (inverted (printTransform painter p)) plotRect)
               (layoutOptionsOf pfilter))).
Proof.
  intros Hp. rewrite (print_cases _ _ _ _ _ Hp).
  destruct (validCall painter plotRect p).
  - eexists _, _. split; [reflexivity|]. unfold printedPlot. by destruct p.
  - eexists _, _. split; [reflexivity|]. by rewrite withPlotLayout_id.
Qed.

Lemma print_changes_only_layout_witness :
  printable sampleEngine samplePainter sampleRect frameWithScales samplePlot
  /\ exists p' evs,
       print sampleEngine (Some samplePainter) sampleRect frameWithScales
         samplePlot = Some (tt, p', evs)
       /\ p' = withPlotLayout samplePlot (plotLayout p')
       /\ (validCall samplePainter sampleRect samplePlot = true ->
           plotLayout p'
           = invalidate sampleEngine
               (activate sampleEngine
                  (plotWhilePrinting frameWithScales samplePlot)
                  (mapRect (inverted (printTransform samplePainter samplePlot))
                     sampleRect)
                  (layoutOptionsOf frameWithScales))).
Proof.
  split; [apply samplePlot_printable|].
  apply (print_changes_only_layout sampleEngine samplePainter sampleRect
           frameWithScales samplePlot).
  apply samplePlot_printable.
Defined.

(** ** print: the maps of the axes *)

Lemma bottomAxisPlot_printable engine painter plotRect pfilter :
  printable engine painter plotRect pfilter bottomAxisPlot.
Proof.
  intros _. split.
  - intros a Ha Hen. apply elem_of_axisIds in Ha.
    destruct Ha as [-> | [-> | [-> | ->]]]; try discriminate Hen.
    by exists sampleWidget.
  - intros _ lg l [= <-] _ [= <-] _. vm_compute. lia.
Qed.




Lemma buildMap_scale canvasRect axisId p m p' evs :
  buildMap canvasRect axisId p = Some (m, p', evs) ->
  (s1 m, s2 m) = axisScaleDiv p axisId
  /\ transformation m = axisTransformation p axisId.
Proof.
  unfold buildMap, bind, get, ret.
  destruct (axisScaleDiv p axisId) as [lo hi].
  destruct (paintInterval canvasRect axisId p) as [[[iv p2] l]|]; [|done].
  by intros [= <- _ _].
Qed.

Lemma laidOut_scale engine painter plotRect pfilter p :
  axisScaleDiv (laidOut engine painter plotRect pfilter p) = axisScaleDiv p
  /\ axisTransformation (laidOut engine painter plotRect pfilter p)
     = axisTransformation p.
Proof.
  unfold laidOut, plotWhilePrinting.
  by destruct (has (options pfilter) PrintFrameWithScales).
Qed.

(** In a call of [print] that passes the test of lines 68 and 69 the canvas
    gets four maps, one for each axis; the map of an axis has the
    transformation of the axis and, as its scale interval, the bounds of the
    scale division of the axis, whether the axis is enabled or not: the
    rescaling of the paint intervals to device coordinates leaves both as they
    are. *)
Theorem print_map_scale_interval engine painter plotRect pfilter p :
  validCall painter plotRect p = true ->
  printable engine painter plotRect pfilter p ->
  exists p' evs r map,
    print engine (Some painter) plotRect pfilter p = Some (tt, p', evs)
    /\ omap canvasPrinted evs = [(r, map)]
    /\ length map = Z.to_nat axisCnt
    /\ forall axisId, axisId ∈ axisIds ->
         exists m, map !! Z.to_nat axisId = Some m
                   /\ (s1 m, s2 m) = axisScaleDiv p axisId
                   /\ transformation m = axisTransformation p axisId.
Proof.
  intros Hv Hp. rewrite (print_run _ _ _ _ _ Hv Hp).
  set (pl := laidOut engine painter plotRect pfilter p).
  eexists _, _, _, _. split; [reflexivity|].
  split; [by apply canvasPrinted_printCalls, printable_legend|].
  split; [reflexivity|].
  intros a Ha. fold pl. unfold layoutMaps.
  rewrite (rescaleMaps_lookup _ _ _ Ha). eexists. split; [reflexivity|].
  destruct (buildMap_mapOf (canvasRect (plotLayout pl)) a pl) as [Hm _].
  { apply axisOk_laidOut. by apply (printable_axes _ _ _ _ _ Hv Hp). }
  destruct (buildMap_scale _ _ _ _ _ _ Hm) as [Hs Ht].
  destruct (laidOut_scale engine painter plotRect pfilter p) as [Hsd Htr].
  fold pl in Hsd, Htr. rewrite Hsd in Hs. rewrite Htr in Ht.
  split; [|unfold rescaleMap; by destruct ((a =? xTop) || (a =? xBottom))].
  rewrite <- Hs. unfold rescaleMap.
  by destruct ((a =? xTop) || (a =? xBottom)).
Qed.

Lemma print_map_scale_interval_witness :
  exists p' evs r map,
    print sampleEngine (Some samplePainter) sampleRect noFlags bottomAxisPlot
    = Some (tt, p', evs)
    /\ omap canvasPrinted evs = [(r, map)]
    /\ length map = Z.to_nat axisCnt
    /\ forall axisId, axisId ∈ axisIds ->
         exists m, map !! Z.to_nat axisId = Some m
                   /\ (s1 m, s2 m) = axisScaleDiv bottomAxisPlot axisId
                   /\ transformation m
                      = axisTransformation bottomAxisPlot axisId.
Proof.
  apply (print_map_scale_interval sampleEngine samplePainter sampleRect
           noFlags bottomAxisPlot).
  - reflexivity.
  - apply bottomAxisPlot_printable.
Defined.

(** ** print on a paint device *)

(** On a device without width or without height nothing is printed: the
    rectangle handed to [print] is not valid, so that no call is made and the
    plot is left as it is. *)
Theorem printDevice_empty_device engine paintDev pfilter p :
  0 <= dev_width paintDev < 2 ^ 31 ->
  0 <= dev_height paintDev < 2 ^ 31 ->
  dev_width paintDev = 0 \/ dev_height paintDev = 0 ->
  printDevice engine paintDev pfilter p = Some (tt, p, []).
Proof.
  intros Hw Hh H0. unfold printDevice. apply print_skip.
  unfold validCall.
  enough (isValid (toRectF (paintDeviceRect (dev_width paintDev)
                              (dev_height paintDev))) = false) as ->
    by (by rewrite andb_false_r).
  unfold paintDeviceRect. cbn [iwidth iheight].
  rewrite (DoubleFacts.aspect_below_one _ _ Hw Hh).
  destruct H0 as [-> | ->].
  - by destruct (0 <? dev_height paintDev).
  - replace (dev_width paintDev <? 0) with false
      by (symmetry; apply Z.ltb_ge; lia).
    unfold isValid, toRectF. cbn [rwidth rheight iwidth iheight].
    apply andb_false_r.
Qed.

Lemma printDevice_empty_device_witness :
  printDevice sampleEngine
    {| dev_width := 0; dev_height := 300; dev_painter := samplePainter |}
    titleAndLegend samplePlot
  = Some (tt, samplePlot, []).
Proof.
  apply (printDevice_empty_device sampleEngine
           {| dev_width := 0; dev_height := 300;
              dev_painter := samplePainter |} titleAndLegend samplePlot).
  - cbn [dev_width]. lia.
  - cbn [dev_height]. lia.
  - left. reflexivity.
Defined.

(** ** The painter after printScale, printLegend, printCanvas and printTitle *)

Lemma setter_other e s : isSetter e = false -> setter e s = s.
Proof. by destruct e. Qed.

Lemma guardedAfter_app evs1 : forall d evs2,
  guardedAfter d (evs1 ++ evs2)
  = match guardedAfter d evs1 with
    | Some d' => guardedAfter d' evs2
    | None => None
    end.
Proof.
  induction evs1 as [|e evs1 IH]; intros d evs2; [done|].
  cbn [app guardedAfter]. destruct (guarded d e); [apply IH | done].
Qed.

(** Along a log that changes the state of the painter only between a [save]
    and its [restore], the state the log began with stays at the bottom of
    what the log has saved. *)
Lemma paintRun_guarded evs : forall d d' pt loc base s0,
  guardedAfter d evs = Some d' ->
  saved pt = loc ++ base -> length loc = d ->
  last (now pt :: loc) = Some s0 ->
  exists pt' loc',
    paintRun pt evs = Some pt'
    /\ saved pt' = loc' ++ base /\ length loc' = d'
    /\ last (now pt' :: loc') = Some s0.
Proof.
  induction evs as [|e evs IH]; intros d d' pt loc base s0 Hd Hsaved Hlen Hlast.
  - injection Hd as <-. by exists pt, loc.
  - cbn [guardedAfter] in Hd. destruct (guarded d e) as [d1|] eqn:Hg; [|done].
    assert (exists pt1 loc1,
              paintStep pt e = Some pt1 /\ saved pt1 = loc1 ++ base
              /\ length loc1 = d1 /\ last (now pt1 :: loc1) = Some s0)
      as (pt1 & loc1 & Hstep & Hsaved1 & Hlen1 & Hlast1).
    { unfold guarded in Hg.
      destruct (isSetter e) eqn:Hset.
      - destruct d as [|d0]; [done|]. cbn [andb Nat.eqb] in Hg.
        destruct loc as [|s loc0]; [done|].
        destruct e; try done; cbn [nesting] in Hg; injection Hg as <-;
          by eexists _, (s :: loc0).
      - cbn [andb] in Hg. destruct e; try done; cbn [nesting] in Hg.
        all: try (injection Hg as <-; by eexists _, loc).
        + injection Hg as <-. eexists _, (now pt :: loc).
          split; [reflexivity|]. cbn [saved now]. rewrite Hsaved.
          repeat split; [by cbn; rewrite Hlen | done].
        + destruct d as [|d0]; [done|]. injection Hg as <-.
          destruct loc as [|s loc0]; [done|].
          eexists _, loc0. cbn [paintStep]. rewrite Hsaved. cbn [app].
          split; [reflexivity|]. cbn [saved now].
          repeat split; [by injection Hlen | done]. }
    destruct (IH d1 d' pt1 loc1 base s0 Hd Hsaved1 Hlen1 Hlast1)
      as (pt' & loc' & Hrun & Hsaved' & Hlen' & Hlast').
    exists pt', loc'. cbn [paintRun]. by rewrite Hstep.
Qed.

Lemma paintRun_guarded_0 evs pt :
  guardedAfter 0 evs = Some 0%nat -> paintRun pt evs = Some pt.
Proof.
  intros Hg.
  destruct (paintRun_guarded evs 0 0 pt [] (saved pt) (now pt) Hg
              eq_refl eq_refl eq_refl)
    as (pt' & loc' & -> & Hsaved & Hlen & Hlast).
  destruct loc'; [|done]. cbn in Hsaved, Hlast.
  destruct pt, pt'. cbn in *. congruence.
Qed.

Lemma printScaleEvents_guarded p a s e b r d :
  guardedAfter d (printScaleEvents p a s e b r) = Some d.
Proof.
  unfold printScaleEvents. cbn [guardedAfter guarded isSetter andb nesting].
  destruct (negb (axisEnabled p a)); [done|].
  destruct (axisWidget p !! a) as [w|]; [|done].
  destruct (colorBarShown w);
    by destruct (scaleGeometry _ _ _ _ _) as [[[[x y] len] al]|].
Qed.

(** [printScale] leaves the painter as it found it: the font and the pen it
    sets for the scale are set between a [save] and its [restore]; the colour
    bar and the title are drawn with the painter as it is handed over. *)
Theorem printScale_leaves_painter axisId startDist endDist baseDist rect p :
  axisOk p axisId ->
  exists evs,
    printScale axisId startDist endDist baseDist rect p = Some (tt, p, evs)
    /\ forall pt, paintRun pt evs = Some pt.
Proof.
  intros Hok. eexists. split; [by apply printScale_run|].
  intros pt. apply paintRun_guarded_0, printScaleEvents_guarded.
Qed.

Lemma printScale_leaves_painter_witness :
  exists evs,
    printScale yLeft 3 5 4 (rectF 0 20 40 240) samplePlot
    = Some (tt, samplePlot, evs)
    /\ forall pt, paintRun pt evs = Some pt.
Proof.
  apply (printScale_leaves_painter yLeft 3 5 4 (rectF 0 20 40 240) samplePlot).
  intros _. exists sampleWidget. reflexivity.
Defined.

Lemma legendItemCalls_guarded i w rect d :
  guardedAfter (S d) (legendItemCalls i w rect) = Some (S d).
Proof.
  unfold legendItemCalls. by destruct (li_isLegendItem w), (li_hasManager w).
Qed.

Lemma printLegendItems_guarded items : forall i index itemRects p r,
  is_Some (legend p) ->
  printLegendItems items i index itemRects p = Some r ->
  forall d, guardedAfter d r.2 = Some d.
Proof.
  induction items as [|item items IH]; intros i index itemRects p r Hlg.
  - by intros [= <-].
  - cbn [printLegendItems]. destruct (li_widget item); [|apply IH; done].
    unfold bind, emit, deref, ret.
    destruct (itemRects !! index) as [rc|]; cbn; [|done].
    rewrite (printLegendItem_calls i item (toRectF rc) p Hlg). cbn.
    destruct (printLegendItems items (S i) (S index) itemRects p)
      as [[[b p2] l2]|] eqn:Hrest; [|done].
    intros [= <-] d. cbn [snd guardedAfter guarded isSetter andb nesting Nat.eqb].
    rewrite guardedAfter_app, legendItemCalls_guarded.
    cbn [guardedAfter guarded isSetter andb nesting Nat.eqb].
    apply (IH _ _ _ _ _ Hlg Hrest).
Qed.

(** [printLegend] leaves the painter as it found it: the clipping, the clip
    rectangle and the font of every item are set between a [save] and its
    [restore].  The one condition is that no item rectangle is missing in this
    call: the condition under which [printLegend] has a result. *)
Theorem printLegend_leaves_painter rect p :
  legendOk rect p ->
  exists evs,
    printLegend rect p = Some (tt, p, evs)
    /\ forall pt, paintRun pt evs = Some pt.
Proof.
  intros Hok.
  destruct (printLegend_run rect p Hok) as (evs & Hrun & _).
  eexists. split; [exact Hrun|]. intros pt. apply paintRun_guarded_0.
  revert Hrun. unfold printLegend, bind, emit, get. cbn.
  destruct (legend p) as [lg|] eqn:Hlg; [|by intros [= <-]].
  destruct (legendIsEmpty lg); [by intros [= <-]|].
  destruct (contentsLayout lg) as [l|]; [|by intros [= <-]].
  destruct (isDynGridLayout l); cbn [negb]; [|by intros [= <-]].
  destruct (printLegendItems _ _ _ _ _) as [[[b p2] l2]|] eqn:Hitems; [|done].
  intros [= _ _ <-]. cbn [guardedAfter guarded isSetter andb nesting].
  apply (printLegendItems_guarded _ _ _ _ _ _ ltac:(by rewrite Hlg) Hitems).
Qed.

Lemma printLegend_leaves_painter_witness :
  legendOk (rectF 0 280 400 20) samplePlot
  /\ exists evs,
       printLegend (rectF 0 280 400 20) samplePlot
       = Some (tt, samplePlot, evs)
       /\ forall pt, paintRun pt evs = Some pt.
Proof.
  split; [apply samplePlot_legendOk|].
  apply (printLegend_leaves_painter (rectF 0 280 400 20) samplePlot).
  apply samplePlot_legendOk.
Defined.

(** [printCanvas] calls [drawItems] once, last, with the canvas rectangle
    and the maps it was given, on a painter whose clipping is on and whose
    clip rectangle is the canvas rectangle in integers; the transform, the
    font, the pen and the brush are then those of the caller, the pen and the
    brush of the frame being set between a [save] and its [restore].  The
    clipping is not undone: it is still on after the call. *)
Theorem printCanvas_painter painter canvasRect map pfilter p pt :
  let atItems :=
    {| now := {| ps_transform := ps_transform (now pt);
                 ps_clipping := true;
                 ps_clipRect := Some (toRect canvasRect);
                 ps_font := ps_font (now pt);
                 ps_pen := ps_pen (now pt);
                 ps_brush := ps_brush (now pt) |};
       saved := saved pt |} in
  exists evs,
    printCanvas painter canvasRect map pfilter p
    = Some (tt, p, evs ++ [DrawItems canvasRect map])
    /\ omap drawItemsOf evs = []
    /\ paintRun pt evs = Some atItems
    /\ paintRun pt (evs ++ [DrawItems canvasRect map]) = Some atItems.
Proof.
  cbv zeta. rewrite printCanvas_run.
  exists (PrintCanvas_ canvasRect map
          :: canvasDecoration painter canvasRect pfilter
          ++ [SetClipping true; SetClipRect (toRect canvasRect)]).
  split; [cbn [app]; by rewrite <- app_assoc|].
  unfold canvasDecoration.
  by destruct (has (options pfilter) PrintBackground),
    (has (options pfilter) PrintFrameWithScales).
Qed.

(** [printTitle] does not leave the painter as it found it either: it draws
    the text once, last, and the font and the pen colour of the title label
    that it sets for the text are still set after the call. *)
Theorem printTitle_painter rect p pt :
  exists evs,
    printTitle rect p = Some (tt, p, evs ++ [DrawTitleText rect])
    /\ (forall e, e ∈ evs -> isVectorDraw e = false)
    /\ paintRun pt (evs ++ [DrawTitleText rect])
       = Some {| now := {| ps_transform := ps_transform (now pt);
                           ps_clipping := ps_clipping (now pt);
                           ps_clipRect := ps_clipRect (now pt);
                           ps_font := Some TitleLabel;
                           ps_pen := SetPenColor TitleLabel :: ps_pen (now pt);
                           ps_brush := ps_brush (now pt) |};
                 saved := saved pt |}.
Proof.
  exists [PrintTitle_ rect; SetFont TitleLabel; SetPenColor TitleLabel].
  split; [apply printTitle_run|]. split; [|reflexivity].
  intros e He.
  repeat (apply elem_of_cons in He as [-> | He]; [done|]).
  by apply elem_of_nil in He.
Qed.

(** ** print: the rectangles of the layout *)

Lemma scaleCall_scaleOutline pl a :
  omap scaleCallOf (scaleOutline pl a)
  = match axisWidget pl !! a with
    | Some w => [(a, fst (borderDistHint w), snd (borderDistHint w),
                  margin w, scaleRect (plotLayout pl) a)]
    | None => []
    end.
Proof.
  unfold scaleOutline. destruct (axisWidget pl !! a) as [w|]; [|done].
  cbn. destruct (axisEnabled pl a); [|done].
  by destruct (scaleGeometry _ _ _ _ _) as [[[[x y] len] align]|].
Qed.

Lemma omap_scaleOutline_none {X} (f : Event -> option X) pl ids :
  (forall e, f e <> None -> outline e = true ->
             match e with
             | PrintScale_ _ _ _ _ _ | DrawScale _ _ _ => False
             | _ => True
             end) ->
  omap f (concat (map (scaleOutline pl) ids)) = [].
Proof.
  intros Hf. induction ids as [|a ids IH]; [done|].
  cbn [map concat]. rewrite omap_app, IH, app_nil_r.
  assert (forall a0 s0 e0 b0 r0, f (PrintScale_ a0 s0 e0 b0 r0) = None) as HP.
  { intros a0 s0 e0 b0 r0.
    destruct (f (PrintScale_ a0 s0 e0 b0 r0)) eqn:E; [|done].
    destruct (Hf (PrintScale_ a0 s0 e0 b0 r0)); [by rewrite E | done]. }
  assert (forall a0 q0 l0, f (DrawScale a0 q0 l0) = None) as HD.
  { intros a0 q0 l0.
    destruct (f (DrawScale a0 q0 l0)) eqn:E; [|done].
    destruct (Hf (DrawScale a0 q0 l0)); [by rewrite E | done]. }
  unfold scaleOutline. destruct (axisWidget pl !! a) as [w|]; [|done].
  cbn [omap list_omap]. rewrite HP.
  destruct (axisEnabled pl a); [|done].
  destruct (scaleGeometry _ _ _ _ _) as [[[[x y] len] align]|]; [|done].
  cbn [omap list_omap]. by rewrite HD.
Qed.

Lemma laidOut_widget_lookup engine painter plotRect pfilter p a :
  a ∈ axisIds ->
  axisWidget (laidOut engine painter plotRect pfilter p) !! a
  = (fun w => if has (options pfilter) PrintFrameWithScales
              then setMargin w 0 else w) <$> axisWidget p !! a.
Proof.
  intros Ha. unfold laidOut, plotWhilePrinting.
  destruct (has (options pfilter) PrintFrameWithScales); cbn.
  - by rewrite lookup_zeroMarginsOn, decide_True.
  - by destruct (axisWidget p !! a).
Qed.

(** In a call of [print] that passes the test of lines 68 and 69 every part
    of the plot is printed into its rectangle of the layout activated for the
    print: the title into [titleRect()] and the legend into [legendRect()],
    when they are printed; [printScale] is called for the axes that have a
    scale widget, enabled or not, in the order of the axes, with the border
    distance hints of the widget, its margin (0 with the option
    PrintFrameWithScales) and [scaleRect(axisId)]. *)
Theorem print_layout_rects engine painter plotRect pfilter p :
  validCall painter plotRect p = true ->
  printable engine painter plotRect pfilter p ->
  let layout :=
    activate engine (plotWhilePrinting pfilter p)
      (mapRect (inverted (printTransform painter p)) plotRect)
      (layoutOptionsOf pfilter) in
  exists p' evs,
    print engine (Some painter) plotRect pfilter p = Some (tt, p', evs)
    /\ omap titleCallOf evs
       = (if has (options pfilter) PrintTitle && negb (titleIsEmpty p)
          then [titleRect layout] else [])
    /\ omap legendCallOf evs
       = (if legendPrinted pfilter p then [legendRect layout] else [])
    /\ omap scaleCallOf evs
       = omap (fun axisId =>
                 (fun w =>
                    (axisId, fst (borderDistHint w), snd (borderDistHint w),
                     if has (options pfilter) PrintFrameWithScales
                     then 0 else margin w,
                     scaleRect layout axisId))
                 <$> axisWidget p !! axisId) axisIds.
Proof.
  intros Hv Hp layout. rewrite (print_run _ _ _ _ _ Hv Hp).
  eexists _, _. split; [reflexivity|].
  rewrite (omap_outline titleCallOf) by (by intros []).
  rewrite (omap_outline legendCallOf) by (by intros []).
  rewrite (omap_outline scaleCallOf) by (by intros []).
  rewrite outline_printCalls by (by apply printable_legend).
  unfold printOutline. cbv zeta.
  destruct (laidOut_flags engine painter plotRect pfilter p) as (Ht & Hl & _).
  rewrite Ht, Hl.
  pose proof (fun a => laidOut_widget_lookup engine painter plotRect pfilter p a)
    as Hlk.
  assert (plotLayout (laidOut engine painter plotRect pfilter p) = layout)
    as Hlayout by reflexivity.
  revert Hlk Hlayout. generalize (laidOut engine painter plotRect pfilter p).
  intros pl Hlk Hlayout. rewrite Hlayout.
  rewrite !omap_app.
  rewrite (omap_scaleOutline_none titleCallOf)
    by (intros e He _; by destruct e).
  rewrite (omap_scaleOutline_none legendCallOf)
    by (intros e He _; by destruct e).
  split; [|split].
  - unfold titlePrinted. by destruct (_ && negb _), (legendPrinted pfilter p).
  - by destruct (titlePrinted pfilter p), (legendPrinted pfilter p).
  - replace (omap scaleCallOf
               (if titlePrinted pfilter p
                then [PrintTitle_ (titleRect layout)] else []))
      with (@nil (Z * Z * Z * Z * QRectF))
      by (by destruct (titlePrinted pfilter p)).
    replace (omap scaleCallOf
               (if legendPrinted pfilter p
                then [PrintLegend_ (legendRect layout)] else []))
      with (@nil (Z * Z * Z * Z * QRectF))
      by (by destruct (legendPrinted pfilter p)).
    cbn [omap list_omap scaleCallOf app]. rewrite app_nil_r.
    rewrite omap_concat_map.
    induction axisIds as [|a ids IH]; [done|].
    cbn [map concat omap list_omap].
    rewrite IH by (intros; apply Hlk; by right).
    rewrite scaleCall_scaleOutline, (Hlk a), Hlayout by left.
    destruct (axisWidget p !! a) as [w|]; [|done]. cbn.
    by destruct (has (options pfilter) PrintFrameWithScales).
Qed.

Lemma print_layout_rects_witness :
  let layout :=
    activate sampleEngine (plotWhilePrinting titleAndLegend samplePlot)
      (mapRect (inverted (printTransform samplePainter samplePlot)) sampleRect)
      (layoutOptionsOf titleAndLegend) in
  exists p' evs,
    print sampleEngine (Some samplePainter) sampleRect titleAndLegend
      samplePlot = Some (tt, p', evs)
    /\ omap titleCallOf evs
       = (if has (options titleAndLegend) PrintTitle
             && negb (titleIsEmpty samplePlot)
          then [titleRect layout] else [])
    /\ omap legendCallOf evs
       = (if legendPrinted titleAndLegend samplePlot
          then [legendRect layout] else [])
    /\ omap scaleCallOf evs
       = omap (fun axisId =>
                 (fun w =>
                    (axisId, fst (borderDistHint w), snd (borderDistHint w),
                     if has (options titleAndLegend) PrintFrameWithScales
                     then 0 else margin w,
                     scaleRect layout axisId))
                 <$> axisWidget samplePlot !! axisId) axisIds.
Proof.
  apply (print_layout_rects sampleEngine samplePainter sampleRect
           titleAndLegend samplePlot).
  - reflexivity.
  - apply samplePlot_printable.
Defined.

(** ** print on a paint device that is much higher than wide *)

Module DoubleBounds.

Import Double DoubleFacts.

(** The arithmetic of [narrow_height]: [A], [B], [N], [E] and [E32] stand for
    powers of 2, [q] for the mantissa of the quotient. *)
Lemma narrow_margin w h A B N E E32 q :
  0 < w -> w * w < h -> h < 2147483648 -> w < 65536 ->
  137438953472 <= A -> 0 < B -> 1 <= N <= 2 -> 0 < E32 ->
  E = 4294967296 * E32 ->
  E * (B * N) = A * A * 9007199254740992 ->
  h * B < 9007199254740992 ->
  0 <= q ->
  q * (h * B) * N <= w * A * 9007199254740992 + h * B * N ->
  q * (w * A) * h <= h * E - h * E32.
Proof.
  intros Hw Hww Hh Hw16 HA HB HN HE32 HE HX HhB Hq Hup.
  set (K := 9007199254740992) in *.
  assert (0 < K) as HK by (subst K; lia).
  assert (0 < h) as Hh0 by nia.
  assert (0 < B * N) as HBN by nia.
  assert (0 < A) as HA0 by lia.
  (* 2 h w A <= E *)
  assert (h * B * N <= 2 * K) as H1 by nia.
  assert (h * B * N * w <= 2 * K * w) as H2
    by (apply Z.mul_le_mono_nonneg_r; lia).
  assert (2 * K * w * 2 <= A * K) as H3.
  { replace (2 * K * w * 2) with (4 * w * K) by lia.
    apply Z.mul_le_mono_nonneg_r; lia. }
  assert (2 * (h * w * A) * (B * N) <= E * (B * N)) as H4.
  { rewrite HX.
    replace (2 * (h * w * A) * (B * N)) with (2 * (h * B * N * w) * A) by lia.
    replace (A * A * K) with (A * K * A) by lia.
    apply Z.mul_le_mono_nonneg_r; lia. }
  assert (2 * (h * w * A) <= E) as Hhalf.
  { apply (Z.mul_le_mono_pos_r _ _ (B * N)); done. }
  (* w^2 E + h w A <= h E - h E32 *)
  assert (w * w * E <= (h - 1) * E) as H5
    by (apply Z.mul_le_mono_nonneg_r; lia).
  assert (h * E32 <= 2147483647 * E32) as H6
    by (apply Z.mul_le_mono_nonneg_r; lia).
  assert (w * w * E + h * w * A <= h * E - h * E32) as Hsum by lia.
  (* the product *)
  assert (q * (h * B) * N * (w * A)
          <= (w * A * K + h * B * N) * (w * A)) as H7
    by (apply Z.mul_le_mono_nonneg_r; [nia | done]).
  assert (w * w * (E * (B * N)) = w * A * K * (w * A)) as H8
    by (rewrite HX; lia).
  apply (Z.mul_le_mono_pos_r _ _ (B * N)); [done|].
  transitivity ((w * w * E + h * w * A) * (B * N)).
  - replace (q * (w * A) * h * (B * N)) with (q * (h * B) * N * (w * A)) by lia.
    replace ((w * w * E + h * w * A) * (B * N))
      with (w * w * (E * (B * N)) + h * B * N * (w * A)) by lia.
    rewrite H8. lia.
  - apply Z.mul_le_mono_nonneg_r; lia.
Qed.

(** The quotient of two binary64 numbers with full mantissas is at most one
    unit in the last place above the exact quotient. *)
Lemma SFdiv_finite_upper m1 e1 m2 e2 :
  2 ^ 52 <= Zpos m1 <= 2 ^ 53 - 2 ^ 22 -> 2 ^ 52 <= Zpos m2 < 2 ^ 53 ->
  -100 <= e1 - e2 <= 100 ->
  exists m n,
    (n = 0 \/ n = 1)
    /\ div (S754_finite false m1 e1) (S754_finite false m2 e2)
       = S754_finite false m (e1 - e2 - 53 + n)
    /\ 2 ^ 52 <= Zpos m < 2 ^ 53
    /\ Zpos m * Zpos m2 * 2 ^ n <= Zpos m1 * 2 ^ 53 + Zpos m2 * 2 ^ n.
Proof.
  intros H1 H2 He. unfold div, SFdiv.
  destruct (SFdiv_core_binary_spec m1 e1 m2 e2) as [l ->]; [lia | lia | lia |].
  cbn [xorb].
  set (q := Zpos m1 * 2 ^ 53 / Zpos m2).
  assert (q * Zpos m2 <= Zpos m1 * 2 ^ 53) as Hfloor.
  { subst q. rewrite Z.mul_comm. apply Z.mul_div_le. lia. }
  destruct (Z.ltb_spec (Zpos m1) (Zpos m2)) as [Hlt|Hge].
  - assert (2 ^ 52 <= q <= 2 ^ 53 - 2) as Hq.
    { subst q. split.
      - apply Z.div_le_lower_bound; lia.
      - enough (Zpos m1 * 2 ^ 53 / Zpos m2 < 2 ^ 53 - 1) by lia.
        apply Z.div_lt_upper_bound; lia. }
    destruct (binary_round_aux_spec false q (e1 - e2 - 53) l 0)
      as (m & e & Hr & Hm & Hcase); [lia | cbn; lia | lia | lia |].
    rewrite Z.div_1_r in Hcase.
    exists m, 0. split; [by left|]. rewrite Hr.
    destruct Hcase as [[-> Hmq] | (_ & _ & Hc)]; [|lia].
    split; [done|]. split; [done|].
    change (2 ^ 0) with 1. nia.
  - assert (2 ^ 53 <= q <= 2 ^ 54 - 2 ^ 23) as Hq.
    { subst q. split.
      - apply Z.div_le_lower_bound; lia.
      - transitivity (Zpos m1 * 2 ^ 53 / 2 ^ 52).
        + apply Z.div_le_compat_l; lia.
        + replace (Zpos m1 * 2 ^ 53) with (2 * Zpos m1 * 2 ^ 52) by lia.
          rewrite Z.div_mul by lia. lia. }
    destruct (binary_round_aux_spec false q (e1 - e2 - 53) l 1)
      as (m & e & Hr & Hm & Hcase); [lia | cbn; lia | lia | lia |].
    exists m, 1. split; [by right|]. rewrite Hr.
    assert (q / 2 ^ 1 <= (2 ^ 54 - 2 ^ 23) / 2 ^ 1) as Hhalf
      by (apply Z.div_le_mono; lia).
    change ((2 ^ 54 - 2 ^ 23) / 2 ^ 1) with (2 ^ 53 - 2 ^ 22) in Hhalf.
    destruct Hcase as [[-> Hmq] | (_ & _ & Hc)]; [|lia].
    split; [done|]. split; [done|].
    change (2 ^ 1) with 2 in *.
    assert (2 * (q / 2) <= q) by (apply Z.mul_div_le; lia).
    nia.
Qed.

Lemma to_int_below_one m e :
  Zpos m < 2 ^ 53 -> e <= -53 -> to_int (S754_finite false m e) = 0.
Proof.
  intros Hm He. rewrite to_int_neg_exp by lia.
  apply Z.div_small. split; [lia|].
  assert (2 ^ 53 <= 2 ^ (- e)) by (apply Z.pow_le_mono_r; lia). lia.
Qed.

(** [int((double(w) / double(h)) * w)] is 0 when [w * w < h]. *)
Lemma narrow_height w h :
  0 < w -> w * w < h -> h < 2 ^ 31 ->
  to_int (mul (div (of_int w) (of_int h)) (of_int w)) = 0.
Proof.
  intros Hw Hww Hh.
  assert (w < 2 ^ 16) as Hw16.
  { change (2 ^ 16) with 65536. change (2 ^ 31) with 2147483648 in Hh. nia. }
  assert (0 < w < 2 ^ 31) as Hw31.
  { change (2 ^ 16) with 65536 in Hw16. change (2 ^ 31) with 2147483648.
    lia. }
  assert (0 < h < 2 ^ 31) as Hh31 by nia.
  destruct (of_int_pos w Hw31) as (m1 & e1 & Hofw & Hm1 & He1 & Hv1).
  destruct (of_int_pos h Hh31) as (m2 & e2 & Hofh & Hm2 & He2 & Hv2).
  rewrite Hofw, Hofh.
  set (a := - e1) in *. set (b := - e2) in *.
  assert (0 < 2 ^ a) as Ha by (apply Z.pow_pos_nonneg; lia).
  assert (0 < 2 ^ b) as Hb by (apply Z.pow_pos_nonneg; lia).
  assert (37 <= a) as Ha37.
  { destruct (Z_lt_le_dec a 37) as [Hlt|]; [|done].
    assert (2 ^ a <= 2 ^ 36) by (apply Z.pow_le_mono_r; lia).
    change (2 ^ 16) with 65536 in Hw16. change (2 ^ 36) with 68719476736 in *.
    change (2 ^ 52) with 4503599627370496 in *. nia. }
  assert (Zpos m1 <= 2 ^ 53 - 2 ^ 22) as Hm1'.
  { pose proof (pow2_split 53 a ltac:(lia)) as H53.
    pose proof (pow2_split a 22 ltac:(lia)) as H22.
    pose proof (pow2_ge_1 (a - 22) ltac:(lia)).
    pose proof (pow2_ge_1 (53 - a) ltac:(lia)).
    assert (w < 2 ^ (53 - a)) by nia.
    assert (Zpos m1 <= 2 ^ 53 - 2 ^ a) by nia.
    nia. }
  destruct (SFdiv_finite_upper m1 e1 m2 e2)
    as (q & n & Hn & -> & Hq & Hup); [lia | lia | lia |].
  set (ea := e1 - e2 - 53 + n).
  unfold mul, SFmul. cbn [xorb]. rewrite Pos2Z.inj_mul.
  set (P := Zpos q * Zpos m1).
  assert (2 ^ 104 <= P < 2 ^ 106) as HP.
  { change (2 ^ 104) with (2 ^ 52 * 2 ^ 52).
    change (2 ^ 106) with (2 ^ 53 * 2 ^ 53). subst P. nia. }
  set (X := - (ea + e1)).
  assert (X = 2 * a - b + 53 - n) as HX by (subst X ea a b; lia).
  assert (33 <= X) as HX33 by lia.
  assert (0 < 2 ^ n) as HN by (apply Z.pow_pos_nonneg; lia).
  assert (2 ^ n <= 2) as HN2 by (destruct Hn as [-> | ->]; cbn; lia).
  assert (0 < 2 ^ (X - 32)) as HE32 by (apply Z.pow_pos_nonneg; lia).
  assert (2 ^ X = 2 ^ 32 * 2 ^ (X - 32)) as HE by (apply pow2_split; lia).
  assert (2 ^ X * (2 ^ b * 2 ^ n) = 2 ^ a * 2 ^ a * 2 ^ 53) as HXpow.
  { rewrite <- !Z.pow_add_r by lia. f_equal. lia. }
  (* the product is below 1 by a margin *)
  assert (P * h <= h * 2 ^ X - h * 2 ^ (X - 32)) as Hmargin.
  { assert (2 ^ 37 <= 2 ^ a) as HA37 by (apply Z.pow_le_mono_r; lia).
    subst P. rewrite Hv1, Hv2 in Hup. rewrite Hv1.
    apply (narrow_margin w h (2 ^ a) (2 ^ b) (2 ^ n) (2 ^ X) (2 ^ (X - 32)));
      try done; try lia. }
  assert (P <= 2 ^ X - 2 ^ (X - 32)) as HPX.
  { apply (Z.mul_le_mono_pos_r _ _ h); lia. }
  assert (105 <= X) as HX105.
  { destruct (Z_lt_le_dec X 105); [|done].
    assert (2 ^ X <= 2 ^ 104) by (apply Z.pow_le_mono_r; lia). lia. }
  assert (exists n', (n' = 52 \/ n' = 53) /\ 2 ^ (52 + n') <= P < 2 ^ (53 + n'))
    as (n' & Hn' & HPn).
  { destruct (Z_lt_le_dec P (2 ^ 105)).
    - exists 52. split; [by left|]. cbn. split; [apply HP | done].
    - exists 53. split; [by right|]. cbn. split; [done | apply HP]. }
  destruct (binary_round_aux_spec false P (ea + e1) loc_Exact n')
    as (m & e' & -> & Hm & Hcase); [lia | done | lia | lia |].
  apply to_int_below_one; [lia|].
  destruct Hn' as [-> | ->].
  - destruct Hcase as [[-> _] | (-> & _ & Hc)]; [lia|].
    enough (X <> 105) by lia. intros HX5.
    rewrite HX5 in HPX.
    assert (2 ^ 52 * (P / 2 ^ 52) <= P) by (apply Z.mul_div_le; lia).
    rewrite Hc in *. cbn in *. lia.
  - assert (106 <= X) as HX106.
    { destruct (Z_lt_le_dec X 106); [|done].
      assert (2 ^ X <= 2 ^ 105) by (apply Z.pow_le_mono_r; lia).
      cbn in HPn. lia. }
    destruct Hcase as [[-> _] | (-> & _ & Hc)]; [lia|].
    enough (X <> 106) by lia. intros HX6.
    rewrite HX6 in HPX.
    assert (2 ^ 53 * (P / 2 ^ 53) <= P) by (apply Z.mul_div_le; lia).
    rewrite Hc in *. cbn in *. lia.
Qed.

End DoubleBounds.

(** On a device whose height is greater than the square of its width the
    rectangle handed to [print] has the height [int((w / h) * w) = 0], so
    that nothing is printed: no call is made and the plot is left as it
    is. *)
Theorem printDevice_narrow_device engine paintDev pfilter p :
  0 < dev_width paintDev ->
  dev_width paintDev * dev_width paintDev < dev_height paintDev ->
  dev_height paintDev < 2 ^ 31 ->
  paintDeviceRect (dev_width paintDev) (dev_height paintDev)
  = {| ix := 0; iy := 0; iwidth := dev_width paintDev; iheight := 0 |}
  /\ printDevice engine paintDev pfilter p = Some (tt, p, []).
Proof.
  intros Hw Hww Hh.
  assert (paintDeviceRect (dev_width paintDev) (dev_height paintDev)
          = {| ix := 0; iy := 0; iwidth := dev_width paintDev; iheight := 0 |})
    as Hrect.
  { unfold paintDeviceRect. cbn [iwidth iheight].
    rewrite DoubleFacts.aspect_below_one by nia.
    replace (dev_width paintDev <? dev_height paintDev) with true
      by (symmetry; apply Z.ltb_lt; nia).
    unfold QRect_setHeight. cbn [ix iy iwidth].
    by rewrite DoubleBounds.narrow_height. }
  split; [exact Hrect|].
  unfold printDevice. rewrite Hrect. apply print_skip.
  unfold validCall, isValid, toRectF. cbn [rwidth rheight iwidth iheight].
  by rewrite !andb_false_r.
Qed.

Lemma printDevice_narrow_device_witness :
  paintDeviceRect 100 20000
  = {| ix := 0; iy := 0; iwidth := 100; iheight := 0 |}
  /\ printDevice sampleEngine
       {| dev_width := 100; dev_height := 20000;
          dev_painter := samplePainter |} frameWithScales samplePlot
     = Some (tt, samplePlot, []).
Proof.
  apply (printDevice_narrow_device sampleEngine
           {| dev_width := 100; dev_height := 20000;
              dev_painter := samplePainter |} frameWithScales samplePlot).
  - reflexivity.
  - reflexivity.
  - reflexivity.
Defined.

(** ** print: when it has a result *)

Lemma bind_is_Some {A B} (m : M A) (f : A -> M B) p :
  is_Some (bind m f p) ->
  exists a p1 l1, m p = Some (a, p1, l1) /\ is_Some (f a p1).
Proof.
  unfold bind. destruct (m p) as [[[a p1] l1]|]; [|by intros [? ?]].
  intros Hsome. exists a, p1, l1. split; [done|].
  destruct (f a p1); [by eexists | by destruct Hsome].
Qed.

Lemma bind_is_Some_run {A B} (m : M A) (f : A -> M B) p a p1 l1 :
  m p = Some (a, p1, l1) -> is_Some (bind m f p) -> is_Some (f a p1).
Proof.
  intros Hm Hsome. apply bind_is_Some in Hsome as (a' & p' & l' & Hm' & H).
  rewrite Hm in Hm'. by injection Hm' as -> -> ->.
Qed.

Lemma when_printLegend_inv pfilter pl :
  is_Some (when (legendPrinted pfilter pl)
             (printLegend (legendRect (plotLayout pl))) pl) ->
  legendCallOk pfilter pl.
Proof.
  intros Hsome Hflag lg l Hlg Hempty Hl Hgrid.
  unfold legendPrinted in Hsome. rewrite Hflag, Hlg, Hempty in Hsome.
  cbn [andb negb when] in Hsome.
  unfold printLegend, bind, emit, get in Hsome.
  rewrite Hlg, Hempty, Hl, Hgrid in Hsome. cbn [negb] in Hsome.
  set (itemRects := layoutItems l _ _) in *.
  destruct (printLegendItems_rects (layoutChildren l) 0 0 itemRects pl)
    as [[Hiff _] _]; [by rewrite Hlg|].
  destruct Hiff as [H0 | Hle]; [|lia | lia].
  destruct (printLegendItems _ _ _ _ _) as [[[b p2] l2]|];
    [by eexists | by destruct Hsome].
Qed.

Lemma printScales_total p : printScales p = Some (tt, p, scaleCalls p).
Proof.
  apply for_run. intros a _. unfold printAxisScale, axisScaleEvents.
  eapply bind_run; [reflexivity | cbv beta | reflexivity].
  destruct (axisWidget p !! a) as [w|] eqn:Hw; [|reflexivity].
  destruct (borderDistHint w) as [startDist endDist].
  apply printScale_run. intros _. by rewrite Hw.
Qed.

Lemma buildMap_inv canvasRect axisId p r :
  buildMap canvasRect axisId p = Some r -> axisOk p axisId /\ r.1.2 = p.
Proof.
  intros Hr.
  assert (axisOk p axisId) as Hok.
  { intros Hen. destruct (axisWidget p !! axisId) as [w|] eqn:Hw; [by eexists|].
    exfalso. revert Hr. unfold buildMap, paintInterval, bind, get, deref.
    destruct (axisScaleDiv p axisId) as [lo hi]. by rewrite Hen, Hw. }
  split; [exact Hok|].
  destruct (buildMap_run canvasRect axisId p Hok) as (m & Hm & _).
  rewrite Hm in Hr. by injection Hr as <-.
Qed.

Lemma buildMaps_inv canvasRect ids : forall p r,
  mapM ids (buildMap canvasRect) p = Some r ->
  forall a, a ∈ ids -> axisOk p a.
Proof.
  induction ids as [|a0 ids IH]; intros p r Hr a Ha;
    [by apply elem_of_nil in Ha|].
  cbn [mapM] in Hr.
  apply bind_result in Hr as (m & p1 & l1 & b & p2 & l2 & Hm & Hrest & _).
  destruct (buildMap_inv _ _ _ _ Hm) as [Hok Hp1]. cbn [fst snd] in Hp1.
  subst p1.
  apply elem_of_cons in Ha as [-> | Ha]; [exact Hok|].
  apply bind_result in Hrest as (ms & p3 & l3 & _ & _ & _ & Hms & _ & _).
  by apply (IH _ _ Hms).
Qed.

Lemma axisOk_laidOut_inv engine painter plotRect pfilter p a :
  a ∈ axisIds ->
  axisOk (laidOut engine painter plotRect pfilter p) a -> axisOk p a.
Proof.
  intros Ha Hok Hen. unfold axisOk in Hok.
  rewrite (proj2 (proj2 (laidOut_flags engine painter plotRect pfilter p))),
    (laidOut_widget_lookup _ _ _ _ _ _ Ha) in Hok.
  destruct (Hok Hen) as [w' Hw']. destruct (axisWidget p !! a); [by eexists|].
  discriminate Hw'.
Qed.

(** [print] has a result, that is, it dereferences no null pointer and reads
    no item rectangle that does not exist, exactly under the condition
    [printable]: a call that returns at line 70 always has one; any other call
    has one exactly when every enabled axis has its scale widget and, with the
    option PrintLegend, [layoutItems] gives a rectangle for every child of
    the legend that has a widget, in the one call that [printLegend] makes
    for the rectangle of the layout. *)
Theorem print_result_iff engine painter plotRect pfilter p :
  is_Some (print engine (Some painter) plotRect pfilter p)
  <-> printable engine painter plotRect pfilter p.
Proof.
  split.
  2:{ intros Hp. rewrite (print_cases _ _ _ _ _ Hp).
      by destruct (validCall painter plotRect p). }
  intros Hsome Hv.
  destruct (saveMargins_step pfilter p) as (d & Hsave & _).
  unfold validCall in Hv.
  apply andb_true_iff in Hv as [[Hact Hrect]%andb_true_iff Hsize].
  apply negb_true_iff in Hsize.
  unfold print in Hsome.
  eapply bind_is_Some_run in Hsome; [|reflexivity].
  rewrite Hact, Hrect, Hsize in Hsome. cbn [negb orb] in Hsome.
  cbv zeta in Hsome.
  eapply bind_is_Some_run in Hsome; [|reflexivity].
  eapply bind_is_Some_run in Hsome; [|reflexivity].
  eapply bind_is_Some_run in Hsome; [|exact Hsave].
  eapply bind_is_Some_run in Hsome; [|reflexivity].
  eapply bind_is_Some_run in Hsome; [|reflexivity].
  fold (printLayoutRect painter plotRect p) in Hsome.
  fold (laidOut engine painter plotRect pfilter p) in Hsome.
  set (pl := laidOut engine painter plotRect pfilter p) in *.
  eapply bind_is_Some_run in Hsome; [|reflexivity].
  eapply bind_is_Some_run in Hsome; [|reflexivity].
  eapply bind_is_Some_run in Hsome; [|reflexivity].
  eapply bind_is_Some_run in Hsome; [|apply when_printTitle_run].
  apply bind_is_Some in Hsome as (u & p1 & l1 & Hleg & Hsome).
  assert (legendCallOk pfilter pl) as Hlegend.
  { apply when_printLegend_inv. unfold legendPrinted. rewrite Hleg.
    by eexists. }
  pose proof (when_printLegend_run pfilter pl Hlegend) as Hrun.
  unfold legendPrinted in Hrun. rewrite Hrun in Hleg.
  injection Hleg as <- <- <-.
  eapply bind_is_Some_run in Hsome; [|apply printScales_total].
  eapply bind_is_Some_run in Hsome; [|reflexivity].
  apply bind_is_Some in Hsome as (maps & p2 & l2 & Hmaps & _).
  split.
  - intros a Ha.
    apply (axisOk_laidOut_inv engine painter plotRect pfilter p a Ha).
    by apply (buildMaps_inv _ _ _ _ Hmaps).
  - intros Hflag lg l Hlg. apply (Hlegend Hflag lg l).
    unfold pl, laidOut, plotWhilePrinting.
    by destruct (has (options pfilter) PrintFrameWithScales).
Qed.

Lemma print_result_iff_witness :
  is_Some (print sampleEngine (Some samplePainter) sampleRect titleAndLegend
             sparseLegendPlot).
Proof.
  apply (print_result_iff sampleEngine samplePainter sampleRect titleAndLegend
           sparseLegendPlot).
  apply sparseLegendPlot_printable.
Defined.
